(** * ARcademia: [main.py], the mesh transport and the desktop viewer

    A shallow embedding of the two UDP helpers of [main.py],
    [_pack_mesh] (lines 556-559) and [send_mesh_udp] (lines 562-575),
    together with the parts of the Python runtime they call
    ([json.dumps], [int.to_bytes], slicing, [range], [socket.sendto]).
    The receiving side, which the repository does not contain, is modelled
    from the specification in the modules [Reassembler] and [Deserializer].

    Three things are inputs of the model: the text [float.__repr__] gives
    for a float, the reading of the clock, and whether each call to
    [sendto] succeeds. Running out of memory and a failure to create or to
    close the socket are outside it.

    The module [Viewer] embeds the rest of the file: [analyze_model]
    (lines 42-65), [generate_description] (lines 68-92) and the methods
    of the class [App] (lines 95-552), over what Open3D, [pathlib] and
    the file system give them, which are inputs of the model as well. *)

From Stdlib Require Import ZArith NArith Lia Floats.
From Stdlib Require Import DecimalString DecimalPos DecimalZ.
From Stdlib Require Import Strings.Ascii Strings.String Strings.Byte.
From Stdlib Require OrderedTypeEx.
From stdpp Require Import base tactics option list gmap sorting.

Local Open Scope string_scope.
Local Open Scope list_scope.
Local Open Scope Z_scope.

(** ** Python values *)

(** [bytes]: an immutable sequence of octets. *)
Abbreviation bytes := (list byte).

#[global] Instance byte_eq_decision : EqDecision byte := Byte.byte_eq_dec.

(** [str.encode()]: UTF-8, which is the identity on the ASCII text that
    [json.dumps] produces with its default [ensure_ascii=True]. *)
Definition encode (s : string) : bytes := list_byte_of_string s.

(** The exceptions that the modelled code and its callees raise, by their
    Python class. [OSError] carries its [errno]. *)
Inductive exn : Type :=
  | ZeroDivisionError
  | OverflowError
  | ValueError
  | OSError (errno : Z).

Definition exn_name (e : exn) : string :=
  match e with
  | ZeroDivisionError => "ZeroDivisionError"
  | OverflowError => "OverflowError"
  | ValueError => "ValueError"
  | OSError _ => "OSError"
  end.

(** The outcome of evaluating a Python expression or statement. *)
Inductive outcome (A : Type) : Type :=
  | Return (a : A)
  | Raise (e : exn).
Arguments Return {A} a.
Arguments Raise {A} e.

(** [fails_with r cls]: the evaluation raised an exception of class [cls]. *)
Definition fails_with {A} (r : outcome A) (cls : string) : Prop :=
  exists e, r = Raise e /\ exn_name e = cls.

(** [a // b] on Python integers: floor division, [ZeroDivisionError] on a
    zero divisor. [Z.div] rounds toward minus infinity like Python does. *)
Definition floordiv (a b : Z) : outcome Z :=
  if b =? 0 then Raise ZeroDivisionError else Return (a / b).

(** [n.to_bytes(2, "big")]: the two octets of [n], most significant first;
    [OverflowError] when [n] is negative or does not fit in 16 bits. *)
Definition to_bytes_2_big (n : Z) : outcome bytes :=
  if (n <? 0) || (65536 <=? n) then Raise OverflowError
  else match Byte.of_N (Z.to_N (n / 256)), Byte.of_N (Z.to_N (n mod 256)) with
       | Some hi, Some lo => Return [hi; lo]
       | _, _ => Raise OverflowError
       end.

(** The normalisation Python applies to one bound of a slice of a sequence
    of length [n]: a negative bound counts from the end, and both are
    clamped to [0..n]. *)
Definition slice_bound (n i : Z) : Z :=
  if i <? 0 then Z.max (i + n) 0 else Z.min i n.

(** [l[lo:hi]] *)
Definition slice {A} (l : list A) (lo hi : Z) : list A :=
  let n := Z.of_nat (length l) in
  let lo' := slice_bound n lo in
  let hi' := slice_bound n hi in
  take (Z.to_nat (hi' - lo')) (drop (Z.to_nat lo') l).

(** [range(n)]: [0, 1, ..., n-1], empty when [n <= 0]. *)
Definition range (n : Z) : list Z := seqZ 0 n.

(** ** The world the helpers run in *)

(** A datagram handed to the network: its octets and its destination
    [(ip, port)]. *)
Definition datagram : Type := bytes * (string * Z).

Record World : Type := mkWorld {
  w_time : float;           (** what [time.time()] returns *)
  w_wire : list datagram;   (** datagrams sent so far, oldest first *)
  w_tried : list datagram;  (** datagrams passed to [sendto] so far *)
  w_open : nat              (** sockets currently open *)
}.

(** The number of calls made to [sendto] so far. *)
Definition w_calls (w : World) : nat := length (w_tried w).
Arguments w_calls : simpl never.

(** Computations that read and change the world and may raise. *)
Definition M (A : Type) : Type := World -> outcome A * World.

Definition ret {A} (a : A) : M A := fun w => (Return a, w).

Definition bind {A B} (m : M A) (k : A -> M B) : M B :=
  fun w => match m w with
           | (Return a, w') => k a w'
           | (Raise e, w') => (Raise e, w')
           end.

(** A pure evaluation that may raise, lifted into [M]. *)
Definition lift {A} (r : outcome A) : M A := fun w => (r, w).

Declare Scope py_scope.
Delimit Scope py_scope with py.
Notation "x <- c1 ;; c2" := (bind c1 (fun x => c2))
  (at level 100, c1 at next level, right associativity) : py_scope.
Notation "c1 ;; c2" := (bind c1 (fun _ => c2))
  (at level 100, right associativity) : py_scope.

(** [for x in xs: body(x)] *)
Fixpoint for_each {A} (xs : list A) (body : A -> M unit) : M unit :=
  match xs with
  | [] => ret tt
  | x :: xs' => (body x ;; for_each xs' body)%py
  end.

(** [try: m finally: fin]: [fin] runs whether [m] returns or raises; an
    exception of [fin] replaces the outcome of [m]. *)
Definition try_finally {A} (m : M A) (fin : M unit) : M A :=
  fun w => let (r, w1) := m w in
           match fin w1 with
           | (Return _, w2) => (r, w2)
           | (Raise e, w2) => (Raise e, w2)
           end.

(** ** [json.dumps] with its default arguments *)

(** The Python values [json.dumps] is applied to. A [dict] keeps the
    insertion order of its keys, which are [str] here. *)
#[local] Unset Elimination Schemes.
Inductive json : Type :=
  | JNone
  | JBool (b : bool)
  | JInt (n : Z)
  | JFloat (x : float)
  | JStr (s : string)
  | JList (items : list json)
  | JDict (items : list (string * json)).
#[local] Set Elimination Schemes.

(** [int.__repr__]: decimal digits, with a leading minus sign if negative. *)
Definition int_repr (n : Z) : string := NilZero.string_of_int (Z.to_int n).

Definition dquote : ascii := ascii_of_N 34.
Definition backslash : ascii := ascii_of_N 92.

(** A one-character string, and a backslash escape. *)
Definition char (c : ascii) : string := String c EmptyString.
Definition esc (s : string) : string := String backslash s.

Definition hex_digit (n : N) : ascii :=
  ascii_of_N (if (n <? 10)%N then 48 + n else 87 + n).

(** What [py_encode_basestring_ascii] of [json.encoder] substitutes for one
    character (a code point below 256 here): the short escapes of
    [ESCAPE_DCT], the character itself from space to tilde, and a
    four-digit [u] escape otherwise. *)
Definition escape_char (c : ascii) : string :=
  let n := N_of_ascii c in
  if (n =? 34)%N then esc (char dquote)
  else if (n =? 92)%N then esc (char backslash)
  else if (n =? 8)%N then esc "b"
  else if (n =? 12)%N then esc "f"
  else if (n =? 10)%N then esc "n"
  else if (n =? 13)%N then esc "r"
  else if (n =? 9)%N then esc "t"
  else if (32 <=? n)%N && (n <=? 126)%N then char c
  else esc (String.append "u00"
              (String (hex_digit (n / 16)) (char (hex_digit (n mod 16))))).

Fixpoint escape (s : string) : string :=
  match s with
  | EmptyString => EmptyString
  | String c s' => String.append (escape_char c) (escape s')
  end.

(** [encode_basestring_ascii]: the escaped text between double quotes. *)
Definition encode_basestring_ascii (s : string) : string :=
  String dquote (String.append (escape s) (char dquote)).

(** The items of a sequence evaluated in order, up to the first that
    raises. *)
Section MapOutcome.
Context {A B : Type}.
Variable f : A -> outcome B.

Fixpoint map_outcome (l : list A) : outcome (list B) :=
  match l with
  | [] => Return []
  | x :: l' =>
      match f x with
      | Raise e => Raise e
      | Return y =>
          match map_outcome l' with
          | Raise e => Raise e
          | Return ys => Return (y :: ys)
          end
      end
  end.
End MapOutcome.

Section Json.
(** [float.__repr__] on a finite float: the shortest decimal text that
    reads back as the same double. It is a function of the interpreter,
    taken as given. *)
Variable float_repr : float -> string.

(** [floatstr] of [json.encoder]: the three non-finite values have their
    own tokens, and are refused unless [allow_nan]. *)
Definition floatstr (allow_nan : bool) (o : float) : outcome string :=
  if negb (o =? o)%float then
    if allow_nan then Return "NaN" else Raise ValueError
  else if (o =? infinity)%float then
    if allow_nan then Return "Infinity" else Raise ValueError
  else if (o =? neg_infinity)%float then
    if allow_nan then Return "-Infinity" else Raise ValueError
  else Return (float_repr o).

(** The encoder proper, with the default separators (comma and colon,
    each followed by a space), no indentation and keys in insertion
    order. The first item that cannot be encoded raises. *)
Fixpoint json_encode (allow_nan : bool) (o : json) : outcome string :=
  match o with
  | JNone => Return "null"
  | JBool true => Return "true"
  | JBool false => Return "false"
  | JInt n => Return (int_repr n)
  | JFloat x => floatstr allow_nan x
  | JStr s => Return (encode_basestring_ascii s)
  | JList items =>
      match map_outcome (json_encode allow_nan) items with
      | Raise e => Raise e
      | Return ss =>
          Return (String.append "[" (String.append (String.concat ", " ss) "]"))
      end
  | JDict items =>
      match map_outcome
              (fun kv =>
                 match json_encode allow_nan (snd kv) with
                 | Raise e => Raise e
                 | Return s =>
                     Return (String.append (encode_basestring_ascii (fst kv))
                               (String.append ": " s))
                 end) items with
      | Raise e => Raise e
      | Return ss =>
          Return (String.append "{" (String.append (String.concat ", " ss) "}"))
      end
  end.

(** [json.dumps(obj)]: [allow_nan] defaults to [True]. *)
Definition json_dumps (obj : json) : outcome string := json_encode true obj.

(** ** [_pack_mesh] (lines 556-559) *)

(** [o3d.geometry.TriangleMesh], as far as the helpers read it:
    [vertices] is a [Vector3dVector] (rows of three doubles) and
    [triangles] a [Vector3iVector] (rows of three 32-bit integers). *)
Record TriangleMesh : Type := mkMesh {
  vertices : list (float * float * float);
  triangles : list (Z * Z * Z)
}.

(** The cast of one double to [np.float32] and back to a Python float by
    [tolist]: rounding to nearest even at 24 bits of precision, infinite
    on overflow. *)
Definition float32 (x : float) : float :=
  match Prim2SF x with
  | S754_finite s m e => SF2Prim (binary_round 24 128 s m e)
  | _ => x
  end.

(** [np.asarray(rows, dtype=np.float32)] *)
Definition asarray_float32 (rows : list (float * float * float))
  : list (float * float * float) :=
  (fun '(x, y, z) => (float32 x, float32 y, float32 z)) <$> rows.

(** [np.asarray(rows, dtype=np.int32)]: the rows of a [Vector3iVector]
    already are 32-bit integers, so nothing is converted. *)
Definition asarray_int32 (rows : list (Z * Z * Z)) : list (Z * Z * Z) := rows.

(** [a.reshape(-1).tolist()] on an array of shape (n, 3): the rows one
    after the other. *)
Definition reshape_tolist {A} (rows : list (A * A * A)) : list A :=
  rows ≫= (fun '(x, y, z) => [x; y; z]).

(** [time.time()] *)
Definition time_time : M float := fun w => (Return (w_time w), w).

Definition _pack_mesh (mesh : TriangleMesh) : M bytes :=
  (let v := reshape_tolist (asarray_float32 (vertices mesh)) in
   let t := reshape_tolist (asarray_int32 (triangles mesh)) in
   ts <- time_time ;;
   s <- lift (json_dumps (JDict [("type", JStr "mesh");
                                 ("vertices", JList (JFloat <$> v));
                                 ("triangles", JList (JInt <$> t));
                                 ("ts", JFloat ts)])) ;;
   ret (encode s))%py.

End Json.

(** ** [send_mesh_udp] (lines 562-575) *)

Section Network.
Variable float_repr : float -> string.

(** The fate of each call to [sock.sendto], by the number of calls made
    before it: [None] when the datagram is handed to the network,
    [Some e] when the call raises [e] and nothing is sent. *)
Variable sendto_error : nat -> option exn.

Definition set_open (w : World) (n : nat) : World :=
  mkWorld (w_time w) (w_wire w) (w_tried w) n.

(** The world after a call to [sendto] with the datagram [d], which is on
    the wire if the call succeeded. *)
Definition after_sendto (w : World) (d : datagram) (ok : bool) : World :=
  mkWorld (w_time w) (if ok then w_wire w ++ [d] else w_wire w)
          (w_tried w ++ [d]) (w_open w).

(** [socket.socket(socket.AF_INET, socket.SOCK_DGRAM)] *)
Definition socket_socket : M unit :=
  fun w => (Return tt, set_open w (S (w_open w))).

(** [sock.close()] *)
Definition sock_close : M unit :=
  fun w => (Return tt, set_open w (Nat.pred (w_open w))).

(** [sock.sendto(pkt, addr)] *)
Definition sock_sendto (pkt : bytes) (addr : string * Z) : M unit :=
  fun w => match sendto_error (w_calls w) with
           | Some e => (Raise e, after_sendto w (pkt, addr) false)
           | None => (Return tt, after_sendto w (pkt, addr) true)
           end.

(** The magic of line 567: the letters ARC and the byte 1. *)
Definition header : bytes := encode "ARC" ++ [x01].

(** Lines 564-575: everything [send_mesh_udp] does once [data] is
    packed. *)
Definition send_mesh_udp_from (data : bytes) (ip : string) (port chunk : Z)
  : M Z :=
  (let total := Z.of_nat (length data) in
   socket_socket ;;
   try_finally
     (parts <- lift (floordiv (total + chunk - 1) chunk) ;;
      for_each (range parts) (fun i =>
        let part := slice data (i * chunk) ((i + 1) * chunk) in
        index_field <- lift (to_bytes_2_big i) ;;
        total_field <- lift (to_bytes_2_big parts) ;;
        let pkt := header ++ index_field ++ total_field ++ part in
        sock_sendto pkt (ip, port)))
     sock_close ;;
   ret total)%py.

Definition send_mesh_udp (mesh : TriangleMesh) (ip : string) (port chunk : Z)
  : M Z :=
  (data <- _pack_mesh float_repr mesh ;;
   send_mesh_udp_from data ip port chunk)%py.

End Network.

(** ** Vocabulary of the statements *)

(** The least [n] with [n * C >= L], for [C >= 1]: the ceiling of [L / C]. *)
Definition ceil_div (L C : Z) : Z :=
  if L mod C =? 0 then L / C else L / C + 1.

(** A 16-bit field: its two octets, most significant first, and the number
    two octets stand for. *)
Definition be16 (n : Z) : bytes :=
  match to_bytes_2_big n with
  | Return b => b
  | Raise _ => []
  end.

Definition u16 (hi lo : byte) : Z :=
  Z.of_N (Byte.to_N hi) * 256 + Z.of_N (Byte.to_N lo).

(** The datagram line 571 builds for fragment [i] of [parts]. *)
Definition packet (data : bytes) (chunk parts : Z) (addr : string * Z) (i : Z)
  : datagram :=
  (header ++ be16 i ++ be16 parts ++ slice data (i * chunk) ((i + 1) * chunk),
   addr).

(** Sending prepared datagrams one after the other until a call fails. *)
Fixpoint emit (sendto_error : nat -> option exn) (pkts : list datagram)
  : M unit :=
  fun w =>
    match pkts with
    | [] => (Return tt, w)
    | p :: ps =>
        match sendto_error (w_calls w) with
        | Some e => (Raise e, after_sendto w p false)
        | None => emit sendto_error ps (after_sendto w p true)
        end
    end.

(** What a computation started in [w] returns or raises, the datagrams it
    puts on the wire, those it passes to [sendto], and the number of calls
    to [sendto] it makes. *)
Definition result_of {A} (m : M A) (w : World) : outcome A := fst (m w).

Definition sent_by {A} (m : M A) (w : World) : list datagram :=
  drop (length (w_wire w)) (w_wire (snd (m w))).

Definition tried_by {A} (m : M A) (w : World) : list datagram :=
  drop (length (w_tried w)) (w_tried (snd (m w))).

Definition calls_by {A} (m : M A) (w : World) : nat :=
  length (tried_by m w).

(** The part of a datagram after its 8-byte header. *)
Definition datagram_body (d : datagram) : bytes := drop 8 (fst d).

(** The two 16-bit fields of a datagram, read at the offsets 4 and 6. *)
Definition field16 (off : nat) (pkt : bytes) : option Z :=
  hi ← pkt !! off; lo ← pkt !! S off; Some (u16 hi lo).

Definition index_field (d : datagram) : option Z := field16 4 (fst d).
Definition total_field (d : datagram) : option Z := field16 6 (fst d).

(** The text [json.dumps] writes for a float. *)
Definition float_text (float_repr : float -> string) (x : float) : string :=
  match floatstr float_repr true x with
  | Return s => s
  | Raise _ => EmptyString
  end.

(** The fixed texts between the values of a payload. *)
Definition text_open : string :=
  String.concat EmptyString
    ["{"; encode_basestring_ascii "type"; ": "; encode_basestring_ascii "mesh";
     ", "; encode_basestring_ascii "vertices"; ": ["].
Definition text_triangles : string :=
  String.concat EmptyString [", "; encode_basestring_ascii "triangles"; ": ["].
Definition text_ts : string :=
  String.concat EmptyString [", "; encode_basestring_ascii "ts"; ": "].

(** The text of a payload, from the sequences of its two arrays and its
    timestamp. *)
Definition payload_text (float_repr : float -> string)
  (v : list float) (t : list Z) (ts : float) : string :=
  String.concat EmptyString
    [text_open; String.concat ", " (float_text float_repr <$> v); "]";
     text_triangles; String.concat ", " (int_repr <$> t); "]";
     text_ts; float_text float_repr ts; "}"].

(** A mesh in the data model of the spec: every coordinate is a 32-bit
    float already, which the cast leaves as it is. *)
Definition float32_valued (mesh : TriangleMesh) : Prop :=
  Forall (fun r => float32 r.1.1 = r.1.1 /\ float32 r.1.2 = r.1.2
                   /\ float32 r.2 = r.2) (vertices mesh).

(** The payload [_pack_mesh] returns for a mesh, in a world. *)
Definition payload_of (float_repr : float -> string) (mesh : TriangleMesh)
  (w : World) : bytes :=
  encode (payload_text float_repr
            (reshape_tolist (asarray_float32 (vertices mesh)))
            (reshape_tolist (asarray_int32 (triangles mesh)))
            (w_time w)).

(** A text between double quotes (the octet 34), and the octets of a
    payload, written out: a JSON object of the four fields type,
    vertices, triangles and ts, in this order, with a comma and a space
    between the fields and a colon and a space after each name; the
    texts of the two arrays and of the timestamp are given. *)
Definition quoted (s : string) : bytes :=
  x22 :: list_byte_of_string s ++ [x22].

Definition payload_octets (vertices_text triangles_text ts_text : string)
  : bytes :=
  list_byte_of_string "{"
  ++ quoted "type" ++ list_byte_of_string ": " ++ quoted "mesh"
  ++ list_byte_of_string ", "
  ++ quoted "vertices" ++ list_byte_of_string ": ["
  ++ list_byte_of_string vertices_text ++ list_byte_of_string "], "
  ++ quoted "triangles" ++ list_byte_of_string ": ["
  ++ list_byte_of_string triangles_text ++ list_byte_of_string "], "
  ++ quoted "ts" ++ list_byte_of_string ": "
  ++ list_byte_of_string ts_text ++ list_byte_of_string "}".

(** A network on which the next [n] calls to [sendto] succeed. *)
Definition sends_ok (sendto_error : nat -> option exn) (w : World) (n : Z)
  : Prop :=
  forall j : nat, Z.of_nat j < n -> sendto_error (w_calls w + j)%nat = None.

(** ** Inputs used in the examples *)

(** A network that never fails, and one on which the second call to
    [sendto] raises [OSError] with errno 101 (network unreachable). *)
Definition quiet : nat -> option exn := fun _ => None.
Definition flaky : nat -> option exn :=
  fun c => if (c =? 1)%nat then Some (OSError 101) else None.

(** A network on which every call to [sendto] raises that error. *)
Definition dead : nat -> option exn := fun _ => Some (OSError 101).

Definition world0 : World := mkWorld 1700000000 [] [] 0.

(** A payload of twenty bytes, and one of 65536 bytes. *)
Definition small_data : bytes := encode "0123456789abcdefghij".
Definition big_data : bytes := replicate (Z.to_nat 65536) x00.

(** A mesh of one vertex and 8000 degenerate triangles on it, and a mesh
    whose only vertex has a coordinate that is not a number. *)
Definition big_mesh : TriangleMesh :=
  mkMesh [(0, 0, 0)%float] (replicate (Z.to_nat 8000) (0, 0, 0)).

(** A mesh whose only vertex is at 0.1 on the first axis: the double
    nearest to it, which is no 32-bit float. *)
Definition tenth_mesh : TriangleMesh :=
  mkMesh [(0x1.999999999999ap-4, 0, 0)%float] [].

(** The mesh of the end-to-end scenario: a unit square of two triangles. *)
Definition square : TriangleMesh :=
  mkMesh [(0, 0, 0); (1, 0, 0); (1, 1, 0); (0, 1, 0)]%float
         [(0, 1, 2); (0, 2, 3)].

(** [float.__repr__] on the whole numbers below [1e16] in magnitude,
    where it is the decimal integer followed by [.0] (as in [1.0],
    [-3.0], [1700000000.0]); used wherever a concrete payload is
    evaluated, always on such values. Elsewhere it is a placeholder. *)
Definition whole_float_repr (x : float) : string :=
  match Prim2SF x with
  | S754_zero s => if s then "-0.0" else "0.0"
  | S754_finite s m e =>
      let n := if 0 <=? e then Z.pos m * 2 ^ e else Z.pos m / 2 ^ (- e) in
      String.append (int_repr (if s then - n else n)) ".0"
  | _ => "nan"
  end.

(** ** The receiving side *)

Module Reassembler.

(** Modelled from the spec: the receiver of sections 3, 4.3 and 6, none of
    which the repository implements. Where the spec leaves a choice, the
    choice made is said at the definition. *)

(** Modelled from the spec: a received fragment (section 3): its
    zero-based position, the fragment count of its message, and its
    slice of the payload. The repository has no receiving code. *)
Record Fragment : Type := mkFragment {
  index : nat;
  total : nat;
  body : bytes
}.

(** Modelled from the spec: the reading of one datagram by the wire
    format of section 6; the repository has no receiving code. A datagram
    shorter than the header, or whose magic is not exactly [ARC] and the
    version byte 1, is not a fragment. *)
Definition parse (d : bytes) : option Fragment :=
  match d with
  | m0 :: m1 :: m2 :: v :: i1 :: i0 :: t1 :: t0 :: rest =>
      if bool_decide ([m0; m1; m2; v] = encode "ARC" ++ [x01])
      then Some (mkFragment (Z.to_nat (u16 i1 i0)) (Z.to_nat (u16 t1 t0)) rest)
      else None
  | _ => None
  end.

(** Modelled from the spec: the in-flight message (section 3): the
    expected count, the bodies received so far by index, and the time
    the message was started. The repository has no receiving code. *)
Record InFlightMessage : Type := mkInFlight {
  expected : nat;
  slots : gmap nat bytes;
  started : Z
}.

(** Modelled from the spec: the states of section 4.3; the repository
    has no receiving code. *)
Inductive State : Type :=
  | IDLE
  | COLLECTING (m : InFlightMessage)
  | COMPLETE (payload : bytes)
  | EXPIRED.

(** Modelled from the spec: whether all slots [0..n) are filled (section
    4.3); the repository has no receiving code. *)
Definition filled (n : nat) (s : gmap nat bytes) : bool :=
  forallb (fun i => bool_decide (is_Some (s !! i))) (seq 0 n).

(** Modelled from the spec: the bodies of the slots [0..n) concatenated in
    index order (section 4.3); the repository has no receiving code. *)
Definition assemble (n : nat) (s : gmap nat bytes) : bytes :=
  concat ((fun i => default [] (s !! i)) <$> seq 0 n).

(** Modelled from the spec: storing a body at its index, duplicates
    overwriting, and completing when every slot is filled (section
    4.3); the repository has no receiving code. *)
Definition store (m : InFlightMessage) (f : Fragment) : State :=
  let s := <[index f := body f]> (slots m) in
  if filled (expected m) s then COMPLETE (assemble (expected m) s)
  else COLLECTING (mkInFlight (expected m) s (started m)).

(** Modelled from the spec: the opportunistic expiry check made when a
    fragment arrives at time [now], with timeout [T] (sections 4.3 and
    5), measured from the creation timestamp the message holds (section
    3); the repository has no receiving code. *)
Definition expire (T now : Z) (st : State) : State :=
  match st with
  | COLLECTING m => if T <? now - started m then EXPIRED else st
  | _ => st
  end.

(** Modelled from the spec: the transition on a fragment with matching
    magic arriving at time [now] (section 4.3); the repository has no
    receiving code. A fragment whose index is not below its total breaks
    the invariant of section 3 and is dropped. The terminal states hand
    over to [IDLE] before the fragment is looked at; a fragment whose
    total disagrees with the message in flight starts a new message. The
    fragment that starts a message is stored like any other, so a message
    of one fragment completes at once. *)
Definition on_fragment (T : Z) (st : State) (now : Z) (f : Fragment) : State :=
  if bool_decide (index f < total f)%nat then
    match expire T now st with
    | COLLECTING m =>
        if bool_decide (total f = expected m) then store m f
        else store (mkInFlight (total f) ∅ now) f
    | IDLE | COMPLETE _ | EXPIRED => store (mkInFlight (total f) ∅ now) f
    end
  else st.

(** Modelled from the spec: the transition on a raw datagram; what does
    not parse is ignored in every state (section 4.3). The repository has
    no receiving code. *)
Definition on_datagram (T : Z) (st : State) (now : Z) (d : bytes) : State :=
  match parse d with
  | Some f => on_fragment T st now f
  | None => st
  end.

(** Modelled from the spec: the receive loop over fragments in arrival
    order, each with its arrival time; the repository has no receiving
    code. *)
Definition run (T : Z) (st : State) (arrivals : list (Z * Fragment)) : State :=
  foldl (fun st '(now, f) => on_fragment T st now f) st arrivals.

(** Modelled from the spec: the receive loop over raw datagrams; the
    repository has no receiving code. *)
Definition run_datagrams (T : Z) (st : State) (arrivals : list (Z * bytes))
  : State :=
  foldl (fun st '(now, d) => on_datagram T st now d) st arrivals.

(** The slots after storing the fragments of [l] on top of [s]. *)
Definition stored (s : gmap nat bytes) (l : list (Z * Fragment)) : gmap nat bytes :=
  foldl (fun s a => <[index (snd a) := body (snd a)]> s) s l.

(** The fragments among the datagrams of [l], each with its arrival time. *)
Definition parsed (l : list (Z * bytes)) : list (Z * Fragment) :=
  omap (fun a => f ← parse (snd a); Some (fst a, f)) l.

(** A complete fragment set of one message, in index order: the k-th
    fragment has index k, and every total is the number of fragments. *)
Definition complete_message (fs : list Fragment) : Prop :=
  fs <> [] /\
  forall k f, fs !! k = Some f -> index f = k /\ total f = length fs.

(** Every arrival is within the timeout of the first one. *)
Definition timely {A} (T : Z) (arrivals : list (Z * A)) : Prop :=
  match arrivals with
  | [] => True
  | (t0, _) :: rest => Forall (fun a => fst a - t0 <= T) rest
  end.

End Reassembler.

Module Deserializer.

(** Modelled from the spec: [deserialize] of section 4.1, which the
    repository does not implement. It reads exactly the layout that
    [_pack_mesh] writes and rejects everything else. *)

(** Modelled from the spec: the outcome of [deserialize] (section 4.1),
    which fails with [MalformedPayloadError] on structurally invalid
    input. The repository has no deserializer. *)
Inductive result (A : Type) : Type :=
  | Ok (a : A)
  | MalformedPayloadError.
Arguments Ok {A} a.
Arguments MalformedPayloadError {A}.

(** [expect p s]: [s] without its prefix [p], if it has it. *)
Fixpoint expect (p s : string) : option string :=
  match p, s with
  | EmptyString, _ => Some s
  | String a p', String b s' => if Ascii.eqb a b then expect p' s' else None
  | String _ _, EmptyString => None
  end.

Definition comma : ascii := ascii_of_N 44.
Definition space : ascii := ascii_of_N 32.
Definition rbracket : ascii := ascii_of_N 93.
Definition rbrace : ascii := ascii_of_N 125.

(** The characters that end a number. *)
Definition is_delim (c : ascii) : bool :=
  Ascii.eqb c comma || Ascii.eqb c rbracket || Ascii.eqb c rbrace.

(** [items s]: the texts of the items of an array whose opening bracket
    was just read, and what follows its closing bracket. Items are
    separated by a comma and a space. The last item is ended by the
    closing bracket, so an empty array reads as one empty text. *)
Fixpoint items (s : string) : option (list string * string) :=
  match s with
  | EmptyString => None
  | String c s' =>
      if Ascii.eqb c rbracket then Some ([EmptyString], s')
      else if Ascii.eqb c comma then
        match s' with
        | String c' s'' =>
            if Ascii.eqb c' space then
              match items s'' with
              | Some (ts, r) => Some (EmptyString :: ts, r)
              | None => None
              end
            else None
        | EmptyString => None
        end
      else if Ascii.eqb c rbrace then None
      else
        match items s' with
        | Some (t :: ts, r) => Some (String c t :: ts, r)
        | _ => None
        end
  end.

Definition item_texts (ts : list string) : list string :=
  match ts with
  | [EmptyString] => []
  | _ => ts
  end.

(** [last_item s]: the text before the closing brace that ends [s]. *)
Fixpoint last_item (s : string) : option string :=
  match s with
  | EmptyString => None
  | String c s' =>
      if Ascii.eqb c rbrace then
        match s' with EmptyString => Some EmptyString | _ => None end
      else if is_delim c then None
      else option_map (String c) (last_item s')
  end.

(** A text that can stand as an item: not empty and free of the
    characters that end a number. *)
Fixpoint no_delim (s : string) : bool :=
  match s with
  | EmptyString => true
  | String c s' => negb (is_delim c) && no_delim s'
  end.

Definition clean (s : string) : bool :=
  match s with
  | EmptyString => false
  | String _ _ => no_delim s
  end.

(** Rows of three from a flat sequence. *)
Fixpoint rows3 {A} (l : list A) : option (list (A * A * A)) :=
  match l with
  | [] => Some []
  | x :: y :: z :: l' => option_map (cons (x, y, z)) (rows3 l')
  | _ => None
  end.

Definition int_of_text (t : string) : option Z :=
  option_map Z.of_int (NilZero.int_of_string t).

(** The invariant of section 3: every index of a triangle is a position
    in the vertex sequence. *)
Definition in_range (n : nat) (t : Z * Z * Z) : bool :=
  let '(a, b, c) := t in
  (0 <=? a) && (a <? Z.of_nat n) && (0 <=? b) && (b <? Z.of_nat n)
  && (0 <=? c) && (c <? Z.of_nat n).

Section Deserialize.
(** The reading of a decimal text as a double; like [float_repr], a
    function of the runtime, taken as given. *)
Variable float_parse : string -> option float.

Definition read (payload : bytes) : option (TriangleMesh * float) :=
  s1 ← expect text_open (string_of_list_byte payload);
  '(vtexts, s2) ← items s1;
  s3 ← expect text_triangles s2;
  '(ttexts, s4) ← items s3;
  s5 ← expect text_ts s4;
  tstext ← last_item s5;
  vs ← mapM float_parse (item_texts vtexts);
  ts ← mapM int_of_text (item_texts ttexts);
  t ← float_parse tstext;
  vrows ← rows3 vs;
  trows ← rows3 ts;
  if forallb (in_range (length vrows)) trows
  then Some (mkMesh vrows trows, t) else None.

(** Modelled from the spec: [deserialize(bytes) -> (mesh, captured_at)]
    (section 4.1), the inverse of the payload layout that [_pack_mesh]
    writes; it fails with [MalformedPayloadError] on a missing field, a
    value of the wrong type, or a triangle index out of range. The
    repository has no deserializer. *)
Definition deserialize (payload : bytes) : result (TriangleMesh * float) :=
  match read payload with
  | Some r => Ok r
  | None => MalformedPayloadError
  end.
End Deserialize.

(** A finite float that the two functions of the runtime carry through
    text unchanged: [float_repr] writes it as an item, which
    [float_parse] reads back as the same float. *)
Definition reads_back (float_repr : float -> string)
  (float_parse : string -> option float) (x : float) : Prop :=
  is_finite x = true /\ clean (float_repr x) = true
  /\ float_parse (float_repr x) = Some x.

(** The reading of the texts that [whole_float_repr] writes: a decimal
    integer followed by [.0]. *)
Definition whole_float_parse (t : string) : option float :=
  let n := String.length t in
  if String.eqb (substring (n - 2) 2 t) ".0" then
    match substring 0 (n - 2) t with
    | "-0" => Some (-0)%float
    | digits =>
        option_map (fun z => SF2Prim (binary_normalize 53 1024 z 0 false))
                   (int_of_text digits)
    end
  else None.

End Deserializer.


(** ** Vocabulary of the further statements on the transport *)

(** What no step of the send loop changes: the clock and the number of
    open sockets; the two logs only grow. *)
Definition kept (w0 : World) (o : nat) (w : World) : Prop :=
  w_time w = w_time w0 /\ w_open w = o /\
  (exists a, w_wire w = w_wire w0 ++ a) /\
  (exists b, w_tried w = w_tried w0 ++ b).

(** Printable ASCII: from the space to the tilde. *)
Definition printable (c : ascii) : bool :=
  let n := N_of_ascii c in (32 <=? n)%N && (n <=? 126)%N.

Fixpoint printable_text (s : string) : bool :=
  match s with
  | EmptyString => true
  | String c s' => printable c && printable_text s'
  end.

Local Infix "+:+" := String.append (at level 60, right associativity).

(** ** The desktop viewer (lines 42-552) *)

(** The rest of [main.py]: the two helpers that describe a model in
    words, [analyze_model] and [generate_description], and the class
    [App], the panel of the viewer. The objects of Open3D that the panel
    holds are modelled by what they keep: the scene by its named
    geometries, the list by its items, a checkbox by its state, a label
    by its text. What the panel shows or asks of the world beyond that
    (toasts, redraws, camera moves, spoken texts, files written) is kept
    in a log. What [print] writes is left out. *)
Module Viewer.

(** An exception, by the name of its class and its message ([str(e)]). *)
Inductive error : Type := Error (cls msg : string).

Definition error_str (e : error) : string := let 'Error _ msg := e in msg.

Inductive completion (A : Type) : Type :=
  | Done (a : A)
  | Raised (e : error).
Arguments Done {A} a.
Arguments Raised {A} e.

(** *** Numbers in words *)

(** [format(n, ",")] on an [int]: the decimal digits with a comma before
    every group of three counted from the right, after the sign. *)
Fixpoint group_thousands (digits : string) : string :=
  match digits with
  | EmptyString => EmptyString
  | String c rest =>
      let k := String.length rest in
      if (0 <? k)%nat && (k mod 3 =? 0)%nat
      then String c ("," +:+ group_thousands rest)
      else String c (group_thousands rest)
  end.

Definition format_comma (n : Z) : string :=
  if n <? 0 then "-" +:+ group_thousands (int_repr (- n))
  else group_thousands (int_repr n).

(** The integer nearest to [num / den], for [0 <= num] and [0 < den]; of
    two equally near the even one. *)
Definition round_half_even (num den : Z) : Z :=
  let q := num / den in
  let r := num mod den in
  if 2 * r <? den then q
  else if den <? 2 * r then q + 1
  else if Z.even q then q else q + 1.

(** A number of hundredths written with two digits after the point. *)
Definition fixed2 (negative : bool) (hundredths : Z) : string :=
  let cents := hundredths mod 100 in
  (if negative then "-" else EmptyString)
  +:+ int_repr (hundredths / 100) +:+ "."
  +:+ (if cents <? 10 then "0" else EmptyString) +:+ int_repr cents.

(** [format(x, ".2f")] on a [float]: the decimal with two digits after
    the point that is nearest to the exact value of [x], ties to even;
    the sign is kept also when the digits are all zero. *)
Definition format_2f (x : float) : string :=
  match Prim2SF x with
  | S754_nan => "nan"
  | S754_infinity s => if s then "-inf" else "inf"
  | S754_zero s => fixed2 s 0
  | S754_finite s m e =>
      fixed2 s (if 0 <=? e then Z.pos m * 2 ^ e * 100
                else round_half_even (Z.pos m * 100) (2 ^ (- e)))
  end.

(** [float(n)] on an [int]: the nearest double, ties to even;
    [OverflowError] beyond the range of a double. *)
Definition float_of_int (n : Z) : completion float :=
  let rounded (s : bool) (p : positive) :=
    match binary_round 53 1024 s p 0 with
    | S754_infinity _ =>
        Raised (Error "OverflowError" "int too large to convert to float")
    | r => Done (SF2Prim r)
    end in
  match n with
  | Z0 => Done 0%float
  | Zpos p => rounded false p
  | Zneg p => rounded true p
  end.

(** [int(x)] on a [float]: [x] without its fraction. *)
Definition int_of_float (x : float) : completion Z :=
  match Prim2SF x with
  | S754_nan => Raised (Error "ValueError" "cannot convert float NaN to integer")
  | S754_infinity _ =>
      Raised (Error "OverflowError" "cannot convert float infinity to integer")
  | S754_zero _ => Done 0
  | S754_finite s m e =>
      let n := if 0 <=? e then Z.pos m * 2 ^ e else Z.pos m / 2 ^ (- e) in
      Done (if s then - n else n)
  end.

(** A Python number that is an [int] or a [float]. *)
Inductive number : Type :=
  | Int (n : Z)
  | Float (x : float).

(** [format(v, ".2f")]: an [int] is converted to a [float] first. *)
Definition format_2f_number (v : number) : completion string :=
  match v with
  | Float x => Done (format_2f x)
  | Int n =>
      match float_of_int n with
      | Done x => Done (format_2f x)
      | Raised e => Raised e
      end
  end.

(** *** [analyze_model] (lines 42-65) and [generate_description] (68-92) *)

(** The dictionary [analyze_model] returns, by its keys. *)
Record Dimensions : Type := mkDimensions {
  width : float;
  height : float;
  depth : float
}.

Module Analysis.
Record t : Type := mk {
  name : string;
  vertices : Z;
  triangles : Z;
  dimensions : Dimensions;
  volume : number;
  surface_area : float;
  is_watertight : bool;
  center : list float
}.
End Analysis.

(** What [analyze_model] asks of Open3D about a mesh: the extent and the
    center of its axis-aligned bounding box, its volume, whether it is
    watertight, and its surface area. They are functions of the library,
    taken as given; [get_volume] may raise. *)
Record Geometry : Type := mkGeometry {
  get_extent : TriangleMesh -> float * float * float;
  get_center : TriangleMesh -> float * float * float;
  get_volume : TriangleMesh -> completion float;
  is_watertight : TriangleMesh -> bool;
  get_surface_area : TriangleMesh -> float
}.

Definition len {A} (l : list A) : Z := Z.of_nat (length l).

Definition analyze_model (o3d : Geometry) (mesh : TriangleMesh) (name : string)
  : completion Analysis.t :=
  let extent := get_extent o3d mesh in
  let center := get_center o3d mesh in
  let vertices := vertices mesh in
  let triangles := triangles mesh in
  match (if is_watertight o3d mesh then
           match get_volume o3d mesh with
           | Done v => Done (Float v)
           | Raised e => Raised e
           end
         else Done (Int 0)) with
  | Raised e => Raised e
  | Done volume =>
      Done (Analysis.mk name (len vertices) (len triangles)
              (mkDimensions extent.1.1 extent.1.2 extent.2)
              volume
              (get_surface_area o3d mesh)
              (is_watertight o3d mesh)
              [center.1.1; center.1.2; center.2])
  end.

Definition generate_description (analysis : Analysis.t) : completion string :=
  let name := Analysis.name analysis in
  let verts := Analysis.vertices analysis in
  let tris := Analysis.triangles analysis in
  let dims := Analysis.dimensions analysis in
  let description := "This is " +:+ name +:+ ". " in
  let description :=
    description +:+ "The model contains " +:+ format_comma verts
    +:+ " vertices and " +:+ format_comma tris +:+ " triangular faces. " in
  let description := description +:+ "Its dimensions are: " in
  let description :=
    description +:+ "width " +:+ format_2f (width dims) +:+ " units, " in
  let description :=
    description +:+ "height " +:+ format_2f (height dims) +:+ " units, " in
  let description :=
    description +:+ "and depth " +:+ format_2f (depth dims) +:+ " units. " in
  match (if Analysis.is_watertight analysis then
           let volume := Analysis.volume analysis in
           match format_2f_number volume with
           | Done text =>
               Done (description +:+ "This is a watertight solid with a volume of "
                     +:+ text +:+ " cubic units. ")
           | Raised e => Raised e
           end
         else Done (description +:+ "This is a surface model, not a solid. ")) with
  | Raised e => Raised e
  | Done description =>
      let area := Analysis.surface_area analysis in
      Done (description +:+ "The total surface area is " +:+ format_2f area
            +:+ " square units. ")
  end.


(** *** Paths and files *)

(** A [pathlib.Path] on a POSIX system, by its [parts]; the first part of
    an absolute path is the root. *)
Definition Path : Type := list string.

Definition is_root (part : string) : bool := String.eqb part "/".

(** [str(p)] *)
Definition path_str (p : Path) : string :=
  match p with
  | [] => "."
  | a :: rest =>
      if is_root a then "/" +:+ String.concat "/" rest
      else String.concat "/" p
  end.

(** [p / name], for a [name] of one part. *)
Definition path_div (p : Path) (name : string) : Path := p ++ [name].

(** [p.name]: the last part, unless it is the root. *)
Definition path_name (p : Path) : string :=
  match p with
  | [a] => if is_root a then EmptyString else a
  | _ => default EmptyString (last p)
  end.

(** [s.rfind(".")]: the index of the last dot of [s], or -1. *)
Fixpoint rfind_dot (s : string) : Z :=
  match s with
  | EmptyString => -1
  | String c rest =>
      let i := rfind_dot rest in
      if 0 <=? i then i + 1 else if Ascii.eqb c "." then 0 else -1
  end.

(** [p.suffix]: the name from its last dot on, provided that dot is
    neither the first nor the last character of the name. *)
Definition suffix_of (name : string) : string :=
  let i := rfind_dot name in
  if (0 <? i) && (i <? Z.of_nat (String.length name) - 1)
  then String.substring (Z.to_nat i) (String.length name - Z.to_nat i) name
  else EmptyString.

Definition path_suffix (p : Path) : string := suffix_of (path_name p).

(** [s.lower()], on the letters of ASCII. Lowering any other character
    gives no character of [SUPPORTED_EXTS]. *)
Definition lower_char (c : ascii) : ascii :=
  let n := N_of_ascii c in
  if (65 <=? n)%N && (n <=? 90)%N then ascii_of_N (n + 32) else c.

Fixpoint lower (s : string) : string :=
  match s with
  | EmptyString => EmptyString
  | String c rest => String (lower_char c) (lower rest)
  end.

(** The order of paths: that of their lists of parts, each part compared
    as a string. *)
Fixpoint path_leb (p q : Path) : bool :=
  match p, q with
  | [], _ => true
  | _ :: _, [] => false
  | a :: p', b :: q' =>
      match String.compare a b with
      | Lt => true
      | Gt => false
      | Eq => path_leb p' q'
      end
  end.

(** [sorted(paths)] *)
Definition sorted (paths : list Path) : list Path :=
  merge_sort (fun p q => Is_true (path_leb p q)) paths.

(** Lines 33-37. *)
Definition MODELS_DIR : Path := ["cad_files"].
Definition AR_IP_DEFAULT : string := "192.168.0.10".
Definition AR_PORT_DEFAULT : Z := 51234.
Definition UDP_CHUNK : Z := 60000.
Definition SUPPORTED_EXTS : list string := [".stl"; ".obj"].

(** [repr(s)] on a [str]: the text between single quotes, or between
    double quotes when it has a single quote and no double quote, with a
    backslash before the quote and the backslash, the escapes of the
    tab, the line feed and the carriage return, and [\xNN] for the other
    control characters. What is beyond ASCII stands for printable
    characters, which are kept. *)
Fixpoint has_char (c : ascii) (s : string) : bool :=
  match s with
  | EmptyString => false
  | String c' rest => Ascii.eqb c c' || has_char c rest
  end.

Definition repr_char (quote c : ascii) : string :=
  let n := N_of_ascii c in
  if Ascii.eqb c quote || (n =? 92)%N then esc (char c)
  else if (n =? 9)%N then esc "t"
  else if (n =? 10)%N then esc "n"
  else if (n =? 13)%N then esc "r"
  else if (n <? 32)%N || (n =? 127)%N then
    esc (String "x" (String (hex_digit (n / 16)) (char (hex_digit (n mod 16)))))
  else char c.

Fixpoint repr_chars (quote : ascii) (s : string) : string :=
  match s with
  | EmptyString => EmptyString
  | String c rest => repr_char quote c +:+ repr_chars quote rest
  end.

Definition str_repr (s : string) : string :=
  let quote := if has_char "'" s && negb (has_char dquote s)
               then dquote else "'"%char in
  String quote (repr_chars quote s +:+ char quote).

(** [str(e)] for the [NotADirectoryError] that listing [p] raises. *)
Definition not_a_directory (p : Path) : string :=
  "[Errno 20] Not a directory: " +:+ str_repr (path_str p).

(** What is at a path: nothing, something that is not a directory, or a
    directory with its entries, in the order the system lists them. *)
Inductive fs_entry : Type :=
  | Missing
  | File
  | Dir (names : list string).

(** *** The panel and its world *)

Inductive CullMode : Type := NONE | BACK.

(** A [rendering.MaterialRecord], by the attributes the panel assigns;
    [None] stands for one it could not assign. *)
Record MaterialRecord : Type := mkMaterial {
  shader : string;
  mat_double_sided : option bool;
  cull_mode : option CullMode
}.

Inductive effect : Type :=
  | Toast (msg : string)            (** [post_toast(window, msg, 1.5)] *)
  | Redraw                          (** [window.post_redraw()] *)
  | SetupCamera (on_scene : bool)   (** [scene_w.setup_camera], on the
                                        bounds of the scene or the default *)
  | ShowDialog                      (** [window.show_dialog] *)
  | CloseDialog                     (** [window.close_dialog] *)
  | OpenPreview (mesh : TriangleMesh)  (** the window of the preview *)
  | Say (text : string)             (** a thread started to speak [text] *)
  | MakeDirs (dir : string)         (** a directory made, or found there *)
  | WriteImage (file : string).     (** [o3d.io.write_image] *)

(** What the panel depends on and does not decide: the libraries it
    runs with, which stay the same while it runs, and the world around
    it, which may change from one event to the next. *)
Record Lib : Type := mkLib {
  o3d : Geometry;
  has_post_redraw : bool;    (** [hasattr(self.window, "post_redraw")] *)
  has_double_sided : bool;   (** [m.double_sided] can be assigned *)
  has_cull_mode : bool;      (** [m.cull_mode] can be assigned *)
  tts_ok : bool;             (** [pyttsx3] is there and starts *)
  KeyName_DELETE : Z         (** [gui.KeyName.DELETE] *)
}.

Record Env : Type := mkEnv {
  fs : Path -> fs_entry;
  read_triangle_mesh : string -> completion (option TriangleMesh);
  mkdir : Path -> completion unit;  (** [mkdir(parents=True, exist_ok=True)] *)
  rendered : bool;           (** [_screenshot_current_scene] gets an image *)
  now : float                (** [time.time()] *)
}.

(** The object [self]: its attributes, and what its widgets hold. *)
Record App : Type := mkApp {
  (** [self.models_dir] *)
  models_dir : Path;
  (** [self.entries] *)
  entries : gmap string Path;
  (** [self.loaded] *)
  loaded : gmap string TriangleMesh;
  (** [self.selected] *)
  selected : option string;
  (** [self.show_axes] *)
  show_axes : bool;
  (** [self.double_sided] *)
  double_sided : bool;
  (** [self.tts_engine] is not [None] *)
  tts_engine : bool;
  (** [self.tts_thread], and whether it is alive *)
  tts_thread : option bool;
  (** the items of [self.list] *)
  list_items : list string;
  (** [self.scene], by name *)
  scene : gmap string (TriangleMesh * MaterialRecord);
  (** whether [self.scene] shows its axes *)
  scene_axes : bool;
  (** [self.chk_axes.checked] *)
  chk_axes : bool;
  (** [self.chk_ds.checked] *)
  chk_ds : bool;
  (** [self.stats.text] *)
  stats : string;
  (** [self.folder_label.text] *)
  folder_label : string;
  (** what the panel did, oldest first *)
  log : list effect
}.

(** An assignment to each of them. *)
Definition set_models_dir (v : Path) (s : App) : App :=
  mkApp v (entries s) (loaded s) (selected s) (show_axes s) (double_sided s)
    (tts_engine s) (tts_thread s) (list_items s) (scene s) (scene_axes s)
    (chk_axes s) (chk_ds s) (stats s) (folder_label s) (log s).

Definition set_entries (v : gmap string Path) (s : App) : App :=
  mkApp (models_dir s) v (loaded s) (selected s) (show_axes s)
    (double_sided s) (tts_engine s) (tts_thread s) (list_items s) (scene s)
    (scene_axes s) (chk_axes s) (chk_ds s) (stats s) (folder_label s) (log s).

Definition set_loaded (v : gmap string TriangleMesh) (s : App) : App :=
  mkApp (models_dir s) (entries s) v (selected s) (show_axes s)
    (double_sided s) (tts_engine s) (tts_thread s) (list_items s) (scene s)
    (scene_axes s) (chk_axes s) (chk_ds s) (stats s) (folder_label s) (log s).

Definition set_selected (v : option string) (s : App) : App :=
  mkApp (models_dir s) (entries s) (loaded s) v (show_axes s) (double_sided s)
    (tts_engine s) (tts_thread s) (list_items s) (scene s) (scene_axes s)
    (chk_axes s) (chk_ds s) (stats s) (folder_label s) (log s).

Definition set_show_axes (v : bool) (s : App) : App :=
  mkApp (models_dir s) (entries s) (loaded s) (selected s) v (double_sided s)
    (tts_engine s) (tts_thread s) (list_items s) (scene s) (scene_axes s)
    (chk_axes s) (chk_ds s) (stats s) (folder_label s) (log s).

Definition set_double_sided (v : bool) (s : App) : App :=
  mkApp (models_dir s) (entries s) (loaded s) (selected s) (show_axes s) v
    (tts_engine s) (tts_thread s) (list_items s) (scene s) (scene_axes s)
    (chk_axes s) (chk_ds s) (stats s) (folder_label s) (log s).

Definition set_tts_engine (v : bool) (s : App) : App :=
  mkApp (models_dir s) (entries s) (loaded s) (selected s) (show_axes s)
    (double_sided s) v (tts_thread s) (list_items s) (scene s) (scene_axes s)
    (chk_axes s) (chk_ds s) (stats s) (folder_label s) (log s).

Definition set_tts_thread (v : option bool) (s : App) : App :=
  mkApp (models_dir s) (entries s) (loaded s) (selected s) (show_axes s)
    (double_sided s) (tts_engine s) v (list_items s) (scene s) (scene_axes s)
    (chk_axes s) (chk_ds s) (stats s) (folder_label s) (log s).

Definition set_list_items (v : list string) (s : App) : App :=
  mkApp (models_dir s) (entries s) (loaded s) (selected s) (show_axes s)
    (double_sided s) (tts_engine s) (tts_thread s) v (scene s) (scene_axes s)
    (chk_axes s) (chk_ds s) (stats s) (folder_label s) (log s).

Definition set_scene (v : gmap string (TriangleMesh * MaterialRecord))
    (s : App) : App :=
  mkApp (models_dir s) (entries s) (loaded s) (selected s) (show_axes s)
    (double_sided s) (tts_engine s) (tts_thread s) (list_items s) v
    (scene_axes s) (chk_axes s) (chk_ds s) (stats s) (folder_label s) (log s).

Definition set_scene_axes (v : bool) (s : App) : App :=
  mkApp (models_dir s) (entries s) (loaded s) (selected s) (show_axes s)
    (double_sided s) (tts_engine s) (tts_thread s) (list_items s) (scene s) v
    (chk_axes s) (chk_ds s) (stats s) (folder_label s) (log s).

Definition set_chk_axes (v : bool) (s : App) : App :=
  mkApp (models_dir s) (entries s) (loaded s) (selected s) (show_axes s)
    (double_sided s) (tts_engine s) (tts_thread s) (list_items s) (scene s)
    (scene_axes s) v (chk_ds s) (stats s) (folder_label s) (log s).

Definition set_chk_ds (v : bool) (s : App) : App :=
  mkApp (models_dir s) (entries s) (loaded s) (selected s) (show_axes s)
    (double_sided s) (tts_engine s) (tts_thread s) (list_items s) (scene s)
    (scene_axes s) (chk_axes s) v (stats s) (folder_label s) (log s).

Definition set_stats (v : string) (s : App) : App :=
  mkApp (models_dir s) (entries s) (loaded s) (selected s) (show_axes s)
    (double_sided s) (tts_engine s) (tts_thread s) (list_items s) (scene s)
    (scene_axes s) (chk_axes s) (chk_ds s) v (folder_label s) (log s).

Definition set_folder_label (v : string) (s : App) : App :=
  mkApp (models_dir s) (entries s) (loaded s) (selected s) (show_axes s)
    (double_sided s) (tts_engine s) (tts_thread s) (list_items s) (scene s)
    (scene_axes s) (chk_axes s) (chk_ds s) (stats s) v (log s).

Definition set_log (v : list effect) (s : App) : App :=
  mkApp (models_dir s) (entries s) (loaded s) (selected s) (show_axes s)
    (double_sided s) (tts_engine s) (tts_thread s) (list_items s) (scene s)
    (scene_axes s) (chk_axes s) (chk_ds s) (stats s) (folder_label s) v.

(** Methods of [App]: they read and change the state and may raise. *)
Definition G (A : Type) : Type := App -> completion A * App.

Definition pure {A} (a : A) : G A := fun s => (Done a, s).

Definition and_then {A B} (m : G A) (k : A -> G B) : G B :=
  fun s => match m s with
           | (Done a, s') => k a s'
           | (Raised e, s') => (Raised e, s')
           end.

Definition raise {A} (e : error) : G A := fun s => (Raised e, s).

Definition eval {A} (r : completion A) : G A := fun s => (r, s).

Definition get : G App := fun s => (Done s, s).

Definition modify (f : App -> App) : G unit := fun s => (Done tt, f s).

Definition do (e : effect) : G unit :=
  modify (fun s => set_log (log s ++ [e]) s).

Declare Scope gui_scope.
Delimit Scope gui_scope with gui.
Notation "x <- c1 ;; c2" := (and_then c1 (fun x => c2))
  (at level 100, c1 at next level, right associativity) : gui_scope.
Notation "c1 ;; c2" := (and_then c1 (fun _ => c2))
  (at level 100, right associativity) : gui_scope.

(** [for x in xs: body(x)] *)
Fixpoint for_in {A} (xs : list A) (body : A -> G unit) : G unit :=
  match xs with
  | [] => pure tt
  | x :: xs' => (body x ;; for_in xs' body)%gui
  end.

(** [[f(x) for x in xs]] *)
Fixpoint for_list {A B} (xs : list A) (f : A -> G B) : G (list B) :=
  match xs with
  | [] => pure []
  | x :: xs' => (y <- f x ;; ys <- for_list xs' f ;; pure (y :: ys))%gui
  end.

(** [try: m except Exception as e: handler(e)] *)
Definition try_except {A} (m : G A) (handler : error -> G A) : G A :=
  fun s => match m s with
           | (Done a, s') => (Done a, s')
           | (Raised e, s') => handler e s'
           end.

(** [k in d] and [d[k]] on a dictionary. *)
Definition contains {V} (d : gmap string V) (k : string) : bool :=
  bool_decide (is_Some (d !! k)).

Definition getitem {V} (d : gmap string V) (k : string) : G V :=
  match d !! k with
  | Some v => pure v
  | None => raise (Error "KeyError" k)
  end.

(** The scene: [get_geometry_names], in an order of its own,
    [remove_geometry], [add_geometry], [modify_geometry_material]. *)
Definition get_geometry_names (s : App) : list string :=
  (map_to_list (scene s)).*1.

Definition remove_geometry (name : string) (s : App) : App :=
  set_scene (delete name (scene s)) s.

Definition add_geometry (name : string) (mesh : TriangleMesh)
    (mat : MaterialRecord) (s : App) : App :=
  set_scene (<[name := (mesh, mat)]> (scene s)) s.

Definition modify_geometry_material (name : string) (mat : MaterialRecord)
    (s : App) : App :=
  set_scene (alter (fun g => (g.1, mat)) name (scene s)) s.

(** [out += m] on triangle meshes: the vertices of [m] after those of
    [out], and its triangles after those of [out], their indices shifted
    by the number of vertices [out] had; nothing for an [m] without
    vertices. *)
Definition mesh_add (out m : TriangleMesh) : TriangleMesh :=
  match vertices m with
  | [] => out
  | _ =>
      let shift := len (vertices out) in
      mkMesh (vertices out ++ vertices m)
             (triangles out
              ++ ((fun '(a, b, c) => (a + shift, b + shift, c + shift))
                    <$> triangles m))
  end.

Definition newline : string := String (ascii_of_N 10) EmptyString.

(** [not self.selected]: nothing is selected, or a name without
    characters; and the name selected. *)
Definition nothing_selected (s : App) : bool :=
  match selected s with
  | None => true
  | Some sel => String.eqb sel EmptyString
  end.

Definition the_selected (s : App) : string := default "None" (selected s).

Definition ord (c : ascii) : Z := Z.of_N (N_of_ascii c).

Inductive KeyEventType : Type := DOWN | UP.

Record KeyEvent : Type := mkKeyEvent {
  type : KeyEventType;
  key : Z
}.

Inductive EventCallbackResult : Type := IGNORED | HANDLED | CONSUMED.

Section Methods.
Variable lib : Lib.
Variable env : Env.

(** Lines 551-552. *)
Definition _toast (msg : string) : G unit := do (Toast msg).

(** Lines 229-232. *)
Definition _redraw : G unit :=
  if has_post_redraw lib then do Redraw else pure tt.

(** Lines 250-251. *)
Definition _folder_text : G string :=
  (s <- get ;;
   pure ("Folder:" +:+ newline +:+ path_str (models_dir s)))%gui.

(** Lines 253-268. *)
Definition _material : G MaterialRecord :=
  (s <- get ;;
   pure (mkMaterial "defaultLit"
          (if has_double_sided lib then Some (double_sided s) else None)
          (if has_cull_mode lib
           then Some (if double_sided s then NONE else BACK)
           else None)))%gui.

(** Lines 271-278. *)
Definition _scan : G (list string) :=
  (s <- get ;;
   match fs env (models_dir s) with
   | Missing => pure []
   | File => raise (Error "NotADirectoryError" (not_a_directory (models_dir s)))
   | Dir names =>
       pure (path_name
              <$> filter (fun p => lower (path_suffix p) ∈ SUPPORTED_EXTS)
                    (sorted (path_div (models_dir s) <$> names)))
   end)%gui.

(** Lines 280-285. *)
Definition refresh_list : G unit :=
  (items <- _scan ;;
   modify (set_list_items items) ;;
   s <- get ;;
   modify (set_entries
             (foldl (fun d name => <[name := path_div (models_dir s) name]> d)
                    ∅ items)) ;;
   text <- _folder_text ;;
   modify (set_folder_label text) ;;
   _redraw)%gui.

(** Lines 287-290. *)
Definition _on_select (idx : Z) : G unit :=
  (s <- get ;;
   let items := list_items s in
   if (0 <=? idx) && (idx <? len items) then
     match items !! Z.to_nat idx with
     | Some item => modify (set_selected (Some item))
     | None => raise (Error "IndexError" "list index out of range")
     end
   else pure tt)%gui.

(** Lines 292-304: the dialog is shown; [_on_cancel] and [_ok] are what
    it calls when it is left. *)
Definition _choose_folder : G unit := do ShowDialog.

Definition _on_cancel : G unit := do CloseDialog.

Definition _ok (path : Path) : G unit :=
  (do CloseDialog ;;
   modify (set_models_dir path) ;;
   modify (set_loaded ∅) ;;
   modify (set_selected None) ;;
   refresh_list)%gui.

(** Lines 307-316. [compute_vertex_normals] changes neither the vertices
    nor the triangles. *)
Definition _load_mesh (path : Path) : G (option TriangleMesh) :=
  try_except
    (mesh <- eval (read_triangle_mesh env (path_str path)) ;;
     match mesh with
     | None => raise (Error "ValueError" "Empty/invalid mesh")
     | Some m =>
         if len (triangles m) =? 0
         then raise (Error "ValueError" "Empty/invalid mesh")
         else pure (Some m)
     end)%gui
    (fun e =>
       _toast ("Failed to load: " +:+ path_name path +:+ newline
               +:+ error_str e) ;;
       pure None)%gui.

(** Lines 318-322. *)
Definition _add_geom (name : string) (mesh : TriangleMesh) : G unit :=
  (s <- get ;;
   (if bool_decide (name ∈ get_geometry_names s)
    then modify (remove_geometry name) else pure tt) ;;
   mat <- _material ;;
   modify (add_geometry name mesh mat) ;;
   _redraw)%gui.

(** Lines 370-376. *)
Definition _frame_scene : G unit := do (SetupCamera true).
Definition _frame_default : G unit := do (SetupCamera false).

(** Lines 378-385. *)
Definition _update_stats : G unit :=
  (s <- get ;;
   let '(v, t) :=
     foldl (fun '(v, t) name =>
              match loaded s !! name with
              | Some m => (v + len (vertices m), t + len (triangles m))
              | None => (v, t)
              end) (0, 0) (get_geometry_names s) in
   modify (set_stats ("Stats: Verts=" +:+ format_comma v +:+ "  Tris="
                      +:+ format_comma t)))%gui.

(** Lines 324-341. *)
Definition display_selected : G unit :=
  (s <- get ;;
   if nothing_selected s then _toast "Select a model first"
   else
     for_in (get_geometry_names s) (fun g => modify (remove_geometry g)) ;;
     s <- get ;;
     modify (set_scene_axes (show_axes s)) ;;
     match entries s !! the_selected s with
     | None => pure tt
     | Some p =>
         mesh <- _load_mesh p ;;
         match mesh with
         | None => pure tt
         | Some mesh =>
             modify (set_loaded {[ the_selected s := mesh ]}) ;;
             _add_geom (the_selected s) mesh ;;
             _frame_scene ;;
             _update_stats ;;
             _toast ("Displayed " +:+ the_selected s)
         end
     end)%gui.

(** Lines 343-359. *)
Definition add_selected : G unit :=
  (s <- get ;;
   if nothing_selected s then _toast "Select a model first"
   else
     match entries s !! the_selected s with
     | None => pure tt
     | Some p =>
         let finish (mesh : TriangleMesh) :=
           (_add_geom (the_selected s) mesh ;;
            _frame_scene ;;
            _update_stats ;;
            _toast ("Added " +:+ the_selected s)) in
         match loaded s !! the_selected s with
         | Some mesh => finish mesh
         | None =>
             mesh <- _load_mesh p ;;
             match mesh with
             | None => pure tt
             | Some mesh =>
                 modify (fun s' => set_loaded
                           (<[the_selected s := mesh]> (loaded s')) s') ;;
                 finish mesh
             end
         end
     end)%gui.

(** Lines 361-368. *)
Definition remove_selected : G unit :=
  (s <- get ;;
   if nothing_selected s then pure tt
   else
     (if bool_decide (the_selected s ∈ get_geometry_names s)
      then modify (remove_geometry (the_selected s)) else pure tt) ;;
     modify (fun s' => set_loaded (delete (the_selected s) (loaded s')) s') ;;
     _update_stats ;;
     _redraw)%gui.

(** Lines 388-396. [compute_vertex_normals] changes neither the vertices
    nor the triangles. *)
Definition _merge : G (option TriangleMesh) :=
  (s <- get ;;
   meshes <- for_list (filter (fun n => contains (loaded s) n = true)
                         (get_geometry_names s))
               (fun n => getitem (loaded s) n) ;;
   match meshes with
   | [] => pure None
   | _ => pure (Some (foldl mesh_add (mkMesh [] []) meshes))
   end)%gui.

(** Lines 399-436. *)
Definition virtual_ar_preview : G unit :=
  (mesh <- _merge ;;
   match mesh with
   | None => _toast "No models to preview"
   | Some mesh =>
       do (OpenPreview mesh) ;;
       _toast "Virtual AR Preview opened"
   end)%gui.

(** Lines 439-442. *)
Definition _set_axes (on : bool) : G unit :=
  (modify (set_show_axes on) ;;
   modify (set_scene_axes on) ;;
   _redraw)%gui.

(** Lines 444-449. *)
Definition _set_double_sided (on : bool) : G unit :=
  (modify (set_double_sided on) ;;
   s <- get ;;
   for_in (get_geometry_names s) (fun name =>
     s' <- get ;;
     if contains (loaded s') name then
       mat <- _material ;;
       modify (modify_geometry_material name mat)
     else pure tt) ;;
   _redraw)%gui.

(** Lines 451-460, with lines 234-247 reduced to whether an image is
    obtained. *)
Definition _screenshot : G unit :=
  (let out : Path := ["screenshots"] in
   eval (mkdir env out) ;;
   do (MakeDirs (path_str out)) ;;
   seconds <- eval (int_of_float (now env)) ;;
   let fn := path_div out ("shot_" +:+ int_repr seconds +:+ ".png") in
   if rendered env then
     do (WriteImage (path_str fn)) ;;
     _toast ("Saved " +:+ path_str fn)
   else _toast "Screenshot failed")%gui.

(** Lines 486-504. The thread says the text and ends. *)
Definition _speak (text : string) : G unit :=
  (s <- get ;;
   if negb (tts_engine s) then _toast "TTS not available"
   else if match tts_thread s with Some alive => alive | None => false end
   then _toast "Voice-over already playing..."
   else
     modify (set_tts_thread (Some true)) ;;
     do (Say text))%gui.

(** Lines 506-521. *)
Definition describe_model : G unit :=
  (s <- get ;;
   if nothing_selected s then _toast "Select a model first"
   else if negb (contains (loaded s) (the_selected s))
   then _toast "Model not loaded yet"
   else
     mesh <- getitem (loaded s) (the_selected s) ;;
     analysis <- eval (analyze_model (o3d lib) mesh (the_selected s)) ;;
     description <- eval (generate_description analysis) ;;
     _toast ("Describing " +:+ the_selected s +:+ "...") ;;
     _speak description)%gui.

(** Lines 523-549. *)
Definition describe_scene : G unit :=
  (s <- get ;;
   let geom_names := filter (fun n => contains (loaded s) n = true)
                       (get_geometry_names s) in
   match geom_names with
   | [] => _toast "No models in scene"
   | [_] => describe_model
   | _ =>
       let first := "This scene contains " +:+ int_repr (len geom_names)
                    +:+ " models. " in
       rest <- for_list geom_names (fun name =>
         mesh <- getitem (loaded s) name ;;
         analysis <- eval (analyze_model (o3d lib) mesh name) ;;
         let dims := Analysis.dimensions analysis in
         let desc := name +:+ " has "
                     +:+ format_comma (Analysis.vertices analysis)
                     +:+ " vertices, " in
         let desc := desc +:+ format_comma (Analysis.triangles analysis)
                     +:+ " faces, " in
         let desc := desc +:+ "and dimensions of "
                     +:+ format_2f (width dims) +:+ " by " in
         let desc := desc +:+ format_2f (height dims) +:+ " by "
                     +:+ format_2f (depth dims) +:+ " units. " in
         pure desc) ;;
       let full_description := String.concat " " (first :: rest) in
       _toast ("Describing " +:+ int_repr (len geom_names) +:+ " models...") ;;
       _speak full_description
   end)%gui.

(** Lines 462-483. *)
Definition _on_key (ev : KeyEvent) : G EventCallbackResult :=
  (match type ev with
   | UP => pure IGNORED
   | DOWN =>
       let k := key ev in
       if bool_decide (k ∈ [ord "B"; ord "b"]) then
         modify (fun s => set_chk_ds (negb (chk_ds s)) s) ;;
         s <- get ;;
         _set_double_sided (chk_ds s) ;;
         pure HANDLED
       else if bool_decide (k ∈ [ord "L"; ord "l"]) then
         modify (fun s => set_chk_axes (negb (chk_axes s)) s) ;;
         s <- get ;;
         _set_axes (chk_axes s) ;;
         pure HANDLED
       else if bool_decide (k ∈ [ord "R"; ord "r"]) then
         _frame_scene ;;
         pure HANDLED
       else if bool_decide (k ∈ [ord "S"; ord "s"]) then
         _screenshot ;;
         pure HANDLED
       else if k =? KeyName_DELETE lib then
         remove_selected ;;
         pure HANDLED
       else pure IGNORED
   end)%gui.

(** Lines 96-226: the state after the assignments and the widgets made,
    and the calls of lines 222-226. *)
Definition fresh : App :=
  mkApp MODELS_DIR ∅ ∅ None true true (tts_ok lib) None
          [] ∅ false true true
          ("Stats: " +:+ String (ascii_of_N 226) (String (ascii_of_N 128)
                           (String (ascii_of_N 148) EmptyString)))
          ("Folder:" +:+ newline +:+ path_str MODELS_DIR) [].

Definition __init__ : G unit :=
  (s <- get ;;
   modify (set_scene_axes (show_axes s)) ;;
   _frame_default ;;
   refresh_list)%gui.

(** What happens to the panel: a button is clicked, the dialog is left,
    an item of the list is selected, a checkbox is clicked, a key is
    pressed or released, the voice finishes. A click on a checkbox
    changes its state before the callback runs. *)
Inductive Event : Type :=
  | ChooseFolder
  | DialogCancel
  | DialogDone (path : Path)
  | RefreshList
  | Select (idx : Z)
  | DisplayModel
  | AddToScene
  | RemoveSelected
  | Preview
  | DescribeModel
  | DescribeScene
  | ClickAxes
  | ClickDoubleSided
  | Key (ev : KeyEvent)
  | VoiceEnds.

Definition handle (ev : Event) : G unit :=
  (match ev with
   | ChooseFolder => _choose_folder
   | DialogCancel => _on_cancel
   | DialogDone path => _ok path
   | RefreshList => refresh_list
   | Select idx => _on_select idx
   | DisplayModel => display_selected
   | AddToScene => add_selected
   | RemoveSelected => remove_selected
   | Preview => virtual_ar_preview
   | DescribeModel => describe_model
   | DescribeScene => describe_scene
   | ClickAxes =>
       modify (fun s => set_chk_axes (negb (chk_axes s)) s) ;;
       s <- get ;;
       _set_axes (chk_axes s)
   | ClickDoubleSided =>
       modify (fun s => set_chk_ds (negb (chk_ds s)) s) ;;
       s <- get ;;
       _set_double_sided (chk_ds s)
   | Key ev => _on_key ev ;; pure tt
   | VoiceEnds =>
       modify (fun s => set_tts_thread
                 (match tts_thread s with
                  | Some _ => Some false
                  | None => None
                  end) s)
   end)%gui.

End Methods.

(** The states the panel can be in: the one its construction leaves, and
    those that events lead to, in a world that may change between them;
    a method that raises leaves the state it had reached. *)
Inductive reachable (lib : Lib) : App -> Prop :=
  | reachable_init (env : Env) :
      reachable lib (snd (__init__ lib env (fresh lib)))
  | reachable_step (env : Env) (ev : Event) (s : App) :
      reachable lib s -> reachable lib (snd (handle lib env ev s)).

(** *** Vocabulary of the statements on the viewer *)

(** A text without its commas. *)
Fixpoint remove_commas (s : string) : string :=
  match s with
  | EmptyString => EmptyString
  | String c rest =>
      if Ascii.eqb c "," then remove_commas rest
      else String c (remove_commas rest)
  end.

(** A file name the viewer lists: its extension, whatever the case of
    its letters, is one of [SUPPORTED_EXTS]. *)
Definition supported (name : string) : Prop :=
  lower (suffix_of name) ∈ SUPPORTED_EXTS.

#[global] Instance supported_dec (name : string) : Decision (supported name) :=
  list_elem_of_dec (lower (suffix_of name)) SUPPORTED_EXTS.

(** The material [_material] makes for a setting of [double_sided]. *)
Definition material_for (lib : Lib) (ds : bool) : MaterialRecord :=
  mkMaterial "defaultLit"
    (if has_double_sided lib then Some ds else None)
    (if has_cull_mode lib
     then Some (if ds then NONE else BACK) else None).

(** A state with more in its log, and what [_redraw] adds to it. *)
Definition logged (evs : list effect) (s : App) : App :=
  set_log (log s ++ evs) s.

Definition redraws (lib : Lib) : list effect :=
  if has_post_redraw lib then [Redraw] else [].

(** The loaded meshes of the geometries in the scene, which the
    statistics count and the preview merges; their vertices and
    triangles taken together. *)
Definition shown (s : App) : list TriangleMesh :=
  omap (fun name => loaded s !! name) (get_geometry_names s).

Definition count_vertices (meshes : list TriangleMesh) : Z :=
  Z.of_nat (length (meshes ≫= vertices)).

Definition count_triangles (meshes : list TriangleMesh) : Z :=
  Z.of_nat (length (meshes ≫= triangles)).

(** The text of the statistics for given counts (line 385). *)
Definition stats_text (v t : Z) : string :=
  "Stats: Verts=" +:+ format_comma v +:+ "  Tris="
  +:+ format_comma t.

(** The entries [refresh_list] makes for the items of a folder. *)
Definition entries_of (dir : Path) (items : list string)
  : gmap string Path :=
  foldl (fun d name => <[name := path_div dir name]> d) ∅ items.

(** The scene after [_set_double_sided]: the geometries that are loaded
    have the new material. *)
Definition rematerial (lib : Lib) (on : bool)
    (loaded : gmap string TriangleMesh)
    (scene : gmap string (TriangleMesh * MaterialRecord))
  : gmap string (TriangleMesh * MaterialRecord) :=
  map_imap (fun name g =>
              Some (if contains loaded name
                    then (g.1, material_for lib on) else g)) scene.

(** What [_load_mesh] obtains for a path: a mesh with a triangle, or the
    message of the toast. *)
Definition loading (env : Env) (path : Path) : TriangleMesh + string :=
  let failed (why : string) :=
    inr ("Failed to load: " +:+ path_name path +:+ newline +:+ why) in
  match read_triangle_mesh env (path_str path) with
  | Done (Some m) =>
      match triangles m with
      | [] => failed "Empty/invalid mesh"
      | _ => inl m
      end
  | Done None => failed "Empty/invalid mesh"
  | Raised e => failed (error_str e)
  end.

(** The state after a mesh is put in the scene under a name, the camera
    framed, the statistics updated and a toast shown (lines 338-341 and
    356-359). *)
Definition placed (lib : Lib) (name : string) (mesh : TriangleMesh)
    (said : string) (s : App) : App :=
  let s1 := set_scene
              (<[name := (mesh, material_for lib (double_sided s))]>
                 (scene s)) s in
  logged (redraws lib ++ [SetupCamera true; Toast said])
    (set_stats
       (stats_text (count_vertices (shown s1)) (count_triangles (shown s1))) s1).

(** A mesh whose triangles index its own vertices. *)
Definition well_indexed (m : TriangleMesh) : Prop :=
  let n := Z.of_nat (length (vertices m)) in
  Forall (fun '(a, b, c) => 0 <= a < n /\ 0 <= b < n /\ 0 <= c < n)
         (triangles m).

(** What a method adds to the log. *)
Definition new_log {A} (m : G A) (s : App) : list effect :=
  drop (length (log s)) (log (snd (m s))).

Definition is_say (e : effect) : bool :=
  match e with
  | Say _ => true
  | _ => false
  end.

Fixpoint no_comma (s : string) : bool :=
  match s with
  | EmptyString => true
  | String c rest => negb (Ascii.eqb c ",") && no_comma rest
  end.

(** [preserves f m]: running [m] does not change [f] of the state. *)
Definition preserves {A T} (f : App -> T) (m : G A) : Prop :=
  forall s, f (snd (m s)) = f s.

(** Everything of the state but the log and the thread of the voice. *)
Definition panel_of (s : App) :=
  (models_dir s, entries s, loaded s, selected s, show_axes s, double_sided s,
   tts_engine s, list_items s, scene s, scene_axes s, chk_axes s, chk_ds s,
   stats s, folder_label s).

(** What holds of every state the panel reaches. *)
Definition Inv (lib : Lib) (s : App) : Prop :=
  ((forall name, name ∈ list_items s <-> is_Some (entries s !! name)) /\
   (forall name p, entries s !! name = Some p -> path_name p = name)) /\
  Forall supported (list_items s) /\
  (show_axes s = chk_axes s /\ scene_axes s = show_axes s
   /\ double_sided s = chk_ds s) /\
  (forall name m, loaded s !! name = Some m -> triangles m <> []) /\
  (forall name g mat m,
     scene s !! name = Some (g, mat) -> loaded s !! name = Some m ->
     g = m /\ mat = material_for lib (double_sided s)) /\
  (selected s = None -> loaded s = ∅) /\
  (forall sel, selected s = Some sel -> supported sel).

(** What a method that only reports does: it returns, and adds to the
    log; while a voice is alive it adds no spoken text. *)
Definition reports (m : G unit) (s : App) : Prop :=
  match m s with
  | (Done _, s') =>
      exists evs,
        log s' = log s ++ evs /\
        (tts_thread s = Some true -> Forall (fun e => is_say e = false) evs)
  | (Raised _, _) => False
  end.

(** *** Inputs used in the examples of the viewer *)

(** A library that, like Open3D on an open surface, calls no mesh
    watertight and raises when asked for a volume. *)
Definition open_geometry : Geometry :=
  mkGeometry
    (fun _ => (1, 1, 0)%float) (fun _ => (0.5, 0.5, 0)%float)
    (fun _ => Raised (Error "RuntimeError" "not watertight"))
    (fun _ => false) (fun _ => 1%float).

(** A library that calls a mesh watertight when it has at least four
    triangles, and gives a volume for those meshes only. *)
Definition solid_geometry : Geometry :=
  mkGeometry
    (fun _ => (1, 1, 1)%float) (fun _ => (0.5, 0.5, 0.5)%float)
    (fun m => if (4 <=? len (triangles m))
              then Done 1%float
              else Raised (Error "RuntimeError" "not watertight"))
    (fun m => 4 <=? len (triangles m)) (fun _ => 6%float).

Definition lib0 : Lib := mkLib open_geometry true true true true 127.

(** The same library with [solid_geometry]. *)
Definition lib1 : Lib := mkLib solid_geometry true true true true 127.

(** A folder with the unit square in [a.OBJ], a file [b.stl] that cannot
    be read, and two files that are not listed. *)
Definition env0 : Env :=
  mkEnv
    (fun p => if decide (p = MODELS_DIR)
              then Dir ["b.stl"; "notes.txt"; "a.OBJ"; ".stl"]
              else Missing)
    (fun file => if String.eqb file "cad_files/a.OBJ"
                 then Done (Some square)
                 else Raised (Error "RuntimeError" "cannot read"))
    (fun _ => Done tt) true 1700000000%float.

(** The panel as constructed, and after a sequence of events. *)
Definition panel0 : App :=
  snd (__init__ lib0 env0 (fresh lib0)).

Definition after (events : list Event) : App :=
  foldl (fun s ev => snd (handle lib0 env0 ev s)) panel0 events.

End Viewer.

(** * Properties *)

(** ** Arithmetic of the fragment count *)

Lemma ceil_div_code (L C : Z) : 1 <= C -> (L + C - 1) / C = ceil_div L C.
Proof.
  intros HC. unfold ceil_div.
  pose proof (Z.div_mod L C ltac:(lia)) as Hdm.
  pose proof (Z.mod_pos_bound L C ltac:(lia)) as Hm.
  destruct (Z.eqb_spec (L mod C) 0) as [H0 | H0].
  - symmetry. apply (Z.div_unique _ _ _ (C - 1)); lia.
  - symmetry. apply (Z.div_unique _ _ _ (L mod C - 1)); lia.
Qed.

Lemma ceil_div_bounds (L C : Z) :
  1 <= C -> (ceil_div L C - 1) * C < L <= ceil_div L C * C.
Proof.
  intros HC. unfold ceil_div.
  pose proof (Z.div_mod L C ltac:(lia)) as Hdm.
  pose proof (Z.mod_pos_bound L C ltac:(lia)) as Hm.
  destruct (Z.eqb_spec (L mod C) 0); nia.
Qed.

Lemma ceil_div_pos (L C : Z) : 1 <= C -> 1 <= L -> 1 <= ceil_div L C.
Proof. intros HC HL. pose proof (ceil_div_bounds L C HC). nia. Qed.

Lemma ceil_div_nonneg (L C : Z) : 1 <= C -> 0 <= L -> 0 <= ceil_div L C.
Proof. intros HC HL. pose proof (ceil_div_bounds L C HC). nia. Qed.

(** ** The 16-bit fields *)

Lemma byte_of_N_small (n : N) : (n <= 255)%N -> exists b, Byte.of_N n = Some b /\ Byte.to_N b = n.
Proof.
  intros Hn. destruct (Byte.of_N n) as [b|] eqn:E.
  - exists b. split; [done|]. by apply Byte.to_of_N.
  - apply Byte.of_N_None_iff in E. lia.
Qed.

Lemma to_bytes_2_big_ok (n : Z) :
  0 <= n < 65536 ->
  exists hi lo, to_bytes_2_big n = Return [hi; lo] /\ u16 hi lo = n.
Proof.
  intros Hn. unfold to_bytes_2_big.
  destruct (Z.ltb_spec n 0); [lia|]. destruct (Z.leb_spec 65536 n); [lia|]. simpl.
  pose proof (Z.div_mod n 256 ltac:(lia)) as Hdm.
  pose proof (Z.mod_pos_bound n 256 ltac:(lia)) as Hm.
  assert (0 <= n / 256 < 256) as Hd
    by (split; [apply Z.div_pos; lia | apply Z.div_lt_upper_bound; lia]).
  destruct (byte_of_N_small (Z.to_N (n / 256))) as (hi & -> & Hhi); [lia|].
  destruct (byte_of_N_small (Z.to_N (n mod 256))) as (lo & -> & Hlo); [lia|].
  exists hi, lo. split; [done|]. unfold u16. rewrite Hhi, Hlo. lia.
Qed.

Lemma to_bytes_2_big_be16 (n : Z) :
  0 <= n < 65536 -> to_bytes_2_big n = Return (be16 n).
Proof.
  intros Hn. destruct (to_bytes_2_big_ok n Hn) as (hi & lo & E & _).
  unfold be16. by rewrite E.
Qed.

Lemma to_bytes_2_big_overflow (n : Z) :
  65536 <= n -> to_bytes_2_big n = Raise OverflowError.
Proof.
  intros Hn. unfold to_bytes_2_big.
  destruct (Z.leb_spec 65536 n); [|lia]. by rewrite orb_true_r.
Qed.

Lemma be16_fields (n : Z) :
  0 <= n < 65536 -> exists hi lo, be16 n = [hi; lo] /\ u16 hi lo = n.
Proof.
  intros Hn. destruct (to_bytes_2_big_ok n Hn) as (hi & lo & E & Hu).
  exists hi, lo. unfold be16. by rewrite E.
Qed.

(** ** Slices *)

Lemma slice_chunk {A} (l : list A) (C : Z) (k : nat) :
  1 <= C ->
  slice l (Z.of_nat k * C) ((Z.of_nat k + 1) * C)
  = take (Z.to_nat C) (drop (k * Z.to_nat C) l).
Proof.
  intros HC. unfold slice, slice_bound.
  destruct (Z.ltb_spec (Z.of_nat k * C) 0); [nia|].
  destruct (Z.ltb_spec ((Z.of_nat k + 1) * C) 0); [nia|].
  set (n := Z.of_nat (length l)).
  destruct (Z.le_gt_cases n (Z.of_nat k * C)) as [Hge | Hlt].
  - rewrite !drop_ge by (subst n; nia). by rewrite !take_nil.
  - rewrite (Z.min_l (Z.of_nat k * C) n) by lia.
    replace (Z.to_nat (Z.of_nat k * C)) with (k * Z.to_nat C)%nat by nia.
    destruct (Z.le_gt_cases ((Z.of_nat k + 1) * C) n) as [Hin | Hout].
    + rewrite Z.min_l by lia. f_equal. nia.
    + rewrite Z.min_r by lia.
      rewrite !take_ge; [done | |]; rewrite length_drop; subst n; nia.
Qed.

Lemma concat_chunks {A} (l : list A) (c n : nat) :
  concat ((fun k => take c (drop (k * c) l)) <$> seq 0 n) = take (n * c) l.
Proof.
  induction n as [|n IH]; [done|].
  rewrite seq_S, fmap_app, concat_app, IH. simpl. rewrite app_nil_r.
  rewrite take_take_drop. f_equal. lia.
Qed.

(** ** The send loop *)

Section SendFacts.
Variable net : nat -> option exn.

Lemma emit_set_open (pkts : list datagram) (w : World) (n : nat) :
  emit net pkts (set_open w n)
  = (fst (emit net pkts w), set_open (snd (emit net pkts w)) n).
Proof.
  revert w. induction pkts as [|p ps IH]; intros w; simpl; [done|].
  change (w_calls (set_open w n)) with (w_calls w).
  destruct (net (w_calls w)); [done|].
  by rewrite <- IH.
Qed.

Lemma for_each_ext {A} (l : list A) (f g : A -> M unit) (w : World) :
  Forall (fun x => forall w', f x w' = g x w') l ->
  for_each l f w = for_each l g w.
Proof.
  intros H. revert w. induction H as [|x l Hx _ IH]; intros w; [done|].
  simpl. unfold bind. rewrite Hx. destruct (g x w) as [[u|e] w']; [apply IH | done].
Qed.

Lemma for_each_sendto {A} (l : list A) (mk : A -> datagram) (w : World) :
  for_each l (fun x => sock_sendto net (fst (mk x)) (snd (mk x))) w
  = emit net (mk <$> l) w.
Proof.
  revert w. induction l as [|x l IH]; intros w; [done|].
  simpl. unfold bind, sock_sendto. rewrite <- surjective_pairing.
  destruct (net (w_calls w)); [done|]. by rewrite IH.
Qed.

Lemma emit_open (pkts : list datagram) (w : World) :
  w_open (snd (emit net pkts w)) = w_open w.
Proof.
  revert w. induction pkts as [|p ps IH]; intros w; simpl; [done|].
  destruct (net (w_calls w)); [done|]. by rewrite IH.
Qed.

(** The loop of lines 569-572 sends the datagrams [packet] describes. *)
Lemma send_loop_emit (data : bytes) (chunk parts : Z) (ip : string)
    (port : Z) (l : list Z) (w : World) :
  0 <= parts < 65536 ->
  Forall (fun i => 0 <= i < 65536) l ->
  for_each l (fun i =>
      let part := slice data (i * chunk) ((i + 1) * chunk) in
      index_field <- lift (to_bytes_2_big i) ;;
      total_field <- lift (to_bytes_2_big parts) ;;
      let pkt := header ++ index_field ++ total_field ++ part in
      sock_sendto net pkt (ip, port))%py w
  = emit net (packet data chunk parts (ip, port) <$> l) w.
Proof.
  intros Hparts Hl. rewrite <- for_each_sendto.
  apply for_each_ext. eapply Forall_impl; [exact Hl|].
  intros i Hi w'. cbv beta zeta. unfold bind, lift.
  rewrite (to_bytes_2_big_be16 i Hi), (to_bytes_2_big_be16 parts Hparts).
  done.
Qed.

(** With a fragment count that does not fit the 16-bit field, the first
    turn of the loop raises before anything is sent. *)
Lemma send_loop_overflow (data : bytes) (chunk parts : Z) (ip : string)
    (port : Z) (w : World) :
  65536 <= parts ->
  for_each (range parts) (fun i =>
      let part := slice data (i * chunk) ((i + 1) * chunk) in
      index_field <- lift (to_bytes_2_big i) ;;
      total_field <- lift (to_bytes_2_big parts) ;;
      let pkt := header ++ index_field ++ total_field ++ part in
      sock_sendto net pkt (ip, port))%py w
  = (Raise OverflowError, w).
Proof.
  intros Hparts. unfold range. rewrite seqZ_cons by lia. simpl.
  unfold bind at 1. unfold bind at 1, lift at 1.
  rewrite (to_bytes_2_big_be16 0) by lia.
  unfold bind at 1, lift at 1.
  by rewrite (to_bytes_2_big_overflow parts Hparts).
Qed.

Lemma world_eta (w : World) :
  mkWorld (w_time w) (w_wire w) (w_tried w) (w_open w) = w.
Proof. by destruct w. Qed.

Lemma w_calls_after (w : World) (d : datagram) (ok : bool) :
  w_calls (after_sendto w d ok) = S (w_calls w).
Proof. unfold w_calls, after_sendto. simpl. rewrite length_app. simpl. lia. Qed.

(** What [emit] does: [k] datagrams go out, then either the list is
    exhausted or call number [k] fails on the next one. *)
Lemma emit_spec (pkts : list datagram) (w : World) :
  exists k : nat,
    (k <= length pkts)%nat /\
    (forall j, (j < k)%nat -> net (w_calls w + j) = None) /\
    ((k = length pkts /\
      emit net pkts w
      = (Return tt,
         mkWorld (w_time w) (w_wire w ++ pkts) (w_tried w ++ pkts) (w_open w)))
     \/
     ((k < length pkts)%nat /\
      exists e, net (w_calls w + k) = Some e /\
      emit net pkts w
      = (Raise e,
         mkWorld (w_time w) (w_wire w ++ take k pkts)
                 (w_tried w ++ take (S k) pkts) (w_open w)))).
Proof.
  revert w. induction pkts as [|p ps IH]; intros w.
  - exists 0%nat. split; [done|]. split; [lia|]. left. split; [done|].
    simpl. rewrite !app_nil_r. by rewrite world_eta.
  - simpl. destruct (net (w_calls w)) as [e|] eqn:E.
    + exists 0%nat. split; [lia|]. split; [lia|]. right. split; [lia|].
      exists e. rewrite Nat.add_0_r. split; [done|].
      unfold after_sendto. simpl. by rewrite app_nil_r.
    + destruct (IH (after_sendto w p true)) as (k & Hk & Hok & Hres).
      rewrite w_calls_after in Hok, Hres.
      exists (S k). split; [simpl; lia|]. split.
      { intros [|j] Hj; [by rewrite Nat.add_0_r|].
        specialize (Hok j ltac:(lia)).
        by replace (w_calls w + S j)%nat with (S (w_calls w) + j)%nat by lia. }
      simpl in Hres. destruct Hres as [[-> ->] | (Hlt & e & He & ->)].
      * left. split; [done|]. by rewrite <- !app_assoc.
      * right. split; [simpl; lia|]. exists e. split.
        { by replace (w_calls w + S k)%nat with (S (w_calls w) + k)%nat by lia. }
        simpl. by rewrite <- !app_assoc.
Qed.

(** [send_mesh_udp_from], for a chunk size of at least one, in terms of
    [emit]. *)
Lemma send_from_overflow (data : bytes) (ip : string) (port chunk : Z)
    (w : World) :
  1 <= chunk ->
  65535 < ceil_div (Z.of_nat (length data)) chunk ->
  send_mesh_udp_from net data ip port chunk w = (Raise OverflowError, w).
Proof.
  intros HC Hn. unfold send_mesh_udp_from, try_finally, socket_socket.
  unfold bind at 1. unfold bind at 1. unfold bind at 1.
  unfold lift at 1, floordiv.
  destruct (Z.eqb_spec chunk 0); [lia|].
  rewrite ceil_div_code by done.
  rewrite send_loop_overflow by lia.
  unfold sock_close, set_open. simpl. by rewrite world_eta.
Qed.

Lemma send_from_emit (data : bytes) (ip : string) (port chunk : Z)
    (w : World) :
  1 <= chunk ->
  ceil_div (Z.of_nat (length data)) chunk <= 65535 ->
  let n := ceil_div (Z.of_nat (length data)) chunk in
  let run := emit net (packet data chunk n (ip, port) <$> range n) w in
  send_mesh_udp_from net data ip port chunk w
  = (match fst run with
     | Return _ => Return (Z.of_nat (length data))
     | Raise e => Raise e
     end, snd run).
Proof.
  intros HC Hn n run. unfold send_mesh_udp_from, try_finally, socket_socket.
  unfold bind at 1. unfold bind at 1. unfold bind at 1.
  unfold lift at 1, floordiv.
  destruct (Z.eqb_spec chunk 0); [lia|].
  rewrite ceil_div_code by done. fold n.
  assert (0 <= n) as Hn0 by (apply ceil_div_nonneg; lia).
  rewrite send_loop_emit; [| lia |].
  2:{ apply list.Forall_forall. intros i Hi.
      unfold range in Hi. apply elem_of_seqZ in Hi. lia. }
  rewrite emit_set_open. fold run.
  pose proof (emit_open (packet data chunk n (ip, port) <$> range n) w) as Ho.
  fold run in Ho.
  destruct run as [[[]|e] [t wire c o]]; simpl in *; subst o;
    unfold sock_close, set_open, ret; simpl; done.
Qed.

End SendFacts.

(** ** Texts and their encoding *)

Lemma append_cons (x : ascii) (a b : string) :
  String.append (String x a) b = String x (String.append a b).
Proof. reflexivity. Qed.

Lemma append_nil_l (a : string) : String.append EmptyString a = a.
Proof. reflexivity. Qed.

Lemma append_assoc (a b c : string) :
  String.append (String.append a b) c = String.append a (String.append b c).
Proof.
  induction a as [|x a IH]; [done|]. by rewrite !append_cons, IH.
Qed.

Lemma append_nil_r (a : string) : String.append a EmptyString = a.
Proof.
  induction a as [|x a IH]; [done|]. by rewrite append_cons, IH.
Qed.

Lemma length_append (a b : string) :
  String.length (String.append a b) = (String.length a + String.length b)%nat.
Proof.
  induction a as [|x a IH]; [done|]. rewrite append_cons. simpl. by rewrite IH.
Qed.

Lemma length_encode (s : string) : length (encode s) = String.length s.
Proof.
  unfold encode, list_byte_of_string.
  rewrite length_map. induction s as [|x s IH]; simpl; [done | by rewrite IH].
Qed.

(** Replaces a closed text by its characters. *)
Ltac eval_text t :=
  let v := eval vm_compute in t in change t with v.

(** ** [_pack_mesh] *)

Section PackFacts.
Variable float_repr : float -> string.

Lemma floatstr_allow_nan (x : float) :
  floatstr float_repr true x = Return (float_text float_repr x).
Proof.
  unfold float_text, floatstr.
  by repeat match goal with |- context [if ?b then _ else _] => destruct b end.
Qed.

Lemma map_outcome_total {A B C} (f : B -> outcome C) (g : B -> C)
    (h : A -> B) (l : list A) :
  (forall x, f (h x) = Return (g (h x))) ->
  map_outcome f (h <$> l) = Return (g <$> (h <$> l)).
Proof.
  intros Hf. induction l as [|x l IH]; csimpl; [done|].
  by rewrite Hf, IH.
Qed.

(** The text [json.dumps] writes for the dictionary of line 559. *)
Lemma json_dumps_payload (v : list float) (t : list Z) (ts : float) :
  json_dumps float_repr
    (JDict [("type", JStr "mesh"); ("vertices", JList (JFloat <$> v));
            ("triangles", JList (JInt <$> t)); ("ts", JFloat ts)])
  = Return (payload_text float_repr v t ts).
Proof.
  unfold json_dumps. simpl.
  rewrite (map_outcome_total _ (fun o => match o with JFloat x => float_text float_repr x | _ => EmptyString end) JFloat)
    by (intros x; apply floatstr_allow_nan).
  rewrite (map_outcome_total _ (fun o => match o with JInt n => int_repr n | _ => EmptyString end) JInt)
    by done.
  rewrite floatstr_allow_nan. rewrite <- !list_fmap_compose.
  unfold payload_text, compose. simpl.
  eval_text text_open; eval_text text_triangles; eval_text text_ts.
  eval_text (encode_basestring_ascii "type").
  eval_text (encode_basestring_ascii "mesh").
  eval_text (encode_basestring_ascii "vertices").
  eval_text (encode_basestring_ascii "triangles").
  eval_text (encode_basestring_ascii "ts").
  by rewrite ?append_assoc, ?append_cons, ?append_nil_l.
Qed.

(** [_pack_mesh] always returns, leaves the world as it was, and writes
    the payload text of the flattened arrays and the clock. *)
Lemma pack_mesh_spec (mesh : TriangleMesh) (w : World) :
  _pack_mesh float_repr mesh w
  = (Return (encode (payload_text float_repr
                       (reshape_tolist (asarray_float32 (vertices mesh)))
                       (reshape_tolist (asarray_int32 (triangles mesh)))
                       (w_time w))), w).
Proof.
  unfold _pack_mesh, bind, time_time, lift, ret.
  by rewrite json_dumps_payload.
Qed.

End PackFacts.

Lemma payload_length_ge (float_repr : float -> string) (mesh : TriangleMesh)
    (w : World) :
  (30 <= length (payload_of float_repr mesh w))%nat.
Proof.
  unfold payload_of. rewrite length_encode. unfold payload_text. simpl.
  rewrite length_append. eval_text (String.length text_open). lia.
Qed.

Lemma send_mesh_udp_from_payload (float_repr : float -> string)
    (net : nat -> option exn) (mesh : TriangleMesh) (ip : string)
    (port chunk : Z) (w : World) :
  send_mesh_udp float_repr net mesh ip port chunk w
  = send_mesh_udp_from net (payload_of float_repr mesh w) ip port chunk w.
Proof.
  unfold send_mesh_udp, bind. by rewrite pack_mesh_spec.
Qed.

(** ** What a run of [send_mesh_udp_from] leaves behind *)

Lemma range_seq (n : Z) : range n = Z.of_nat <$> seq 0 (Z.to_nat n).
Proof.
  unfold range, seqZ. apply list_fmap_ext. intros _ i _. lia.
Qed.

Lemma length_range (n : Z) : length (range n) = Z.to_nat n.
Proof. unfold range. by rewrite length_seqZ. Qed.

Section RunFacts.
Variable net : nat -> option exn.
Variables (data : bytes) (ip : string) (port chunk : Z).

Let L := Z.of_nat (length data).
Let n := ceil_div L chunk.
Let pkts := packet data chunk n (ip, port) <$> range n.

Lemma length_pkts : length pkts = Z.to_nat n.
Proof. unfold pkts. by rewrite length_fmap, length_range. Qed.

(** The three ways a run with a chunk size of at least one ends: the
    count does not fit the total field and nothing is sent; every
    datagram is sent and the payload length is returned; or call number
    [k] to [sendto] fails after [k] datagrams, and its exception
    surfaces. *)
Lemma send_from_cases (w : World) :
  1 <= chunk ->
  let m := send_mesh_udp_from net data ip port chunk in
  (65535 < n /\ m w = (Raise OverflowError, w))
  \/
  (n <= 65535 /\
   exists k : nat,
     (k <= length pkts)%nat /\
     (forall j, (j < k)%nat -> net (w_calls w + j) = None) /\
     sent_by m w = take k pkts /\
     w_open (snd (m w)) = w_open w /\
     ((k = length pkts /\ result_of m w = Return L /\ tried_by m w = pkts)
      \/
      ((k < length pkts)%nat /\
       exists e, net (w_calls w + k) = Some e /\
                 result_of m w = Raise e /\ tried_by m w = take (S k) pkts))).
Proof.
  intros HC m. destruct (Z.le_gt_cases n 65535) as [Hn | Hn].
  - right. split; [done|].
    unfold m, sent_by, tried_by, result_of.
    rewrite (send_from_emit net data ip port chunk w HC Hn).
    fold L n pkts. simpl.
    destruct (emit_spec net pkts w) as (k & Hk & Hok & Hres).
    exists k. split; [done|]. split; [done|].
    destruct Hres as [[-> ->] | (Hlt & e & He & ->)]; simpl.
    + split; [by rewrite drop_app_length, firstn_all|]. split; [done|].
      left. split; [done|]. split; [done|]. by rewrite drop_app_length.
    + split; [by rewrite drop_app_length|]. split; [done|].
      right. split; [done|]. exists e. split; [done|]. split; [done|].
      by rewrite drop_app_length.
  - left. split; [lia|]. by apply send_from_overflow.
Qed.

(** Whatever the network does, the datagrams passed to [sendto] are the
    first few of [pkts], and those on the wire are the first few of
    these. *)
Lemma tried_prefix (w : World) :
  1 <= chunk ->
  exists k : nat,
    tried_by (send_mesh_udp_from net data ip port chunk) w = take k pkts
    /\ (k = 0%nat \/ n <= 65535).
Proof.
  intros HC. destruct (send_from_cases w HC)
    as [[_ E] | (Hn & k & Hk & _ & _ & _ & [(-> & _ & E) | (_ & e & _ & _ & E)])].
  - exists 0%nat. split; [|by left]. unfold tried_by. rewrite E. simpl.
    by rewrite drop_all.
  - exists (length pkts). split; [by rewrite firstn_all | by right].
  - exists (S k). split; [done | by right].
Qed.

Lemma sent_tried (w : World) (i : nat) (d : datagram) :
  1 <= chunk ->
  sent_by (send_mesh_udp_from net data ip port chunk) w !! i = Some d ->
  tried_by (send_mesh_udp_from net data ip port chunk) w !! i = Some d.
Proof.
  intros HC. destruct (send_from_cases w HC)
    as [[_ E] | (Hn & k & Hk & _ & Es & _ & [(-> & _ & Et) | (_ & e & _ & _ & Et)])].
  - unfold sent_by. rewrite E. simpl. by rewrite drop_all.
  - rewrite Es, Et. by rewrite firstn_all.
  - rewrite Es, Et. intros [Hd Hi]%lookup_take_Some.
    apply lookup_take_Some. split; [done | lia].
Qed.

(** A chunk size of zero raises on the division; a negative one gives a
    fragment count of at most zero as soon as the payload has two bytes.
    Either way [sendto] is not called and the world is left as it was. *)
Lemma send_from_nonpos_run (w : World) :
  chunk <= 0 -> 2 <= L ->
  exists r, send_mesh_udp_from net data ip port chunk w = (r, w).
Proof.
  intros HC HL. unfold send_mesh_udp_from, try_finally, socket_socket.
  unfold bind at 1. unfold bind at 1. unfold bind at 1.
  unfold lift at 1, floordiv. fold L.
  destruct (Z.eqb_spec chunk 0) as [-> | Hne].
  - eexists. unfold sock_close, set_open. simpl. by rewrite world_eta.
  - assert ((L + chunk - 1) / chunk <= 0) as Hparts.
    { destruct (Z.le_gt_cases 0 (L + chunk - 1)) as [Hpos | Hneg].
      - pose proof (Z.div_mod (L + chunk - 1) chunk ltac:(lia)).
        pose proof (Z.mod_neg_bound (L + chunk - 1) chunk ltac:(lia)). nia.
      - rewrite (proj2 (Z.div_small_iff (L + chunk - 1) chunk ltac:(lia))); lia. }
    unfold range, seqZ.
    replace (Z.to_nat ((L + chunk - 1) / chunk)) with 0%nat by lia.
    eexists. unfold sock_close, set_open, ret. simpl. by rewrite world_eta.
Qed.

Lemma send_from_nonpos (w : World) :
  chunk <= 0 -> 2 <= L ->
  tried_by (send_mesh_udp_from net data ip port chunk) w = [] /\
  sent_by (send_mesh_udp_from net data ip port chunk) w = [].
Proof.
  intros HC HL. destruct (send_from_nonpos_run w HC HL) as [r E].
  unfold tried_by, sent_by. rewrite E. simpl. rewrite !drop_all.
  split; reflexivity.
Qed.

(** The fields of the datagram of fragment [k]. *)
Lemma packet_fields (k : nat) :
  1 <= chunk -> Z.of_nat k < n <= 65535 ->
  exists i1 i0 t1 t0,
    fst (packet data chunk n (ip, port) (Z.of_nat k))
    = encode "ARC" ++ [x01] ++ [i1; i0] ++ [t1; t0]
      ++ take (Z.to_nat chunk) (drop (k * Z.to_nat chunk) data)
    /\ u16 i1 i0 = Z.of_nat k /\ u16 t1 t0 = n.
Proof.
  intros HC Hk. unfold packet. simpl fst.
  destruct (be16_fields (Z.of_nat k)) as (i1 & i0 & -> & Hi); [lia|].
  destruct (be16_fields n) as (t1 & t0 & -> & Ht); [lia|].
  exists i1, i0, t1, t0. split; [|done].
  rewrite slice_chunk by done. unfold header. by rewrite <- ?app_assoc.
Qed.

Lemma pkts_lookup (j k : nat) (d : datagram) :
  take j pkts !! k = Some d ->
  (k < j)%nat /\ Z.of_nat k < n /\ d = packet data chunk n (ip, port) (Z.of_nat k).
Proof.
  intros Hd. apply lookup_take_Some in Hd as [Hd Hkj]. split; [done|].
  unfold pkts in Hd. rewrite range_seq, <- list_fmap_compose in Hd.
  apply list_lookup_fmap_Some in Hd as (i & -> & Hi).
  apply lookup_seq in Hi as [-> Hi]. simpl. split; [lia | done].
Qed.

End RunFacts.

(** ** Fragmentation *)

Section Fragmentation.
Variable net : nat -> option exn.
Variables (data : bytes) (ip : string) (port chunk : Z).

Let L := Z.of_nat (length data).
Let n := ceil_div L chunk.
Let pkts := packet data chunk n (ip, port) <$> range n.

Lemma body_of_packet (k : nat) :
  1 <= chunk -> Z.of_nat k < n <= 65535 ->
  datagram_body (packet data chunk n (ip, port) (Z.of_nat k))
  = take (Z.to_nat chunk) (drop (k * Z.to_nat chunk) data).
Proof.
  intros HC Hk.
  destruct (packet_fields data ip port chunk k HC Hk) as (i1 & i0 & t1 & t0 & E & _).
  unfold datagram_body. fold L n in E. by rewrite E.
Qed.

Lemma bodies_of_pkts :
  1 <= chunk -> n <= 65535 ->
  datagram_body <$> pkts
  = (fun k => take (Z.to_nat chunk) (drop (k * Z.to_nat chunk) data))
    <$> seq 0 (Z.to_nat n).
Proof.
  intros HC Hn. unfold pkts. rewrite range_seq, <- !list_fmap_compose.
  apply list_fmap_ext. intros i k Hk. apply lookup_seq in Hk as [-> Hk].
  simpl. apply body_of_packet; [done | lia].
Qed.

Lemma concat_bodies :
  1 <= chunk -> n <= 65535 -> concat (datagram_body <$> pkts) = data.
Proof.
  intros HC Hn. rewrite bodies_of_pkts by done. rewrite concat_chunks.
  apply take_ge. pose proof (ceil_div_bounds L chunk HC) as H1.
  pose proof (ceil_div_nonneg L chunk HC ltac:(lia)) as H2.
  fold n in H1, H2. unfold L in H1. nia.
Qed.

(** When no call fails, all of [pkts] is sent and the length returned. *)
Lemma send_from_all_ok (w : World) :
  1 <= chunk -> n <= 65535 -> sends_ok net w n ->
  let m := send_mesh_udp_from net data ip port chunk in
  sent_by m w = pkts /\ tried_by m w = pkts /\ result_of m w = Return L
  /\ w_open (snd (m w)) = w_open w.
Proof.
  intros HC Hn Hok m.
  destruct (send_from_cases net data ip port chunk w HC)
    as [[Hbig _] | (_ & k & Hk & _ & E & Ho & Hres)]; [fold L n in Hbig; lia|].
  fold L n pkts in Hk, E, Hres. fold m in E, Ho, Hres.
  pose proof (length_pkts data ip port chunk) as Hlen. fold L n pkts in Hlen.
  destruct Hres as [(-> & Hr & Ht) | (Hlt & e & He & _)].
  - rewrite firstn_all in E. done.
  - rewrite Hok in He by lia. done.
Qed.

(** When call number [k] is the first to fail, [k] datagrams are sent,
    no further call is made, and the exception surfaces. *)
Lemma send_from_failure (w : World) (k : nat) (e : exn) :
  1 <= chunk -> n <= 65535 -> Z.of_nat k < n ->
  sends_ok net w (Z.of_nat k) -> net (w_calls w + k)%nat = Some e ->
  let m := send_mesh_udp_from net data ip port chunk in
  sent_by m w = take k pkts /\ tried_by m w = take (S k) pkts
  /\ result_of m w = Raise e /\ w_open (snd (m w)) = w_open w.
Proof.
  intros HC Hn Hkn Hok He m.
  destruct (send_from_cases net data ip port chunk w HC)
    as [[Hbig _] | (_ & k' & Hk' & Hok' & E & Ho & Hres)]; [fold L n in Hbig; lia|].
  fold L n pkts in Hk', E, Hres. fold m in E, Ho, Hres.
  pose proof (length_pkts data ip port chunk) as Hlen. fold L n pkts in Hlen.
  assert (k' = k) as ->.
  { destruct (Nat.lt_trichotomy k' k) as [Hlt | [-> | Hgt]]; [|done|].
    - destruct Hres as [(-> & _) | (_ & e' & He' & _)]; [lia|].
      rewrite Hok in He' by lia. done.
    - rewrite Hok' in He by lia. done. }
  destruct Hres as [(-> & _) | (_ & e' & He' & Hr & Ht)]; [lia|].
  rewrite He in He'. by injection He' as <-.
Qed.

End Fragmentation.

(** ** The claims on fragmentation and transmission *)

(** C1 (amended): for every payload of length L (in particular L >= 1)
    and every chunk size C >= 1 such that ceil(L/C) <= 65535, when no send
    fails, [send_mesh_udp] puts exactly ceil(L/C) datagrams on the wire,
    the body of the k-th is the k-th C-byte slice of the payload (of C
    bytes, the last possibly shorter), and the bodies concatenated in
    order are the payload. *)
Theorem fragmentation_complete (net : nat -> option exn) (data : bytes)
    (ip : string) (port chunk : Z) (w : World) :
  1 <= chunk ->
  ceil_div (Z.of_nat (length data)) chunk <= 65535 ->
  sends_ok net w (ceil_div (Z.of_nat (length data)) chunk) ->
  let out := sent_by (send_mesh_udp_from net data ip port chunk) w in
  Z.of_nat (length out) = ceil_div (Z.of_nat (length data)) chunk /\
  (forall k d, out !! k = Some d ->
     datagram_body d = take (Z.to_nat chunk) (drop (k * Z.to_nat chunk) data) /\
     Z.of_nat (length (datagram_body d))
     = Z.min chunk (Z.of_nat (length data) - Z.of_nat k * chunk)) /\
  concat (datagram_body <$> out) = data.
Proof.
  intros HC Hn Hok out.
  destruct (send_from_all_ok net data ip port chunk w HC Hn Hok) as (E & _).
  subst out. rewrite E. split; [|split].
  - rewrite length_pkts.
    pose proof (ceil_div_nonneg (Z.of_nat (length data)) chunk HC ltac:(lia)). lia.
  - intros k d Hd. rewrite <- (firstn_all (_ <$> _)) in Hd.
    apply pkts_lookup in Hd as (_ & Hk & ->).
    rewrite body_of_packet by (done || lia). split; [done|].
    rewrite length_take, length_drop.
    pose proof (ceil_div_bounds (Z.of_nat (length data)) chunk HC). nia.
  - by apply concat_bodies.
Qed.

Lemma fragmentation_complete_witness :
  let out := sent_by (send_mesh_udp_from quiet small_data "192.168.0.10" 51234 8)
                     world0 in
  Z.of_nat (length out) = 3 /\
  (forall k d, out !! k = Some d ->
     datagram_body d = take 8 (drop (k * 8) small_data) /\
     Z.of_nat (length (datagram_body d)) = Z.min 8 (20 - Z.of_nat k * 8)) /\
  concat (datagram_body <$> out) = small_data.
Proof.
  apply (fragmentation_complete quiet small_data "192.168.0.10" 51234 8 world0).
  - lia.
  - vm_compute. discriminate.
  - intros j _. reflexivity.
Defined.

(** C1, as stated, fails: the payload of a mesh of 8000 triangles has
    72080 bytes, a chunk size of 1 needs as many fragments, and none is
    sent; and of the 9 fragments of the unit square at a chunk size of 16,
    only the first is sent when the second send fails. *)
Lemma fragmentation_complete_counterexample :
  (let payload := payload_of whole_float_repr big_mesh world0 in
   _pack_mesh whole_float_repr big_mesh world0 = (Return payload, world0) /\
   ceil_div (Z.of_nat (length payload)) 1 = 72080 /\
   sent_by (send_mesh_udp whole_float_repr quiet big_mesh "192.168.0.10" 51234 1)
           world0 = []) /\
  (let payload := payload_of whole_float_repr square world0 in
   ceil_div (Z.of_nat (length payload)) 16 = 9 /\
   length (sent_by (send_mesh_udp whole_float_repr flaky square
                      "192.168.0.10" 51234 16) world0) = 1%nat).
Proof.
  split.
  - split; [apply pack_mesh_spec|]. split; [by vm_compute|].
    unfold sent_by. rewrite send_mesh_udp_from_payload.
    rewrite send_from_overflow; [done | lia |].
    vm_compute. reflexivity.
  - split; vm_compute; reflexivity.
Qed.

(** C3 (amended): for every payload and chunk size C >= 1 whose fragment
    count ceil(L/C) exceeds 65535, [send_mesh_udp] fails with
    [OverflowError], raised by [int.to_bytes] on the total field in the
    first turn of the loop; no datagram is sent, [sendto] is not called,
    and the world is as before the call (the socket is closed again). *)
Theorem addressing_limit (net : nat -> option exn) (data : bytes)
    (ip : string) (port chunk : Z) (w : World) :
  1 <= chunk ->
  65535 < ceil_div (Z.of_nat (length data)) chunk ->
  let m := send_mesh_udp_from net data ip port chunk in
  result_of m w = Raise OverflowError /\ sent_by m w = [] /\
  calls_by m w = 0%nat /\ snd (m w) = w.
Proof.
  intros HC Hn m. unfold result_of, sent_by, calls_by, tried_by, m.
  rewrite send_from_overflow by done. simpl.
  rewrite !drop_all. repeat split; reflexivity.
Qed.

Lemma addressing_limit_witness :
  let m := send_mesh_udp_from quiet big_data "192.168.0.10" 51234 1 in
  result_of m world0 = Raise OverflowError /\ sent_by m world0 = [] /\
  calls_by m world0 = 0%nat /\ snd (m world0) = world0.
Proof.
  apply (addressing_limit quiet big_data "192.168.0.10" 51234 1 world0).
  - lia.
  - vm_compute. reflexivity.
Defined.

(** C3, as stated, fails: the exception raised for the 72080 fragments of
    a mesh of 8000 triangles at a chunk size of 1 is an [OverflowError],
    not a [PayloadTooLargeError]. *)
Lemma addressing_limit_counterexample :
  let m := send_mesh_udp whole_float_repr quiet big_mesh "192.168.0.10" 51234 1 in
  65535 < ceil_div (Z.of_nat (length (payload_of whole_float_repr big_mesh world0))) 1 /\
  result_of m world0 = Raise OverflowError /\
  ~ fails_with (result_of m world0) "PayloadTooLargeError".
Proof.
  assert (result_of (send_mesh_udp whole_float_repr quiet big_mesh
                       "192.168.0.10" 51234 1) world0 = Raise OverflowError) as E.
  { unfold result_of. rewrite send_mesh_udp_from_payload.
    rewrite send_from_overflow; [done | lia | by vm_compute]. }
  cbv zeta. rewrite E. split; [by vm_compute|]. split; [done|].
  intros (e & [= <-] & Hname). discriminate Hname.
Qed.

Lemma packet_index_total (data : bytes) (ip : string) (port chunk : Z)
    (k : nat) :
  let n := ceil_div (Z.of_nat (length data)) chunk in
  1 <= chunk -> Z.of_nat k < n <= 65535 ->
  index_field (packet data chunk n (ip, port) (Z.of_nat k)) = Some (Z.of_nat k) /\
  total_field (packet data chunk n (ip, port) (Z.of_nat k)) = Some n.
Proof.
  intros n HC Hk.
  destruct (packet_fields data ip port chunk k HC Hk)
    as (i1 & i0 & t1 & t0 & Ep & Hi & Ht).
  fold n in Ep, Ht. unfold index_field, total_field. rewrite Ep.
  change (field16 4 _) with (Some (u16 i1 i0)).
  change (field16 6 _) with (Some (u16 t1 t0)).
  by rewrite Hi, Ht.
Qed.

(** C5 (amended): for every payload and chunk size C >= 1, the k-th
    datagram built for a message (passed to [sendto], whether the send
    succeeds or not) carries index k and a total equal to ceil(L/C), the
    same in every datagram and fixed before the first is built, with
    0 <= index < total; what is on the wire is a prefix of what was
    built. The total is the number of datagrams produced when
    ceil(L/C) <= 65535 and no send fails: then exactly ceil(L/C)
    datagrams are on the wire, one for each index from 0 to total - 1. *)
Theorem header_invariants (net : nat -> option exn) (data : bytes)
    (ip : string) (port chunk : Z) (w : World) :
  1 <= chunk ->
  let m := send_mesh_udp_from net data ip port chunk in
  let n := ceil_div (Z.of_nat (length data)) chunk in
  (forall k d, tried_by m w !! k = Some d ->
     index_field d = Some (Z.of_nat k) /\ total_field d = Some n /\
     0 <= Z.of_nat k < n) /\
  (forall k d, sent_by m w !! k = Some d -> tried_by m w !! k = Some d) /\
  (n <= 65535 -> sends_ok net w n ->
   Z.of_nat (length (sent_by m w)) = n /\
   forall k : nat, Z.of_nat k < n ->
     exists d, sent_by m w !! k = Some d /\
               index_field d = Some (Z.of_nat k) /\ total_field d = Some n).
Proof.
  intros HC. cbv zeta. split; [|split].
  - intros k d Hd.
    destruct (tried_prefix net data ip port chunk w HC) as (j & E & Hj).
    rewrite E in Hd. apply pkts_lookup in Hd as (Hkj & Hk & ->).
    destruct Hj as [-> | Hn]; [lia|].
    destruct (packet_index_total data ip port chunk k HC ltac:(lia))
      as [Hi Ht].
    split; [done|]. split; [done|]. lia.
  - intros k d. by apply sent_tried.
  - intros Hn Hok.
    destruct (send_from_all_ok net data ip port chunk w HC Hn Hok) as (E & _).
    pose proof (ceil_div_nonneg (Z.of_nat (length data)) chunk HC ltac:(lia))
      as Hpos.
    rewrite E. split; [rewrite length_pkts; lia|].
    intros k Hk. eexists. split.
    + rewrite range_seq, <- list_fmap_compose, list_lookup_fmap.
      rewrite lookup_seq_lt by lia. reflexivity.
    + simpl. apply (packet_index_total data ip port chunk k HC). lia.
Qed.

Lemma header_invariants_witness :
  let m := send_mesh_udp_from quiet small_data "192.168.0.10" 51234 8 in
  Z.of_nat (length (sent_by m world0)) = 3 /\
  exists d, sent_by m world0 !! 2%nat = Some d /\
            index_field d = Some 2 /\ total_field d = Some 3 /\
            tried_by m world0 !! 2%nat = Some d.
Proof.
  destruct (header_invariants quiet small_data "192.168.0.10" 51234 8 world0)
    as (_ & Htried & Hall); [lia|].
  destruct Hall as [Hlen Hsent];
    [vm_compute; discriminate | intros j _; reflexivity |].
  split; [exact Hlen|].
  destruct (Hsent 2%nat) as (d & Hd & Hi & Ht); [vm_compute; reflexivity|].
  exists d. split; [exact Hd|]. split; [exact Hi|]. split; [exact Ht|].
  apply Htried, Hd.
Defined.

(** C5, as stated, fails: when the second send fails, the three
    datagrams of a payload of twenty bytes at a chunk size of 8 are not
    all produced; the one on the wire says that there are three, two
    were built and one was sent. *)
Lemma header_invariants_counterexample :
  let m := send_mesh_udp_from flaky small_data "192.168.0.10" 51234 8 in
  (exists d, sent_by m world0 = [d] /\
             index_field d = Some 0 /\ total_field d = Some 3) /\
  length (tried_by m world0) = 2%nat /\
  result_of m world0 = Raise (OSError 101).
Proof.
  split; [|split; vm_compute; reflexivity].
  eexists. split; [vm_compute; reflexivity|]. split; vm_compute; reflexivity.
Qed.

(** C7 (amended): for a chunk size C >= 1 and a fragment count within
    65535, when every send succeeds [send_mesh_udp] returns the length of
    the serialized payload, having called [sendto] once per fragment; when
    call number k is the first to fail, no further call is made (the
    fragment is not retried and the rest of the loop is skipped), exactly
    the k earlier datagrams are on the wire, and the exception [sendto]
    raised, an [OSError] for a socket failure, reaches the caller
    unchanged. Either way the socket is closed. *)
Theorem transmit_result (net : nat -> option exn) (data : bytes)
    (ip : string) (port chunk : Z) (w : World) :
  1 <= chunk ->
  ceil_div (Z.of_nat (length data)) chunk <= 65535 ->
  let m := send_mesh_udp_from net data ip port chunk in
  let n := ceil_div (Z.of_nat (length data)) chunk in
  (sends_ok net w n ->
     result_of m w = Return (Z.of_nat (length data)) /\
     calls_by m w = Z.to_nat n /\ length (sent_by m w) = Z.to_nat n /\
     w_open (snd (m w)) = w_open w) /\
  (forall (k : nat) (e : exn),
     Z.of_nat k < n -> sends_ok net w (Z.of_nat k) ->
     net (w_calls w + k)%nat = Some e ->
     result_of m w = Raise e /\ calls_by m w = S k /\
     length (sent_by m w) = k /\ w_open (snd (m w)) = w_open w).
Proof.
  intros HC Hn m n. split.
  - intros Hok.
    destruct (send_from_all_ok net data ip port chunk w HC Hn Hok)
      as (E & Et & Hr & Ho).
    fold m in E, Et, Hr, Ho. unfold calls_by. rewrite E, Et, length_pkts. done.
  - intros k e Hk Hok He.
    destruct (send_from_failure net data ip port chunk w k e HC Hn Hk Hok He)
      as (E & Et & Hr & Ho).
    fold m in E, Et, Hr, Ho. unfold calls_by.
    rewrite E, Et, !length_take, length_pkts. fold n.
    repeat split; [done | lia | lia | done].
Qed.

Lemma transmit_result_witness :
  (let m := send_mesh_udp_from quiet small_data "192.168.0.10" 51234 8 in
   result_of m world0 = Return 20 /\ calls_by m world0 = 3%nat /\
   length (sent_by m world0) = 3%nat /\ w_open (snd (m world0)) = 0%nat) /\
  (let m := send_mesh_udp_from flaky small_data "192.168.0.10" 51234 8 in
   result_of m world0 = Raise (OSError 101) /\ calls_by m world0 = 2%nat /\
   length (sent_by m world0) = 1%nat /\ w_open (snd (m world0)) = 0%nat).
Proof.
  split.
  - apply (transmit_result quiet small_data "192.168.0.10" 51234 8 world0).
    + lia.
    + vm_compute. discriminate.
    + intros j _. reflexivity.
  - apply (transmit_result flaky small_data "192.168.0.10" 51234 8 world0
             ltac:(lia) ltac:(vm_compute; discriminate)) with (k := 1%nat).
    + vm_compute. reflexivity.
    + intros [|j] Hj; [reflexivity | lia].
    + reflexivity.
Defined.

(** C7, as stated, fails: when the second send of the unit square fails
    with errno 101, what reaches the caller is the [OSError] that [sendto]
    raised, not a [TransportError]; and for the mesh of 8000 triangles at
    a chunk size of 1 no send fails, yet the call raises [OverflowError]
    instead of returning the payload length. *)
Lemma transmit_result_counterexample :
  (let m := send_mesh_udp whole_float_repr flaky square "192.168.0.10" 51234 16 in
   result_of m world0 = Raise (OSError 101) /\
   length (sent_by m world0) = 1%nat /\
   ~ fails_with (result_of m world0) "TransportError") /\
  (let m := send_mesh_udp whole_float_repr quiet big_mesh "192.168.0.10" 51234 1 in
   (forall k, quiet k = None) /\
   result_of m world0 = Raise OverflowError).
Proof.
  split.
  - assert (result_of (send_mesh_udp whole_float_repr flaky square
                         "192.168.0.10" 51234 16) world0 = Raise (OSError 101)) as E
      by (vm_compute; reflexivity).
    cbv zeta. rewrite E. split; [done|]. split; [vm_compute; reflexivity|].
    intros (e & [= <-] & Hname). discriminate Hname.
  - split; [done|]. unfold result_of. rewrite send_mesh_udp_from_payload.
    rewrite send_from_overflow; [done | lia | by vm_compute].
Qed.

(** ** The claims on the payload *)

Lemma reshape_tolist_length {A} (rows : list (A * A * A)) :
  length (reshape_tolist rows) = (3 * length rows)%nat.
Proof.
  unfold reshape_tolist. induction rows as [|[[x y] z] rows IH]; csimpl; [done|].
  rewrite IH. lia.
Qed.

Lemma reshape_tolist_lookup {A} (rows : list (A * A * A)) (i : nat) (x y z : A) :
  rows !! i = Some (x, y, z) ->
  reshape_tolist rows !! (3 * i)%nat = Some x /\
  reshape_tolist rows !! (3 * i + 1)%nat = Some y /\
  reshape_tolist rows !! (3 * i + 2)%nat = Some z.
Proof.
  unfold reshape_tolist. revert i.
  induction rows as [|[[a b] c] rows IH]; intros i Hi; [done|].
  destruct i as [|i].
  - csimpl in *. by injection Hi as -> -> ->.
  - destruct (IH i Hi) as (H0 & H1 & H2).
    replace (3 * S i)%nat with (S (S (S (3 * i)))) by lia.
    by change ((fun l : list A => l !! (3 * i)%nat = Some x
                /\ l !! (3 * i + 1)%nat = Some y
                /\ l !! (3 * i + 2)%nat = Some z)
               (rows ≫= (fun '(x, y, z) => [x; y; z]))).
Qed.

Lemma asarray_float32_lookup (rows : list (float * float * float)) (i : nat)
    (x y z : float) :
  rows !! i = Some (x, y, z) ->
  asarray_float32 rows !! i = Some (float32 x, float32 y, float32 z).
Proof.
  intros Hi. unfold asarray_float32. by rewrite list_lookup_fmap, Hi.
Qed.

Lemma asarray_float32_id (mesh : TriangleMesh) :
  float32_valued mesh -> asarray_float32 (vertices mesh) = vertices mesh.
Proof.
  unfold float32_valued, asarray_float32. induction 1 as [|[[x y] z] rows H _ IH];
    csimpl; [done|].
  simpl in H. destruct H as (-> & -> & ->). by rewrite IH.
Qed.

(** A finite float is written by [float_repr]. *)
Lemma float_text_finite (float_repr : float -> string) (x : float) :
  is_finite x = true -> float_text float_repr x = float_repr x.
Proof.
  unfold is_finite, is_nan, is_infinity. intros H.
  apply negb_true_iff, orb_false_iff in H as [Hnan Hinf].
  apply negb_false_iff in Hnan.
  unfold float_text, floatstr. rewrite Hnan. simpl.
  rewrite FloatAxioms.eqb_spec, FloatAxioms.abs_spec in Hinf.
  rewrite !FloatAxioms.eqb_spec.
  change (Prim2SF infinity) with (S754_infinity false) in *.
  change (Prim2SF neg_infinity) with (S754_infinity true).
  by destruct (Prim2SF x) as [[|]|[|]| |[|] m e].
Qed.

Lemma encode_append (a b : string) :
  encode (String.append a b) = encode a ++ encode b.
Proof.
  unfold encode, list_byte_of_string.
  induction a as [|c a IH]; simpl; [done|]. by rewrite IH.
Qed.

(** The octets of the text of a payload, written out. *)
Lemma payload_octets_text (float_repr : float -> string) (v : list float)
    (t : list Z) (ts : float) :
  encode (payload_text float_repr v t ts)
  = payload_octets (String.concat ", " (float_text float_repr <$> v))
      (String.concat ", " (int_repr <$> t)) (float_text float_repr ts).
Proof.
  unfold payload_text.
  generalize (String.concat ", " (float_text float_repr <$> v)) as vs.
  generalize (String.concat ", " (int_repr <$> t)) as tris.
  generalize (float_text float_repr ts) as stamp.
  intros stamp tris vs.
  cbn [String.concat]. rewrite !encode_append.
  unfold payload_octets, encode.
  generalize (list_byte_of_string vs) (list_byte_of_string tris)
    (list_byte_of_string stamp).
  intros a b c. vm_compute. reflexivity.
Qed.

(** C6 (amended): for every mesh and clock reading, the payload of
    [_pack_mesh] is, octet for octet, the text of a JSON object with, in
    this order, the field type equal to the string mesh, the field
    vertices, the field triangles and the field ts, the names and the
    string between double quotes. The field vertices lists the vertex
    coordinates flattened, three floats per vertex in vertex order, each
    rounded to a 32-bit float by the cast of line 557; the field
    triangles lists the vertex indices flattened, three integers per
    triangle in triangle order; the field ts is the clock reading. A
    finite number is written as [float.__repr__] writes it. Only on a
    mesh whose coordinates are 32-bit floats does the field vertices
    hold the coordinates themselves. *)
Theorem payload_schema (float_repr : float -> string) (mesh : TriangleMesh)
    (w : World) :
  let v := reshape_tolist (asarray_float32 (vertices mesh)) in
  let t := reshape_tolist (asarray_int32 (triangles mesh)) in
  _pack_mesh float_repr mesh w
  = (Return (payload_octets
               (String.concat ", " (float_text float_repr <$> v))
               (String.concat ", " (int_repr <$> t))
               (float_text float_repr (w_time w))), w) /\
  length v = (3 * length (vertices mesh))%nat /\
  (forall i x y z, vertices mesh !! i = Some (x, y, z) ->
     v !! (3 * i)%nat = Some (float32 x) /\
     v !! (3 * i + 1)%nat = Some (float32 y) /\
     v !! (3 * i + 2)%nat = Some (float32 z)) /\
  length t = (3 * length (triangles mesh))%nat /\
  (forall i a b c, triangles mesh !! i = Some (a, b, c) ->
     t !! (3 * i)%nat = Some a /\ t !! (3 * i + 1)%nat = Some b /\
     t !! (3 * i + 2)%nat = Some c) /\
  (forall x, is_finite x = true -> float_text float_repr x = float_repr x) /\
  (float32_valued mesh -> v = reshape_tolist (vertices mesh)).
Proof.
  intros v t. split.
  { rewrite pack_mesh_spec. by rewrite payload_octets_text. }
  split.
  { unfold v. rewrite reshape_tolist_length. unfold asarray_float32.
    by rewrite length_fmap. }
  split.
  { intros i x y z Hi. apply reshape_tolist_lookup.
    by apply asarray_float32_lookup. }
  split; [apply reshape_tolist_length|].
  split; [intros i a b c Hi; by apply reshape_tolist_lookup|].
  split; [intros x; apply float_text_finite|].
  intros H32. unfold v. by rewrite asarray_float32_id.
Qed.

Lemma payload_schema_witness :
  _pack_mesh whole_float_repr square world0
  = (Return (payload_octets
               "0.0, 0.0, 0.0, 1.0, 0.0, 0.0, 1.0, 1.0, 0.0, 0.0, 1.0, 0.0"
               "0, 1, 2, 0, 2, 3" "1700000000.0"), world0) /\
  reshape_tolist (asarray_float32 (vertices square))
  = [0; 0; 0; 1; 0; 0; 1; 1; 0; 0; 1; 0]%float /\
  reshape_tolist (asarray_int32 (triangles square)) = [0; 1; 2; 0; 2; 3].
Proof.
  destruct (payload_schema whole_float_repr square world0)
    as (E & _ & _ & _ & _ & _ & H32).
  split; [exact E|]. split; [|reflexivity].
  apply H32. unfold float32_valued, square. simpl.
  repeat constructor.
Defined.

(** C6, as stated, fails: the field vertices does not always hold the
    coordinates. For a vertex at 0.1, the double [0x1.999999999999ap-4],
    it holds the 32-bit float nearest to it, [0x1.99999ap-4], which
    Python writes 0.10000000149011612; the payload carries the text of
    that number, whatever text Python gives to a float. *)
Lemma payload_schema_counterexample :
  vertices tenth_mesh = [(0x1.999999999999ap-4, 0, 0)%float] /\
  reshape_tolist (asarray_float32 (vertices tenth_mesh))
  = [0x1.99999ap-4; 0; 0]%float /\
  (0x1.99999ap-4 =? 0x1.999999999999ap-4)%float = false /\
  (forall float_repr : float -> string,
     _pack_mesh float_repr tenth_mesh world0
     = (Return (payload_octets
                  (String.concat ", " [float_repr 0x1.99999ap-4%float;
                                       float_repr 0%float; float_repr 0%float])
                  EmptyString (float_repr 1700000000%float)), world0)).
Proof.
  split; [reflexivity|]. split; [vm_compute; reflexivity|].
  split; [vm_compute; reflexivity|].
  intros float_repr. rewrite pack_mesh_spec, payload_octets_text.
  reflexivity.
Qed.



(** ** The claims on the datagrams of a mesh *)

(** Whatever the chunk size, the k-th datagram passed to [sendto] for a
    mesh is [packet k] of its payload, and there is one only if the chunk
    size is at least one and the fragment count fits the total field. *)
Lemma mesh_tried_lookup (float_repr : float -> string) (net : nat -> option exn)
    (mesh : TriangleMesh) (ip : string) (port chunk : Z) (w : World)
    (k : nat) (d : datagram) :
  tried_by (send_mesh_udp float_repr net mesh ip port chunk) w !! k = Some d ->
  let payload := payload_of float_repr mesh w in
  let n := ceil_div (Z.of_nat (length payload)) chunk in
  1 <= chunk /\ Z.of_nat k < n <= 65535 /\
  d = packet payload chunk n (ip, port) (Z.of_nat k).
Proof.
  intros Hd payload n. unfold tried_by in Hd.
  rewrite send_mesh_udp_from_payload in Hd. fold payload in Hd.
  fold (tried_by (send_mesh_udp_from net payload ip port chunk) w) in Hd.
  pose proof (payload_length_ge float_repr mesh w) as Hlen. fold payload in Hlen.
  destruct (Z.le_gt_cases chunk 0) as [Hneg | HC].
  - rewrite (proj1 (send_from_nonpos net payload ip port chunk w Hneg ltac:(lia)))
      in Hd.
    by rewrite lookup_nil in Hd.
  - destruct (tried_prefix net payload ip port chunk w ltac:(lia)) as (j & E & Hj).
    rewrite E in Hd. apply pkts_lookup in Hd as (Hkj & Hk & ->).
    fold n in Hk, Hj. destruct Hj as [-> | Hn]; [lia|].
    repeat split; [lia | done | done].
Qed.

(** Every datagram on the wire was passed to [sendto], at the same
    position. *)
Lemma mesh_sent_tried (float_repr : float -> string) (net : nat -> option exn)
    (mesh : TriangleMesh) (ip : string) (port chunk : Z) (w : World)
    (k : nat) (d : datagram) :
  sent_by (send_mesh_udp float_repr net mesh ip port chunk) w !! k = Some d ->
  tried_by (send_mesh_udp float_repr net mesh ip port chunk) w !! k = Some d.
Proof.
  unfold sent_by, tried_by. rewrite send_mesh_udp_from_payload.
  set (payload := payload_of float_repr mesh w).
  fold (sent_by (send_mesh_udp_from net payload ip port chunk) w).
  fold (tried_by (send_mesh_udp_from net payload ip port chunk) w).
  pose proof (payload_length_ge float_repr mesh w) as Hlen. fold payload in Hlen.
  destruct (Z.le_gt_cases chunk 0) as [Hneg | HC].
  - rewrite (proj2 (send_from_nonpos net payload ip port chunk w Hneg ltac:(lia))).
    by rewrite lookup_nil.
  - apply sent_tried. lia.
Qed.



(** C10 (amended): for every mesh, empty ones included, the payload of
    [_pack_mesh] is not empty, so for every chunk size C >= 1 the fragment
    count is at least 1; when that count is within 65535 and the first
    send succeeds, at least one datagram is sent; and every datagram sent
    is 8 bytes longer than its body, so at most C + 8 bytes long. *)
Theorem at_least_one_datagram (float_repr : float -> string)
    (net : nat -> option exn) (mesh : TriangleMesh) (ip : string)
    (port chunk : Z) (w : World) :
  1 <= chunk ->
  let payload := payload_of float_repr mesh w in
  let n := ceil_div (Z.of_nat (length payload)) chunk in
  let m := send_mesh_udp float_repr net mesh ip port chunk in
  _pack_mesh float_repr mesh w = (Return payload, w) /\
  payload <> [] /\
  1 <= n /\
  (n <= 65535 -> net (w_calls w) = None -> sent_by m w <> []) /\
  (forall d, d ∈ sent_by m w ->
     length (fst d) = (8 + length (datagram_body d))%nat /\
     Z.of_nat (length (fst d)) <= chunk + 8).
Proof.
  intros HC payload n m. subst m n payload.
  pose proof (payload_length_ge float_repr mesh w) as Hlen.
  set (payload := payload_of float_repr mesh w) in *.
  split; [apply pack_mesh_spec|].
  split; [intros E; rewrite E in Hlen; simpl in Hlen; lia|].
  assert (1 <= ceil_div (Z.of_nat (length payload)) chunk) as Hn1
    by (apply ceil_div_pos; lia).
  split; [done|]. split.
  - intros Hn Hfirst. unfold sent_by. rewrite send_mesh_udp_from_payload.
    fold payload. fold (sent_by (send_mesh_udp_from net payload ip port chunk) w).
    destruct (send_from_cases net payload ip port chunk w HC)
      as [[Hbig _] | (_ & k & Hk & _ & E & _ & Hres)]; [lia|].
    rewrite E. rewrite length_pkts in Hk, Hres.
    destruct k as [|k].
    + destruct Hres as [(Hk0 & _) | (_ & e & He & _)]; [lia|].
      rewrite Nat.add_0_r, Hfirst in He. done.
    + intros Hnil. apply (f_equal length) in Hnil.
      rewrite length_take, length_pkts in Hnil.
      change (length []) with 0%nat in Hnil. lia.
  - intros d Hd. apply list_elem_of_lookup in Hd as (k & Hd).
    apply mesh_sent_tried, mesh_tried_lookup in Hd as (_ & Hk & ->).
    fold payload in Hk |- *.
    destruct (packet_fields payload ip port chunk k HC Hk)
      as (i1 & i0 & t1 & t0 & E & _).
    unfold datagram_body. rewrite E.
    change (encode "ARC" ++ [x01] ++ [i1; i0] ++ [t1; t0] ++ ?b)
      with ([x41; x52; x43; x01; i1; i0; t1; t0] ++ b).
    rewrite drop_app_length', length_app, length_take by done. simpl. lia.
Qed.

Lemma at_least_one_datagram_witness :
  let payload := payload_of whole_float_repr (mkMesh [] []) world0 in
  let m := send_mesh_udp whole_float_repr quiet (mkMesh [] []) "192.168.0.10"
             51234 60000 in
  _pack_mesh whole_float_repr (mkMesh [] []) world0 = (Return payload, world0) /\
  payload <> [] /\
  1 <= ceil_div (Z.of_nat (length payload)) 60000 /\
  sent_by m world0 <> [] /\
  (forall d, d ∈ sent_by m world0 ->
     length (fst d) = (8 + length (datagram_body d))%nat /\
     Z.of_nat (length (fst d)) <= 60000 + 8).
Proof.
  intros payload m.
  destruct (at_least_one_datagram whole_float_repr quiet (mkMesh [] [])
              "192.168.0.10" 51234 60000 world0 ltac:(lia))
    as (H1 & H2 & H3 & H4 & H5).
  repeat split; try assumption.
  - apply H4; [vm_compute; discriminate | reflexivity].
  - by apply H5.
  - by apply H5.
Defined.

(** C10, as stated, fails: the payload of a mesh of 8000 triangles has
    more than 65535 bytes, and with a chunk size of 1 no datagram is sent;
    nor is any sent for the unit square on a network where every send
    fails. *)
Lemma at_least_one_datagram_counterexample :
  (let m := send_mesh_udp whole_float_repr quiet big_mesh "192.168.0.10" 51234 1 in
   sent_by m world0 = [] /\ result_of m world0 = Raise OverflowError) /\
  (let m := send_mesh_udp whole_float_repr dead square "192.168.0.10" 51234 16 in
   sent_by m world0 = [] /\ result_of m world0 = Raise (OSError 101)).
Proof.
  split.
  - unfold sent_by, result_of. rewrite send_mesh_udp_from_payload.
    rewrite send_from_overflow; [done | lia |].
    vm_compute. reflexivity.
  - split; vm_compute; reflexivity.
Qed.

(** ** The receiving side: reassembly *)

Section ReassemblerFacts.
Import Reassembler.

Variable T : Z.

Lemma filled_spec (n : nat) (s : gmap nat bytes) :
  filled n s = true <-> forall i, (i < n)%nat -> is_Some (s !! i).
Proof.
  unfold filled. rewrite forallb_forall. split.
  - intros H i Hi. specialize (H i). rewrite bool_decide_eq_true in H.
    apply H. apply in_seq. lia.
  - intros H i Hi%in_seq. apply bool_decide_eq_true. apply H. lia.
Qed.

Lemma stored_lookup_other (l : list (Z * Fragment)) (s : gmap nat bytes) (i : nat) :
  i ∉ (index <$> (snd <$> l)) -> stored s l !! i = s !! i.
Proof.
  revert s. induction l as [|a l IH]; intros s Hi; [done|].
  csimpl in Hi. apply not_elem_of_cons in Hi as [Hne Hi].
  simpl. rewrite IH by done. by rewrite lookup_insert_ne.
Qed.

Lemma stored_lookup (l : list (Z * Fragment)) (s : gmap nat bytes) (a : Z * Fragment) :
  NoDup (index <$> (snd <$> l)) -> a ∈ l ->
  stored s l !! index (snd a) = Some (body (snd a)).
Proof.
  revert s. induction l as [|x l IH]; intros s Hnd Ha; [by apply elem_of_nil in Ha|].
  csimpl in Hnd. apply NoDup_cons in Hnd as [Hx Hnd].
  apply elem_of_cons in Ha as [-> | Ha]; simpl.
  - rewrite stored_lookup_other by done. by rewrite lookup_insert_eq.
  - by apply IH.
Qed.

Lemma run_cons (st : State) (now : Z) (f : Fragment) (l : list (Z * Fragment)) :
  run T st ((now, f) :: l) = run T (on_fragment T st now f) l.
Proof. reflexivity. Qed.

(** Storing the fragments of one message, none of them twice, completes
    exactly with the last one. *)
Lemma run_store (n : nat) (rest : list (Z * Fragment)) (s : gmap nat bytes)
    (t0 now : Z) (f : Fragment) :
  Forall (fun a => fst a - t0 <= T /\ total (snd a) = n /\ (index (snd a) < n)%nat)
         rest ->
  NoDup (index <$> (snd <$> ((now, f) :: rest))) ->
  (forall i, (i < n)%nat ->
     is_Some (s !! i) \/ i ∈ (index <$> (snd <$> ((now, f) :: rest)))) ->
  (forall a, a ∈ rest -> s !! index (snd a) = None) ->
  run T (store (mkInFlight n s t0) f) rest
  = COMPLETE (assemble n (stored s ((now, f) :: rest))).
Proof.
  revert s now f. induction rest as [|a rest IH]; intros s now f Hall Hnd Hcov Hnew.
  - simpl. unfold store. simpl.
    assert (filled n (<[index f := body f]> s) = true) as ->; [|done].
    apply filled_spec. intros i Hi.
    destruct (Hcov i Hi) as [Hs | Hin].
    + destruct (decide (index f = i)) as [-> | Hne];
        [by rewrite lookup_insert_eq | by rewrite lookup_insert_ne].
    + csimpl in Hin. apply list_elem_of_singleton in Hin as ->.
      by rewrite lookup_insert_eq.
  - apply Forall_cons in Hall as [(Ht & Htot & Hidx) Hall].
    csimpl in Hnd. apply NoDup_cons in Hnd as [Hf Hnd].
    destruct a as [ta fa]. rewrite run_cons.
    unfold store at 1. simpl expected. simpl slots. simpl started.
    assert (filled n (<[index f := body f]> s) = false) as ->.
    { apply not_true_iff_false. rewrite filled_spec. intros H.
      destruct (H (index fa) Hidx) as [x Hx].
      rewrite lookup_insert_ne in Hx.
      - pose proof (Hnew (ta, fa) ltac:(apply list_elem_of_here)) as Hn.
        simpl in Hn. rewrite Hn in Hx. done.
      - intros E. apply Hf. rewrite E. csimpl. apply list_elem_of_here. }
    simpl in Ht, Htot, Hidx.
    unfold on_fragment. rewrite Htot.
    rewrite bool_decide_eq_true_2 by done. simpl expire.
    destruct (Z.ltb_spec T (ta - t0)); [lia|].
    simpl expected. rewrite bool_decide_eq_true_2 by done.
    rewrite (IH (<[index f := body f]> s) ta fa); [done | done | done | |].
    + intros i Hi. destruct (Hcov i Hi) as [Hs | Hin].
      * left. destruct (decide (index f = i)) as [-> | Hne];
          [by rewrite lookup_insert_eq | by rewrite lookup_insert_ne].
      * apply elem_of_cons in Hin as [-> | Hin];
          [left; by rewrite lookup_insert_eq | by right].
    + intros a Ha. rewrite lookup_insert_ne.
      * apply Hnew. by apply list_elem_of_further.
      * intros E. apply Hf. rewrite E. apply list_elem_of_further.
        apply list_elem_of_fmap. exists (snd a). split; [done|].
        apply list_elem_of_fmap. by exists a.
Qed.

Lemma complete_message_indices (fs : list Fragment) :
  complete_message fs -> index <$> fs = seq 0 (length fs).
Proof.
  intros [_ H]. apply list_eq. intros k. rewrite list_lookup_fmap.
  destruct (fs !! k) as [f|] eqn:E; simpl.
  - destruct (H k f E) as [-> _]. symmetry. apply lookup_seq.
    split; [done|]. by apply lookup_lt_Some in E.
  - symmetry. apply lookup_seq_ge. by apply lookup_ge_None in E.
Qed.

(** Any timely delivery of the fragments of a complete message, in any
    order, ends in [COMPLETE] with the bodies in index order. *)
Lemma run_complete (fs : list Fragment) (arrivals : list (Z * Fragment)) :
  complete_message fs -> snd <$> arrivals ≡ₚ fs -> timely T arrivals ->
  run T IDLE arrivals = COMPLETE (concat (body <$> fs)).
Proof.
  intros Hfs Hperm Htime. pose proof (complete_message_indices fs Hfs) as Hidx.
  destruct Hfs as [Hne Hfs]. set (n := length fs) in *.
  assert (NoDup (index <$> (snd <$> arrivals))) as Hnd.
  { rewrite Hperm, Hidx. apply NoDup_seq. }
  assert (forall a, a ∈ arrivals -> total (snd a) = n /\ (index (snd a) < n)%nat)
    as Hin.
  { intros a Ha. assert (snd a ∈ fs) as Hf.
    { rewrite <- Hperm. apply list_elem_of_fmap. by exists a. }
    apply list_elem_of_lookup in Hf as [k Hk]. destruct (Hfs k _ Hk) as [-> ->].
    split; [done|]. by apply lookup_lt_Some in Hk. }
  destruct arrivals as [|[t0 f0] rest].
  { apply Permutation_nil_l in Hperm. by subst fs. }
  rewrite run_cons.
  replace (on_fragment T IDLE t0 f0) with (store (mkInFlight n ∅ t0) f0).
  2:{ unfold on_fragment. destruct (Hin (t0, f0)) as [Ht Hi]; [apply list_elem_of_here|].
      simpl in *. rewrite bool_decide_eq_true_2 by lia. simpl. by rewrite Ht. }
  rewrite (run_store n rest ∅ t0 t0 f0).
  - f_equal. unfold assemble. f_equal. apply list_eq. intros k.
    rewrite !list_lookup_fmap. destruct (fs !! k) as [f|] eqn:E; simpl.
    + rewrite (proj2 (lookup_seq 0 n k k)) by (split; [done | by apply lookup_lt_Some in E]).
      simpl. assert (f ∈ snd <$> (t0, f0) :: rest) as Hf.
      { rewrite Hperm. by apply list_elem_of_lookup; exists k. }
      apply list_elem_of_fmap in Hf as (a & -> & Ha).
      destruct (Hfs k _ E) as [<- _].
      change (stored (<[index f0 := body f0]> ∅) rest)
        with (stored ∅ ((t0, f0) :: rest)).
      by rewrite (stored_lookup _ ∅ a Hnd Ha).
    + rewrite lookup_seq_ge; [done|]. by apply lookup_ge_None in E.
  - simpl in Htime. apply list.Forall_forall. intros a Ha.
    split; [by apply (proj1 (list.Forall_forall _ _) Htime)|].
    apply Hin. by apply list_elem_of_further.
  - done.
  - intros i Hi. right. rewrite Hperm, Hidx. apply elem_of_seq. lia.
  - intros a _. apply lookup_empty.
Qed.

(** C9, spec-modelled: for every complete fragment set of one message and
    every permutation of its delivery order, the Reassembler ends with the
    same reconstructed payload as after in-order delivery: the bodies
    concatenated in index order. *)
Theorem out_of_order_reassembly (fs : list Fragment)
    (in_order permuted : list (Z * Fragment)) :
  complete_message fs ->
  snd <$> in_order = fs ->
  snd <$> permuted ≡ₚ fs ->
  timely T in_order -> timely T permuted ->
  run T IDLE permuted = run T IDLE in_order /\
  run T IDLE in_order = COMPLETE (concat (body <$> fs)).
Proof.
  intros Hfs Hin Hperm Ht1 Ht2.
  assert (run T IDLE in_order = COMPLETE (concat (body <$> fs))) as E1.
  { apply run_complete; [done | by rewrite Hin | done]. }
  split; [|done]. rewrite E1. by apply run_complete.
Qed.

End ReassemblerFacts.

Lemma out_of_order_reassembly_witness :
  let f0 := Reassembler.mkFragment 0 3 (encode "01234567") in
  let f1 := Reassembler.mkFragment 1 3 (encode "89abcdef") in
  let f2 := Reassembler.mkFragment 2 3 (encode "ghij") in
  Reassembler.run 2000 Reassembler.IDLE [(10, f2); (15, f0); (900, f1)]
  = Reassembler.run 2000 Reassembler.IDLE [(0, f0); (1, f1); (2, f2)] /\
  Reassembler.run 2000 Reassembler.IDLE [(0, f0); (1, f1); (2, f2)]
  = Reassembler.COMPLETE small_data.
Proof.
  intros f0 f1 f2.
  apply (out_of_order_reassembly 2000 [f0; f1; f2]
           [(0, f0); (1, f1); (2, f2)] [(10, f2); (15, f0); (900, f1)]).
  - split; [discriminate|].
    intros [|[|[|k]]] f; simpl; intros [= <-]; split; reflexivity.
  - reflexivity.
  - simpl. apply (Permutation_cons_app [f0; f1] []). reflexivity.
  - simpl. repeat constructor; simpl; lia.
  - simpl. repeat constructor; simpl; lia.
Defined.


(** ** Sender and receiver together *)

Section EndToEnd.
Import Reassembler.

Variable net : nat -> option exn.
Variables (data : bytes) (ip : string) (port chunk : Z).
Variable T : Z.

Let n := ceil_div (Z.of_nat (length data)) chunk.

(** The fragment the receiver reads from the k-th datagram. *)
Lemma parse_packet (k : nat) :
  1 <= chunk -> Z.of_nat k < n <= 65535 ->
  parse (fst (packet data chunk n (ip, port) (Z.of_nat k)))
  = Some (mkFragment k (Z.to_nat n)
            (take (Z.to_nat chunk) (drop (k * Z.to_nat chunk) data))).
Proof.
  intros HC Hk.
  destruct (packet_fields data ip port chunk k HC Hk)
    as (i1 & i0 & t1 & t0 & E & Hi & Ht).
  fold n in E, Ht. rewrite E.
  change (encode "ARC" ++ [x01] ++ [i1; i0] ++ [t1; t0] ++ ?b)
    with (x41 :: x52 :: x43 :: x01 :: i1 :: i0 :: t1 :: t0 :: b).
  unfold parse. rewrite bool_decide_eq_true_2 by reflexivity.
  rewrite Hi, Ht. do 2 f_equal. lia.
Qed.

Lemma run_datagrams_parsed (st : State) (l : list (Z * bytes)) :
  run_datagrams T st l = run T st (parsed l).
Proof.
  revert st. induction l as [|[t d] l IH]; intros st; [done|].
  change (run_datagrams T st ((t, d) :: l))
    with (run_datagrams T (on_datagram T st t d) l).
  change (parsed ((t, d) :: l))
    with (match parse d ≫= (fun f => Some (t, f)) with
          | Some x => x :: parsed l
          | None => parsed l
          end).
  unfold on_datagram. destruct (parse d) as [f|]; simpl; apply IH.
Qed.

Lemma parsed_all (h : bytes -> Fragment) (l : list (Z * bytes)) :
  Forall (fun a => parse (snd a) = Some (h (snd a))) l ->
  parsed l = (fun a => (fst a, h (snd a))) <$> l.
Proof.
  induction 1 as [|a l Ha _ IH]; [done|].
  change (parsed (a :: l))
    with (match parse (snd a) ≫= (fun f => Some (fst a, f)) with
          | Some x => x :: parsed l
          | None => parsed l
          end).
  rewrite Ha, IH. done.
Qed.

(** The datagrams of a payload, when all are sent, reassemble to the
    payload in whatever order they arrive within the timeout. *)
Theorem end_to_end (w : World) (arrivals : list (Z * bytes)) :
  1 <= Z.of_nat (length data) -> 1 <= chunk -> n <= 65535 ->
  sends_ok net w n ->
  snd <$> arrivals
    ≡ₚ fst <$> sent_by (send_mesh_udp_from net data ip port chunk) w ->
  timely T arrivals ->
  run_datagrams T IDLE arrivals = COMPLETE data.
Proof.
  intros HL HC Hn Hok Hperm Htime.
  destruct (send_from_all_ok net data ip port chunk w HC Hn Hok) as (E & _ & _).
  rewrite E in Hperm. clear E. fold n in Hperm.
  set (slice_k := fun k : nat => take (Z.to_nat chunk) (drop (k * Z.to_nat chunk) data)).
  set (frag := fun k : nat => mkFragment k (Z.to_nat n) (slice_k k)).
  set (fs := frag <$> seq 0 (Z.to_nat n)).
  set (h := fun d : bytes => default (mkFragment 0 0 []) (parse d)).
  assert (1 <= n) as Hn1 by (apply ceil_div_pos; lia).
  assert (h <$> (fst <$> (packet data chunk n (ip, port) <$> range n)) = fs) as Hfs.
  { rewrite range_seq, <- !list_fmap_compose. apply list_fmap_ext.
    intros i k Hk. apply lookup_seq in Hk as [-> Hk]. unfold compose, h.
    rewrite Nat.add_0_l. by rewrite parse_packet by lia. }
  assert (Forall (fun a => parse (snd a) = Some (h (snd a))) arrivals) as Hall.
  { apply list.Forall_forall. intros a Ha.
    assert (snd a ∈ fst <$> (packet data chunk n (ip, port) <$> range n)) as Hd.
    { rewrite <- Hperm. apply list_elem_of_fmap. by exists a. }
    rewrite range_seq, <- !list_fmap_compose in Hd.
    apply list_elem_of_fmap in Hd as (k & -> & Hk%elem_of_seq).
    unfold compose, h. by rewrite parse_packet by lia. }
  rewrite run_datagrams_parsed, (parsed_all h) by done.
  rewrite (run_complete T fs).
  - f_equal. unfold fs. rewrite <- list_fmap_compose.
    change (body ∘ frag) with slice_k. unfold slice_k. rewrite concat_chunks.
    apply take_ge. pose proof (ceil_div_bounds (Z.of_nat (length data)) chunk HC) as Hb.
    fold n in Hb. nia.
  - split.
    + unfold fs. destruct (Z.to_nat n) eqn:En; [lia | done].
    + intros k f Hk. unfold fs in *. rewrite length_fmap, length_seq.
      apply list_lookup_fmap_Some in Hk as (i & -> & Hi).
      apply lookup_seq in Hi as [-> _]. done.
  - rewrite <- list_fmap_compose.
    rewrite (list_fmap_ext _ (h ∘ snd) arrivals) by done.
    rewrite list_fmap_compose, Hperm. by rewrite Hfs.
  - destruct arrivals as [|[t0 d0] rest]; [done|]. simpl in *.
    by apply Forall_fmap.
Qed.

End EndToEnd.

(** ** The receiving side: deserialization *)

Section DeserializerFacts.
Import Deserializer.

Lemma expect_append (p s : string) : expect p (String.append p s) = Some s.
Proof.
  induction p as [|c p IH]; [by destruct s|].
  rewrite append_cons. simpl. by rewrite Ascii.eqb_refl.
Qed.

Lemma items_nonempty (s r : string) : items s <> Some ([], r).
Proof.
  destruct s as [|c s]; [done|]. simpl.
  destruct (Ascii.eqb c rbracket); [done|].
  destruct (Ascii.eqb c comma).
  - destruct s as [|c' s]; [done|]. destruct (Ascii.eqb c' space); [|done].
    by destruct (items s) as [[ts r']|].
  - destruct (Ascii.eqb c rbrace); [done|].
    by destruct (items s) as [[[|u us] r']|].
Qed.

Lemma items_append (t s : string) :
  no_delim t = true ->
  items (String.append t s)
  = match items s with
    | Some (u :: us, r) => Some (String.append t u :: us, r)
    | _ => None
    end.
Proof.
  induction t as [|c t IH]; intros Hc.
  - rewrite append_nil_l. destruct (items s) as [[[|u us] r]|] eqn:E; try done.
    by apply items_nonempty in E.
  - simpl in Hc. apply andb_true_iff in Hc as [Hd Ht].
    apply negb_true_iff in Hd. unfold is_delim in Hd.
    apply orb_false_iff in Hd as [Hd Hbrace].
    apply orb_false_iff in Hd as [Hcomma Hbracket].
    rewrite append_cons. simpl. rewrite Hbracket, Hcomma, Hbrace.
    rewrite (IH Ht). by destruct (items s) as [[[|u us] r]|].
Qed.

Lemma items_close (r : string) :
  items (String.append "]" r) = Some ([EmptyString], r).
Proof. reflexivity. Qed.

Lemma items_separator (s : string) :
  items (String.append ", " s)
  = match items s with
    | Some (ts, r) => Some (EmptyString :: ts, r)
    | None => None
    end.
Proof. reflexivity. Qed.

Lemma clean_no_delim (t : string) : clean t = true -> no_delim t = true.
Proof. by destruct t. Qed.

(** Reading back the items of an array. *)
Lemma items_concat (ts : list string) (r : string) :
  Forall (fun t => clean t = true) ts ->
  items (String.append (String.concat ", " ts) (String.append "]" r))
  = Some (match ts with [] => [EmptyString] | _ => ts end, r).
Proof.
  induction 1 as [|t ts Ht Hts IH]; [done|].
  destruct ts as [|t' ts].
  - simpl. rewrite items_append by by apply clean_no_delim.
    rewrite items_close. by rewrite append_nil_r.
  - change (String.concat ", " (t :: t' :: ts))
      with (String.append t (String.append ", " (String.concat ", " (t' :: ts)))).
    rewrite !append_assoc. rewrite items_append by by apply clean_no_delim.
    rewrite items_separator, IH. by rewrite append_nil_r.
Qed.

Lemma item_texts_clean (ts : list string) :
  Forall (fun t => clean t = true) ts ->
  item_texts (match ts with [] => [EmptyString] | _ => ts end) = ts.
Proof.
  intros H. destruct ts as [|t [|t' ts]]; [done | | by destruct t].
  apply Forall_cons in H as [Ht _]. by destruct t.
Qed.

Lemma last_item_append (t : string) :
  no_delim t = true -> last_item (String.append t "}") = Some t.
Proof.
  induction t as [|c t IH]; intros Hc; [done|].
  simpl in Hc. apply andb_true_iff in Hc as [Hd Ht].
  apply negb_true_iff in Hd. rewrite append_cons. simpl. rewrite Hd.
  unfold is_delim in Hd. apply orb_false_iff in Hd as [_ ->].
  by rewrite (IH Ht).
Qed.

Lemma rows3_reshape {A} (rows : list (A * A * A)) :
  rows3 (reshape_tolist rows) = Some rows.
Proof.
  unfold reshape_tolist. induction rows as [|[[x y] z] rows IH]; [done|].
  csimpl. by rewrite IH.
Qed.

Lemma mapM_read {A} (write : A -> string) (read : string -> option A)
    (l : list A) :
  Forall (fun x => read (write x) = Some x) l ->
  mapM read (write <$> l) = Some l.
Proof.
  induction 1 as [|x l Hx _ IH]; [done|].
  rewrite fmap_cons.
  change (mapM read (write x :: (write <$> l)))
    with (y ← read (write x); k ← mapM read (write <$> l); mret (y :: k)).
  by rewrite Hx, IH.
Qed.

(** Integers: [int_repr] writes an item that reads back. *)
Lemma no_delim_uint (d : Decimal.uint) :
  no_delim (NilEmpty.string_of_uint d) = true.
Proof. induction d; simpl; done. Qed.

Lemma int_repr_clean (z : Z) : clean (int_repr z) = true.
Proof.
  unfold int_repr. destruct z as [|p|p]; [done| |].
  - simpl. unfold NilZero.string_of_uint.
    pose proof (DecimalPos.Unsigned.to_uint_nonnil p) as Hn.
    pose proof (no_delim_uint (Pos.to_uint p)) as Hd.
    destruct (Pos.to_uint p); try done; by simpl in *.
  - simpl. unfold NilZero.string_of_uint.
    pose proof (no_delim_uint (Pos.to_uint p)) as Hd.
    destruct (Pos.to_uint p); try done; by simpl in *.
Qed.

Lemma int_of_text_repr (z : Z) : int_of_text (int_repr z) = Some z.
Proof.
  unfold int_of_text, int_repr. rewrite NilZero.isi.
  - simpl. by rewrite DecimalZ.of_to.
  - destruct z; simpl; try done.
    intros [= H]. by apply DecimalPos.Unsigned.to_uint_nonnil in H.
  - destruct z; simpl; try done.
    intros [= H]. by apply DecimalPos.Unsigned.to_uint_nonnil in H.
Qed.

Lemma payload_text_layout (float_repr : float -> string) (v : list float)
    (t : list Z) (ts : float) :
  payload_text float_repr v t ts
  = String.append text_open
      (String.append (String.concat ", " (float_text float_repr <$> v))
         (String.append "]"
            (String.append text_triangles
               (String.append (String.concat ", " (int_repr <$> t))
                  (String.append "]"
                     (String.append text_ts
                        (String.append (float_text float_repr ts) "}"))))))).
Proof.
  unfold payload_text. simpl. by rewrite !append_nil_l.
Qed.

Section RoundTrip.
Variable float_repr : float -> string.
Variable float_parse : string -> option float.

Lemma floats_read_back (v : list float) :
  Forall (reads_back float_repr float_parse) v ->
  Forall (fun t => clean t = true) (float_text float_repr <$> v) /\
  mapM float_parse (float_text float_repr <$> v) = Some v.
Proof.
  intros H. split.
  - apply Forall_fmap. eapply Forall_impl; [exact H|].
    intros x (Hfin & Hclean & _). simpl. by rewrite float_text_finite.
  - apply mapM_read. eapply Forall_impl; [exact H|].
    intros x (Hfin & _ & Hread). by rewrite float_text_finite.
Qed.

Lemma ints_read_back (t : list Z) :
  Forall (fun t => clean t = true) (int_repr <$> t) /\
  mapM int_of_text (int_repr <$> t) = Some t.
Proof.
  split.
  - apply Forall_fmap, list.Forall_forall. intros z _. apply int_repr_clean.
  - apply mapM_read, list.Forall_forall. intros z _. apply int_of_text_repr.
Qed.

(** Reading a payload text back, whatever the sequences it was written
    from. *)
Lemma read_payload (rows : list (float * float * float))
    (tris : list (Z * Z * Z)) (ts : float) :
  Forall (reads_back float_repr float_parse) (reshape_tolist rows) ->
  reads_back float_repr float_parse ts ->
  Forall (fun t => in_range (length rows) t = true) tris ->
  read float_parse
    (encode (payload_text float_repr (reshape_tolist rows)
               (reshape_tolist tris) ts))
  = Some (mkMesh rows tris, ts).
Proof.
  intros Hv (Hfin & Hclean & Hts) Hrange.
  destruct (floats_read_back _ Hv) as [Hvc Hvr].
  destruct (ints_read_back (reshape_tolist tris)) as [Htc Htr].
  unfold read, encode. rewrite string_of_list_byte_of_string.
  rewrite payload_text_layout, expect_append. cbn [mbind option_bind].
  rewrite (items_concat _ _ Hvc). cbn [mbind option_bind].
  rewrite expect_append. cbn [mbind option_bind].
  rewrite (items_concat _ _ Htc). cbn [mbind option_bind].
  rewrite expect_append. cbn [mbind option_bind].
  rewrite float_text_finite by done.
  rewrite (last_item_append _ (clean_no_delim _ Hclean)). cbn [mbind option_bind].
  rewrite !item_texts_clean by done.
  rewrite Hvr. cbn [mbind option_bind]. rewrite Htr. cbn [mbind option_bind].
  rewrite Hts. cbn [mbind option_bind].
  rewrite !rows3_reshape. cbn [mbind option_bind].
  by rewrite (proj2 (forallb_forall _ _))
    by (intros x Hx%list_elem_of_In; by apply (proj1 (list.Forall_forall _ _) Hrange)).
Qed.

(** C2, spec-modelled: for every mesh whose coordinates are 32-bit floats
    and whose triangle indices are in range, and every clock reading, all
    of them finite and carried through text unchanged by the float
    formatting and parsing of the runtime, deserializing the payload of
    [_pack_mesh] gives back the mesh and the timestamp, exactly. *)
Theorem round_trip (mesh : TriangleMesh) (w : World) :
  float32_valued mesh ->
  Forall (reads_back float_repr float_parse) (reshape_tolist (vertices mesh)) ->
  reads_back float_repr float_parse (w_time w) ->
  Forall (fun t => in_range (length (vertices mesh)) t = true) (triangles mesh) ->
  exists payload,
    _pack_mesh float_repr mesh w = (Return payload, w) /\
    deserialize float_parse payload = Ok (mesh, w_time w).
Proof.
  intros H32 Hv Hts Hrange. exists (payload_of float_repr mesh w).
  split; [apply pack_mesh_spec|].
  unfold deserialize, payload_of, asarray_int32.
  rewrite (asarray_float32_id mesh H32).
  rewrite read_payload by done. by destruct mesh.
Qed.

End RoundTrip.

End DeserializerFacts.

Lemma round_trip_witness :
  exists payload,
    _pack_mesh whole_float_repr square world0 = (Return payload, world0) /\
    Deserializer.deserialize Deserializer.whole_float_parse payload
    = Deserializer.Ok (square, 1700000000%float).
Proof.
  apply (round_trip whole_float_repr Deserializer.whole_float_parse square world0).
  - unfold float32_valued. simpl. repeat constructor; vm_compute; reflexivity.
  - simpl. repeat constructor; vm_compute; reflexivity.
  - repeat constructor; vm_compute; reflexivity.
  - simpl. repeat constructor; vm_compute; reflexivity.
Defined.

(** ** The end-to-end scenario *)

(** The unit square at a chunk size of 16 bytes: its payload of 143 bytes
    goes out in 9 datagrams, which delivered last to first reassemble to
    the payload, and the payload deserializes to the square. *)
Example square_payload :
  payload_of whole_float_repr square world0
  = encode (String.concat EmptyString
      ["{"; char dquote; "type"; char dquote; ": "; char dquote; "mesh";
       char dquote; ", "; char dquote; "vertices"; char dquote;
       ": [0.0, 0.0, 0.0, 1.0, 0.0, 0.0, 1.0, 1.0, 0.0, 0.0, 1.0, 0.0], ";
       char dquote; "triangles"; char dquote; ": [0, 1, 2, 0, 2, 3], ";
       char dquote; "ts"; char dquote; ": 1700000000.0}"]).
Proof. vm_compute. reflexivity. Qed.

Example square_end_to_end :
  let m := send_mesh_udp whole_float_repr quiet square "192.168.0.10" 51234 16 in
  let payload := payload_of whole_float_repr square world0 in
  result_of m world0 = Return 143 /\
  length (sent_by m world0) = 9%nat /\
  Reassembler.run_datagrams 2000 Reassembler.IDLE
    (zip (seqZ 0 9) (reverse (fst <$> sent_by m world0)))
  = Reassembler.COMPLETE payload /\
  Deserializer.deserialize Deserializer.whole_float_parse payload
  = Deserializer.Ok (square, 1700000000%float).
Proof. vm_compute. repeat split; reflexivity. Qed.

(** * Further properties of the transport *)

(** ** The world after a send, on every input *)

Section Frame.
Variable net : nat -> option exn.

Lemma for_each_kept {A} (w0 : World) (o : nat) (l : list A)
    (body : A -> M unit) (w : World) :
  (forall x w1, kept w0 o w1 -> kept w0 o (snd (body x w1))) ->
  kept w0 o w -> kept w0 o (snd (for_each l body w)).
Proof.
  intros Hbody. revert w. induction l as [|x l IH]; intros w Hw; [done|].
  simpl. unfold bind. specialize (Hbody x w Hw).
  destruct (body x w) as [[u|e] w1]; simpl in *; [by apply IH | done].
Qed.

Lemma sendto_kept (w0 : World) (o : nat) (pkt : bytes) (addr : string * Z)
    (w : World) :
  kept w0 o w -> kept w0 o (snd (sock_sendto net pkt addr w)).
Proof.
  intros (Ht & Ho & (a & Ha) & (b & Hb)). unfold sock_sendto.
  destruct (net (w_calls w)); unfold after_sendto; simpl;
    (split; [done|]); (split; [done|]);
    rewrite Ha, Hb, <- ?app_assoc; split; eauto.
Qed.

Lemma send_from_kept (data : bytes) (ip : string) (port chunk : Z) (w : World) :
  kept w (w_open w) (snd (send_mesh_udp_from net data ip port chunk w)).
Proof.
  unfold send_mesh_udp_from, try_finally, socket_socket.
  unfold bind at 1. unfold bind at 1.
  set (w1 := set_open w (S (w_open w))).
  assert (kept w (S (w_open w)) w1) as H1.
  { subst w1. repeat split; simpl; try done; exists []; by rewrite app_nil_r. }
  set (loop := bind _ _).
  assert (kept w (S (w_open w)) (snd (loop w1))) as H2.
  { subst loop. unfold bind at 1, lift at 1.
    destruct (floordiv _ chunk) as [parts|e]; [|done].
    apply for_each_kept; [|done].
    intros i w2 Hw2. cbv zeta. unfold bind, lift.
    destruct (to_bytes_2_big i); [|done].
    destruct (to_bytes_2_big parts); [|done].
    by apply sendto_kept. }
  destruct (loop w1) as [r w2]. simpl in H2.
  destruct H2 as (Ht & Ho & Ha & Hb).
  unfold sock_close, set_open. simpl.
  destruct r; simpl; rewrite Ho; done.
Qed.

End Frame.

(** X1: [send_mesh_udp] closes the socket it opens and leaves the clock
    alone, whatever the mesh, the chunk size and the network do, and
    whether it returns or raises; what was on the wire, and what had been
    passed to [sendto], stays there, followed by the datagrams of this
    call. *)
Theorem send_closes_socket (float_repr : float -> string)
    (net : nat -> option exn) (mesh : TriangleMesh) (ip : string)
    (port chunk : Z) (w : World) :
  let m := send_mesh_udp float_repr net mesh ip port chunk in
  w_open (snd (m w)) = w_open w /\
  w_time (snd (m w)) = w_time w /\
  w_wire (snd (m w)) = w_wire w ++ sent_by m w /\
  w_tried (snd (m w)) = w_tried w ++ tried_by m w.
Proof.
  intros m. unfold sent_by, tried_by. subst m.
  rewrite send_mesh_udp_from_payload.
  destruct (send_from_kept net (payload_of float_repr mesh w) ip port chunk w)
    as (Ht & Ho & (a & Ha) & (b & Hb)).
  rewrite Ha, Hb, !drop_app_length. done.
Qed.

(** ** Chunk sizes below one *)

(** X2: with a chunk size of zero the division of line 568 raises
    [ZeroDivisionError]: nothing is passed to [sendto], and the socket
    opened before is closed again, so that the world is as it was. *)
Theorem zero_chunk_raises (float_repr : float -> string)
    (net : nat -> option exn) (mesh : TriangleMesh) (ip : string) (port : Z)
    (w : World) :
  send_mesh_udp float_repr net mesh ip port 0 w = (Raise ZeroDivisionError, w).
Proof.
  rewrite send_mesh_udp_from_payload.
  unfold send_mesh_udp_from, try_finally, socket_socket.
  unfold bind at 1. unfold bind at 1. unfold bind at 1.
  unfold lift at 1, floordiv. simpl.
  unfold sock_close, set_open. simpl. by rewrite world_eta.
Qed.

(** X3: with a negative chunk size the fragment count of line 568 is zero
    or negative, the loop body never runs, and [send_mesh_udp] returns
    the length of the payload as after a complete send, although no
    datagram was built or sent. *)
Theorem negative_chunk_sends_nothing (float_repr : float -> string)
    (net : nat -> option exn) (mesh : TriangleMesh) (ip : string)
    (port chunk : Z) (w : World) :
  chunk < 0 ->
  let m := send_mesh_udp float_repr net mesh ip port chunk in
  m w = (Return (Z.of_nat (length (payload_of float_repr mesh w))), w) /\
  sent_by m w = [] /\ calls_by m w = 0%nat.
Proof.
  intros HC m.
  assert (m w = (Return (Z.of_nat (length (payload_of float_repr mesh w))), w))
    as E.
  { subst m. rewrite send_mesh_udp_from_payload.
    pose proof (payload_length_ge float_repr mesh w) as Hlen.
    set (payload := payload_of float_repr mesh w) in *.
    set (L := Z.of_nat (length payload)).
    unfold send_mesh_udp_from, try_finally, socket_socket.
    unfold bind at 1. unfold bind at 1. unfold bind at 1.
    unfold lift at 1, floordiv. fold L.
    destruct (Z.eqb_spec chunk 0) as [-> | _]; [lia|].
    assert ((L + chunk - 1) / chunk <= 0) as Hparts.
    { destruct (Z.le_gt_cases 0 (L + chunk - 1)) as [Hpos | Hneg].
      - pose proof (Z.div_mod (L + chunk - 1) chunk ltac:(lia)).
        pose proof (Z.mod_neg_bound (L + chunk - 1) chunk ltac:(lia)). nia.
      - rewrite (proj2 (Z.div_small_iff (L + chunk - 1) chunk ltac:(lia))); lia. }
    unfold range, seqZ.
    replace (Z.to_nat ((L + chunk - 1) / chunk)) with 0%nat by lia.
    unfold sock_close, set_open, ret, bind. simpl. by rewrite world_eta. }
  split; [exact E|]. unfold sent_by, calls_by, tried_by. rewrite E. simpl.
  by rewrite !drop_all.
Qed.

Lemma negative_chunk_sends_nothing_witness :
  let m := send_mesh_udp whole_float_repr quiet square "192.168.0.10" 51234 (-16) in
  m world0 = (Return (Z.of_nat (length (payload_of whole_float_repr square world0))),
              world0) /\
  sent_by m world0 = [] /\ calls_by m world0 = 0%nat.
Proof.
  apply (negative_chunk_sends_nothing whole_float_repr quiet square
           "192.168.0.10" 51234 (-16) world0).
  lia.
Defined.

(** ** The size of what goes out *)

Lemma sum_lengths_bodies (pkts : list datagram) :
  Forall (fun d => length (fst d) = (8 + length (datagram_body d))%nat) pkts ->
  sum_list_with (fun d => length (fst d)) pkts
  = (8 * length pkts + length (concat (datagram_body <$> pkts)))%nat.
Proof.
  induction 1 as [|d pkts Hd _ IH]; [done|].
  csimpl. rewrite IH, Hd, length_app. lia.
Qed.

Lemma packet_length (data : bytes) (ip : string) (port chunk : Z) (k : nat) :
  1 <= chunk ->
  Z.of_nat k < ceil_div (Z.of_nat (length data)) chunk <= 65535 ->
  let d := packet data chunk (ceil_div (Z.of_nat (length data)) chunk)
             (ip, port) (Z.of_nat k) in
  length (fst d) = (8 + length (datagram_body d))%nat /\
  datagram_body d = take (Z.to_nat chunk) (drop (k * Z.to_nat chunk) data).
Proof.
  intros HC Hk d.
  destruct (packet_fields data ip port chunk k HC Hk)
    as (i1 & i0 & t1 & t0 & E & _).
  subst d. unfold datagram_body. rewrite E.
  change (encode "ARC" ++ [x01] ++ [i1; i0] ++ [t1; t0] ++ ?b)
    with ([x41; x52; x43; x01; i1; i0; t1; t0] ++ b).
  rewrite drop_app_length' by done. rewrite length_app. done.
Qed.

(** X4: when [send_mesh_udp] returns, with a chunk size of at least one,
    the octets it has put on the wire are those of the payload and 8 more
    for each of the ceil(L/C) datagrams. *)
Theorem wire_overhead (float_repr : float -> string) (net : nat -> option exn)
    (mesh : TriangleMesh) (ip : string) (port chunk : Z) (w : World) (r : Z) :
  1 <= chunk ->
  let m := send_mesh_udp float_repr net mesh ip port chunk in
  let L := Z.of_nat (length (payload_of float_repr mesh w)) in
  result_of m w = Return r ->
  r = L /\
  Z.of_nat (sum_list_with (fun d => length (fst d)) (sent_by m w))
  = L + 8 * ceil_div L chunk.
Proof.
  intros HC m L Hr. subst m. unfold result_of, sent_by in *.
  rewrite send_mesh_udp_from_payload in *.
  set (payload := payload_of float_repr mesh w) in *.
  fold (sent_by (send_mesh_udp_from net payload ip port chunk) w).
  fold (result_of (send_mesh_udp_from net payload ip port chunk) w) in Hr.
  destruct (send_from_cases net payload ip port chunk w HC)
    as [[_ E] | (Hn & k & _ & _ & Es & _ & Hres)].
  { unfold result_of in Hr. rewrite E in Hr. discriminate Hr. }
  destruct Hres as [(-> & Hr' & _) | (_ & e & _ & Hr' & _)];
    rewrite Hr' in Hr; [|discriminate Hr].
  injection Hr as <-. split; [done|].
  rewrite Es, firstn_all. fold L in Hn |- *.
  set (n := ceil_div L chunk) in *.
  rewrite sum_lengths_bodies.
  - rewrite concat_bodies by done. rewrite length_fmap, length_range.
    pose proof (ceil_div_nonneg L chunk HC ltac:(lia)) as Hn0. fold n in Hn0.
    clearbody n. subst L. lia.
  - apply list.Forall_forall. intros d Hd.
    apply list_elem_of_lookup in Hd as (i & Hi).
    rewrite <- (firstn_all (_ <$> _)) in Hi.
    apply pkts_lookup in Hi as (_ & Hi & ->).
    apply packet_length; [done|]. split; [exact Hi | exact Hn].
Qed.

Lemma wire_overhead_witness :
  let m := send_mesh_udp whole_float_repr quiet square "192.168.0.10" 51234 16 in
  143 = Z.of_nat (length (payload_of whole_float_repr square world0)) /\
  Z.of_nat (sum_list_with (fun d => length (fst d)) (sent_by m world0))
  = Z.of_nat (length (payload_of whole_float_repr square world0))
    + 8 * ceil_div (Z.of_nat (length (payload_of whole_float_repr square world0))) 16.
Proof.
  apply (wire_overhead whole_float_repr quiet square "192.168.0.10" 51234 16
           world0 143).
  - lia.
  - vm_compute. reflexivity.
Defined.

(** X5: no datagram is passed to [sendto] with an empty body: of the
    ceil(L/C) datagrams of a payload, all but the last carry exactly C
    bytes of it, and the last carries the L - (ceil(L/C) - 1) * C bytes
    that remain, at least one and at most C. *)
Theorem fragment_sizes (float_repr : float -> string) (net : nat -> option exn)
    (mesh : TriangleMesh) (ip : string) (port chunk : Z) (w : World)
    (k : nat) (d : datagram) :
  tried_by (send_mesh_udp float_repr net mesh ip port chunk) w !! k = Some d ->
  let L := Z.of_nat (length (payload_of float_repr mesh w)) in
  let n := ceil_div L chunk in
  let size := Z.of_nat (length (datagram_body d)) in
  1 <= size <= chunk /\
  (Z.of_nat k < n - 1 -> size = chunk) /\
  (Z.of_nat k = n - 1 -> size = L - (n - 1) * chunk).
Proof.
  intros Hd. apply mesh_tried_lookup in Hd as (HC & Hk & ->).
  destruct (packet_length (payload_of float_repr mesh w) ip port chunk k HC Hk)
    as (_ & Eb).
  cbv zeta. rewrite Eb, length_take, length_drop.
  pose proof (ceil_div_bounds (Z.of_nat (length (payload_of float_repr mesh w)))
                chunk HC) as Hb.
  set (n := ceil_div _ chunk) in *. clearbody n. nia.
Qed.

Lemma fragment_sizes_witness :
  exists d,
    tried_by (send_mesh_udp whole_float_repr quiet square "192.168.0.10" 51234 16)
             world0 !! 8%nat = Some d /\
    let L := Z.of_nat (length (payload_of whole_float_repr square world0)) in
    let n := ceil_div L 16 in
    let size := Z.of_nat (length (datagram_body d)) in
    1 <= size <= 16 /\
    (Z.of_nat 8 < n - 1 -> size = 16) /\
    (Z.of_nat 8 = n - 1 -> size = L - (n - 1) * 16).
Proof.
  eexists. split.
  - vm_compute. reflexivity.
  - apply (fragment_sizes whole_float_repr quiet square "192.168.0.10" 51234 16
             world0 8).
    vm_compute. reflexivity.
Defined.

(** ** The characters of a payload *)

Lemma printable_append (a b : string) :
  printable_text (String.append a b) = printable_text a && printable_text b.
Proof.
  induction a as [|c a IH]; [done|].
  rewrite append_cons. simpl. by rewrite IH, andb_assoc.
Qed.

Lemma printable_concat (sep : string) (l : list string) :
  printable_text sep = true ->
  Forall (fun s => printable_text s = true) l ->
  printable_text (String.concat sep l) = true.
Proof.
  intros Hsep. induction 1 as [|s l Hs Hl IH]; [done|].
  destruct l as [|s' l]; [done|].
  change (String.concat sep (s :: s' :: l))
    with (String.append s (String.append sep (String.concat sep (s' :: l)))).
  by rewrite !printable_append, Hs, Hsep, IH.
Qed.

Lemma printable_uint (d : Decimal.uint) :
  printable_text (NilEmpty.string_of_uint d) = true.
Proof. induction d; simpl; done. Qed.

Lemma printable_int_repr (z : Z) : printable_text (int_repr z) = true.
Proof.
  unfold int_repr. destruct z as [|p|p]; [done| |]; simpl;
    unfold NilZero.string_of_uint;
    pose proof (printable_uint (Pos.to_uint p)) as Hd;
    destruct (Pos.to_uint p); try done; by simpl in *.
Qed.

Lemma printable_float_text (float_repr : float -> string) (x : float) :
  (forall y, printable_text (float_repr y) = true) ->
  printable_text (float_text float_repr x) = true.
Proof.
  intros H. unfold float_text, floatstr.
  by repeat match goal with |- context [if ?b then _ else _] => destruct b end.
Qed.

Lemma printable_encode (s : string) :
  printable_text s = true ->
  Forall (fun b => (32 <= Byte.to_N b <= 126)%N) (encode s).
Proof.
  unfold encode, list_byte_of_string.
  induction s as [|c s IH]; simpl; [constructor|].
  intros [Hc Hs]%andb_true_iff. constructor; [|by apply IH].
  pose proof (byte_of_ascii_via_N c) as E. symmetry in E.
  apply Byte.to_of_N in E. rewrite E. unfold printable in Hc.
  apply andb_true_iff in Hc as [H1%N.leb_le H2%N.leb_le]. done.
Qed.

(** X6: the payload of [_pack_mesh] is printable ASCII on a single line,
    whatever the mesh, provided the text Python writes for a float is:
    every octet lies between the space (32) and the tilde (126), so there
    is no control character, no line break and no octet above 127, and
    the UTF-8 encoding of line 559 writes one octet per character. *)
Theorem payload_printable (float_repr : float -> string) (mesh : TriangleMesh)
    (w : World) :
  (forall x, printable_text (float_repr x) = true) ->
  exists payload,
    _pack_mesh float_repr mesh w = (Return payload, w) /\
    Forall (fun b => (32 <= Byte.to_N b <= 126)%N) payload.
Proof.
  intros Hrepr. eexists. split; [apply pack_mesh_spec|].
  apply printable_encode. unfold payload_text.
  apply printable_concat; [done|].
  repeat apply Forall_cons_2; try apply Forall_nil_2; try done.
  - apply printable_concat; [done|]. apply Forall_fmap, list.Forall_forall.
    intros x _. by apply printable_float_text.
  - apply printable_concat; [done|]. apply Forall_fmap, list.Forall_forall.
    intros z _. apply printable_int_repr.
  - by apply printable_float_text.
Qed.

Lemma whole_float_repr_printable (x : float) :
  printable_text (whole_float_repr x) = true.
Proof.
  unfold whole_float_repr. destruct (Prim2SF x) as [[|]|[|]| |s m e]; try done.
  by rewrite printable_append, printable_int_repr.
Qed.

Lemma payload_printable_witness :
  exists payload,
    _pack_mesh whole_float_repr square world0 = (Return payload, world0) /\
    Forall (fun b => (32 <= Byte.to_N b <= 126)%N) payload.
Proof.
  apply (payload_printable whole_float_repr square world0).
  exact whole_float_repr_printable.
Defined.

(** * The viewer in words and numbers *)

(** ** Counts with their thousands apart *)

Lemma remove_commas_group (digits : string) :
  Viewer.no_comma digits = true ->
  Viewer.remove_commas (Viewer.group_thousands digits) = digits.
Proof.
  induction digits as [|c rest IH]; [done|]. simpl.
  intros [Hc Hrest]%andb_true_iff. apply negb_true_iff in Hc.
  destruct (_ && _); simpl; rewrite Hc, ?append_cons, ?append_nil_l; simpl;
    by rewrite IH.
Qed.

Lemma no_comma_uint (d : Decimal.uint) :
  Viewer.no_comma (NilEmpty.string_of_uint d) = true.
Proof. induction d; simpl; done. Qed.

Lemma no_comma_pos (p : positive) : Viewer.no_comma (int_repr (Z.pos p)) = true.
Proof.
  unfold int_repr. simpl. unfold NilZero.string_of_uint.
  pose proof (no_comma_uint (Pos.to_uint p)) as Hd.
  destruct (Pos.to_uint p); try done; by simpl in *.
Qed.

Lemma int_repr_neg (p : positive) :
  int_repr (Z.neg p) = String "-" (int_repr (Z.pos p)).
Proof. reflexivity. Qed.

Lemma int_repr_inj (a b : Z) : int_repr a = int_repr b -> a = b.
Proof.
  unfold int_repr. intros E.
  apply (f_equal NilZero.int_of_string) in E.
  assert (forall z : Z, NilZero.int_of_string (NilZero.string_of_int (Z.to_int z))
                        = Some (Z.to_int z)) as Hrt.
  { intros z. apply NilZero.isi.
    - destruct z; simpl; try done;
        intros [= H]; by apply DecimalPos.Unsigned.to_uint_nonnil in H.
    - destruct z; simpl; try done;
        intros [= H]; by apply DecimalPos.Unsigned.to_uint_nonnil in H. }
  rewrite !Hrt in E. injection E as E.
  apply (f_equal Z.of_int) in E. by rewrite !DecimalZ.of_to in E.
Qed.

(** X7: the count [format(n, ",")] writes, as in the statistics of the
    panel and in the descriptions, is the decimal text of [n] once its
    commas are taken out; so counts that differ are written
    differently. *)
Theorem format_comma_reads_back (n : Z) :
  Viewer.remove_commas (Viewer.format_comma n) = int_repr n /\
  (forall m, Viewer.format_comma n = Viewer.format_comma m -> n = m).
Proof.
  assert (forall z, Viewer.remove_commas (Viewer.format_comma z) = int_repr z) as H.
  { intros z. unfold Viewer.format_comma. destruct z as [|p|p]; [done| |].
    - simpl. apply remove_commas_group, no_comma_pos.
    - simpl. rewrite append_nil_l. change (- Z.neg p) with (Z.pos p).
      rewrite remove_commas_group by apply no_comma_pos.
      by rewrite int_repr_neg. }
  split; [apply H|]. intros m E. apply int_repr_inj.
  by rewrite <- !H, E.
Qed.

(** ** The description of a mesh *)

Lemma analyze_model_done (o3d : Viewer.Geometry) (mesh : TriangleMesh)
    (name : string) :
  (forall m, Viewer.is_watertight o3d m = true ->
             exists v, Viewer.get_volume o3d m = Viewer.Done v) ->
  exists analysis,
    Viewer.analyze_model o3d mesh name = Viewer.Done analysis /\
    (Viewer.Analysis.is_watertight analysis = true ->
     exists v, Viewer.Analysis.volume analysis = Viewer.Float v) /\
    Viewer.Analysis.name analysis = name /\
    Viewer.Analysis.vertices analysis = Z.of_nat (length (vertices mesh)) /\
    Viewer.Analysis.triangles analysis = Z.of_nat (length (triangles mesh)) /\
    Viewer.Analysis.is_watertight analysis = Viewer.is_watertight o3d mesh /\
    (Viewer.is_watertight o3d mesh = false ->
     Viewer.Analysis.volume analysis = Viewer.Int 0).
Proof.
  intros Hvol. unfold Viewer.analyze_model.
  destruct (Viewer.is_watertight o3d mesh) eqn:Hw.
  - destruct (Hvol mesh Hw) as [v ->]. eexists. split; [reflexivity|].
    simpl. split; [by exists v|]. done.
  - eexists. split; [reflexivity|]. simpl. done.
Qed.

Lemma generate_description_done (analysis : Viewer.Analysis.t) :
  (Viewer.Analysis.is_watertight analysis = true ->
   exists v, Viewer.Analysis.volume analysis = Viewer.Float v) ->
  exists text, Viewer.generate_description analysis = Viewer.Done text.
Proof.
  intros Hvol. unfold Viewer.generate_description.
  destruct (Viewer.Analysis.is_watertight analysis); [|by eexists].
  destruct Hvol as [v ->]; [done|]. by eexists.
Qed.

(** X8: a mesh is described without an exception whenever the library
    gives the volume of the meshes it calls watertight: [analyze_model]
    asks for the volume of no other mesh (Open3D raises on those), the
    counts are those of the mesh, and [generate_description] finds the
    volume of a watertight mesh a [float], never the [int] zero it
    stands for otherwise. *)
Theorem describe_never_fails (o3d : Viewer.Geometry) (mesh : TriangleMesh)
    (name : string) :
  (forall m, Viewer.is_watertight o3d m = true ->
             exists v, Viewer.get_volume o3d m = Viewer.Done v) ->
  exists analysis text,
    Viewer.analyze_model o3d mesh name = Viewer.Done analysis /\
    Viewer.generate_description analysis = Viewer.Done text /\
    Viewer.Analysis.name analysis = name /\
    Viewer.Analysis.vertices analysis = Z.of_nat (length (vertices mesh)) /\
    Viewer.Analysis.triangles analysis = Z.of_nat (length (triangles mesh)) /\
    Viewer.Analysis.is_watertight analysis = Viewer.is_watertight o3d mesh /\
    (Viewer.is_watertight o3d mesh = false ->
     Viewer.Analysis.volume analysis = Viewer.Int 0).
Proof.
  intros Hvol.
  destruct (analyze_model_done o3d mesh name Hvol) as (a & Ea & Hf & Hrest).
  destruct (generate_description_done a Hf) as (text & Et).
  exists a, text. split; [exact Ea|]. split; [exact Et | exact Hrest].
Qed.

Lemma describe_never_fails_witness :
  exists analysis text,
    Viewer.analyze_model Viewer.solid_geometry square "square.obj"
    = Viewer.Done analysis /\
    Viewer.generate_description analysis = Viewer.Done text /\
    Viewer.Analysis.name analysis = "square.obj" /\
    Viewer.Analysis.vertices analysis = Z.of_nat (length (vertices square)) /\
    Viewer.Analysis.triangles analysis = Z.of_nat (length (triangles square)) /\
    Viewer.Analysis.is_watertight analysis
    = Viewer.is_watertight Viewer.solid_geometry square /\
    (Viewer.is_watertight Viewer.solid_geometry square = false ->
     Viewer.Analysis.volume analysis = Viewer.Int 0).
Proof.
  apply (describe_never_fails Viewer.solid_geometry square "square.obj").
  intros m Hm. simpl in *. rewrite Hm. by eexists.
Defined.

Import Viewer.

(** * The panel *)

(** ** The order of names and paths *)

Lemma compare_refl (a : string) : String.compare a a = Eq.
Proof. by apply OrderedTypeEx.String_as_OT.cmp_eq. Qed.

Lemma compare_lt_trans (a b c : string) :
  String.compare a b = Lt -> String.compare b c = Lt -> String.compare a c = Lt.
Proof.
  intros H1 H2. apply OrderedTypeEx.String_as_OT.cmp_lt.
  apply OrderedTypeEx.String_as_OT.cmp_lt in H1, H2.
  by eapply OrderedTypeEx.String_as_OT.lt_trans.
Qed.

Lemma compare_gt_lt (a b : string) :
  String.compare a b = Gt -> String.compare b a = Lt.
Proof. intros H. rewrite String.compare_antisym, H. done. Qed.

Lemma path_leb_total (p q : Path) : path_leb p q = true \/ path_leb q p = true.
Proof.
  revert q. induction p as [|a p IH]; intros [|b q]; simpl; auto.
  destruct (String.compare a b) eqn:E.
  - apply String.compare_eq_iff in E as ->. rewrite compare_refl. apply IH.
  - by left.
  - right. by rewrite (compare_gt_lt _ _ E).
Qed.

Lemma path_leb_trans (p q r : Path) :
  path_leb p q = true -> path_leb q r = true -> path_leb p r = true.
Proof.
  revert q r. induction p as [|a p IH]; intros [|b q] [|c r]; simpl; try done.
  destruct (String.compare a b) eqn:E1; [| |done].
  - apply String.compare_eq_iff in E1 as ->.
    destruct (String.compare b c); [apply IH | done | done].
  - destruct (String.compare b c) eqn:E2; [| |done].
    + apply String.compare_eq_iff in E2 as <-. by rewrite E1.
    + by rewrite (compare_lt_trans _ _ _ E1 E2).
Qed.


#[local] Instance path_le_total : Total (fun p q => Is_true (path_leb p q)).
Proof.
  intros p q. destruct (path_leb_total p q) as [H | H]; rewrite H; auto.
Qed.

#[local] Instance path_le_trans : Transitive (fun p q => Is_true (path_leb p q)).
Proof.
  intros p q r H1%Is_true_true H2%Is_true_true. apply Is_true_true.
  by eapply path_leb_trans.
Qed.

(** ** Names and their extensions *)

Lemma path_name_child (dir : Path) (name : string) :
  path_name (path_div dir name) = name \/ (dir = [] /\ name = "/").
Proof.
  unfold path_name, path_div. destruct dir as [|a dir]; simpl.
  - unfold is_root. destruct (String.eqb_spec name "/"); auto.
  - left. destruct dir as [|b dir]; simpl; [done|].
    change (b :: dir ++ [name]) with ((b :: dir) ++ [name]).
    by rewrite last_snoc.
Qed.

Lemma path_suffix_child (dir : Path) (name : string) :
  lower (path_suffix (path_div dir name)) ∈ SUPPORTED_EXTS <-> supported name.
Proof.
  unfold supported, path_suffix.
  destruct (path_name_child dir name) as [-> | [-> ->]]; [done|].
  vm_compute. split; intros H; repeat (apply elem_of_cons in H as [H|H]; [done|]);
    by apply elem_of_nil in H.
Qed.

Lemma path_name_supported (dir : Path) (name : string) :
  supported name -> path_name (path_div dir name) = name.
Proof.
  intros Hs. destruct (path_name_child dir name) as [-> | [-> ->]]; [done|].
  exfalso. revert Hs. unfold supported. vm_compute.
  intros H; repeat (apply elem_of_cons in H as [H|H]; [done|]);
    by apply elem_of_nil in H.
Qed.

Lemma rfind_dot_bound (s : string) : -1 <= rfind_dot s < Z.of_nat (String.length s).
Proof.
  induction s as [|c s IH]; simpl; [lia|].
  destruct (Z.leb_spec 0 (rfind_dot s)); [lia|].
  destruct (Ascii.eqb c "."); lia.
Qed.

Lemma length_lower (s : string) : String.length (lower s) = String.length s.
Proof. induction s as [|c s IH]; simpl; [done | by rewrite IH]. Qed.

Lemma length_substring (n m : nat) (s : string) :
  (n + m <= String.length s)%nat -> String.length (String.substring n m s) = m.
Proof.
  revert n m. induction s as [|c s IH]; intros [|n] [|m]; simpl; try lia;
    intros H; try done.
  - rewrite (IH 0%nat m); [done | simpl; lia].
  - apply IH. lia.
  - apply IH. lia.
Qed.

(** A supported name has a stem: at least one character before the dot
    of its extension. *)
Lemma supported_stem (name : string) :
  supported name -> (5 <= String.length name)%nat.
Proof.
  assert (~ EmptyString ∈ SUPPORTED_EXTS) as Hno.
  { intros Hx. repeat (apply elem_of_cons in Hx as [Hx|Hx]; [done|]).
    by apply elem_of_nil in Hx. }
  unfold supported, suffix_of.
  pose proof (rfind_dot_bound name) as Hb.
  destruct (Z.ltb_spec 0 (rfind_dot name)) as [Hi|Hi]; simpl; [|done].
  destruct (Z.ltb_spec (rfind_dot name) (Z.of_nat (String.length name) - 1))
    as [Hj|Hj]; [|done].
  intros Hin.
  assert (String.length (lower (String.substring (Z.to_nat (rfind_dot name))
            (String.length name - Z.to_nat (rfind_dot name)) name)) = 4%nat) as Hlen.
  { unfold SUPPORTED_EXTS in Hin.
    repeat (apply elem_of_cons in Hin as [-> | Hin]; [done|]).
    by apply elem_of_nil in Hin. }
  rewrite length_lower, length_substring in Hlen by lia. lia.
Qed.

(** ** [_scan] *)





(** ** What the methods do to the state *)

Lemma state_eta (s : App) :
  mkApp (models_dir s) (entries s) (loaded s) (selected s) (show_axes s)
    (double_sided s) (tts_engine s) (tts_thread s) (list_items s) (scene s)
    (scene_axes s) (chk_axes s) (chk_ds s) (stats s) (folder_label s) (log s)
  = s.
Proof. by destruct s. Qed.

Lemma logged_nil (s : App) : logged [] s = s.
Proof. unfold logged, set_log. rewrite app_nil_r. apply state_eta. Qed.

Lemma logged_logged (a b : list effect) (s : App) :
  logged b (logged a s) = logged (a ++ b) s.
Proof. unfold logged, set_log. simpl. by rewrite app_assoc. Qed.

Lemma toast_spec (msg : string) (s : App) :
  _toast msg s = (Done tt, logged [Toast msg] s).
Proof. reflexivity. Qed.

Lemma redraw_spec (lib : Lib) (s : App) :
  _redraw lib s = (Done tt, logged (redraws lib) s).
Proof.
  unfold _redraw, redraws. destruct (has_post_redraw lib); [done|].
  by rewrite logged_nil.
Qed.

Lemma material_spec (lib : Lib) (s : App) :
  _material lib s = (Done (material_for lib (double_sided s)), s).
Proof. reflexivity. Qed.

(** Emptying the scene, name by name. *)
Lemma remove_all (l : list string) (s : App) :
  for_in l (fun g => modify (remove_geometry g)) s
  = (Done tt, set_scene (foldl (fun m g => delete g m) (scene s) l) s).
Proof.
  revert s. induction l as [|g l IH]; intros s; simpl.
  - unfold pure, set_scene. by rewrite state_eta.
  - unfold and_then, modify. rewrite IH. done.
Qed.

Lemma lookup_delete_all {V} (l : list string) (m : gmap string V) (k : string) :
  foldl (fun m g => delete g m) m l !! k = if decide (k ∈ l) then None else m !! k.
Proof.
  revert m. induction l as [|g l IH]; intros m; simpl; [done|].
  rewrite IH. destruct (decide (k ∈ l)) as [Hin | Hout].
  - by rewrite decide_True by by apply list_elem_of_further.
  - destruct (decide (k = g)) as [-> | Hne].
    + rewrite decide_True by apply list_elem_of_here. apply lookup_delete_eq.
    + rewrite decide_False by (rewrite elem_of_cons; tauto).
      by apply lookup_delete_ne.
Qed.

Lemma elem_of_names (s : App) (k : string) :
  k ∈ get_geometry_names s <-> is_Some (scene s !! k).
Proof.
  unfold get_geometry_names. rewrite list_elem_of_fmap. split.
  - intros ([k' x] & -> & Hx). apply elem_of_map_to_list in Hx. by exists x.
  - intros [x Hx]. exists (k, x). split; [done|]. by apply elem_of_map_to_list.
Qed.

Lemma clear_scene (s : App) :
  for_in (get_geometry_names s) (fun g => modify (remove_geometry g)) s
  = (Done tt, set_scene ∅ s).
Proof.
  rewrite remove_all. do 2 f_equal. apply map_empty. intros k.
  rewrite lookup_delete_all. destruct (decide (k ∈ get_geometry_names s)) as [|Hk];
    [done|].
  rewrite elem_of_names in Hk. by apply eq_None_not_Some.
Qed.

Lemma add_geom_spec (lib : Lib) (name : string) (mesh : TriangleMesh) (s : App) :
  _add_geom lib name mesh s
  = (Done tt,
     logged (redraws lib)
       (set_scene (<[name := (mesh, material_for lib (double_sided s))]> (scene s))
          s)).
Proof.
  unfold _add_geom, and_then, get.
  destruct (bool_decide (name ∈ get_geometry_names s)); unfold modify, pure;
    rewrite material_spec; simpl; rewrite redraw_spec; [|done].
  unfold add_geometry, remove_geometry, set_scene. simpl.
  by rewrite insert_delete_eq.
Qed.

(** The statistics count the loaded meshes of the scene. *)
Lemma stats_fold (loaded : gmap string TriangleMesh) (l : list string)
    (v t : Z) :
  foldl (fun '(v, t) name =>
           match loaded !! name with
           | Some m => (v + len (vertices m), t + len (triangles m))
           | None => (v, t)
           end) (v, t) l
  = (v + count_vertices (omap (fun name => loaded !! name) l),
     t + count_triangles (omap (fun name => loaded !! name) l)).
Proof.
  unfold count_vertices, count_triangles, len.
  revert v t. induction l as [|n l IH]; intros v t; simpl.
  - f_equal; lia.
  - destruct (loaded !! n) as [m|]; rewrite IH; [|done].
    csimpl. rewrite !length_app. f_equal; lia.
Qed.

Lemma update_stats_spec (s : App) :
  _update_stats s
  = (Done tt,
     set_stats (stats_text (count_vertices (shown s)) (count_triangles (shown s)))
       s).
Proof.
  unfold _update_stats, and_then, get. rewrite stats_fold. simpl.
  unfold modify, stats_text, shown. done.
Qed.

(** [_load_mesh] never raises: it returns a mesh that has a triangle, or
    nothing after a toast. *)
Lemma load_mesh_spec (env : Env) (path : Path) (s : App) :
  (exists m, _load_mesh env path s = (Done (Some m), s) /\
             read_triangle_mesh env (path_str path) = Done (Some m) /\
             triangles m <> [])
  \/ (exists msg, _load_mesh env path s = (Done None, logged [Toast msg] s) /\
                  forall m, read_triangle_mesh env (path_str path) = Done (Some m) ->
                            triangles m = []).
Proof.
  unfold _load_mesh, try_except, and_then, eval.
  destruct (read_triangle_mesh env (path_str path)) as [[m|]|e]; simpl.
  - unfold len. destruct (Z.eqb_spec (Z.of_nat (length (triangles m))) 0) as [E|E].
    + right. eexists. split; [reflexivity|]. intros m' [= <-].
      destruct (triangles m); [done | simpl in E; lia].
    + left. exists m. split; [done|]. split; [done|].
      intros E'. by rewrite E' in E.
  - right. eexists. split; [reflexivity | done].
  - right. eexists. split; [reflexivity | done].
Qed.

Lemma scan_state (env : Env) (s : App) : snd (_scan env s) = s.
Proof.
  unfold _scan, and_then, get. simpl. by destruct (fs env (models_dir s)).
Qed.

Lemma scan_supported (env : Env) (s : App) (items : list string) :
  fst (_scan env s) = Done items -> Forall supported items.
Proof.
  unfold _scan, and_then, get. simpl.
  destruct (fs env (models_dir s)) as [| |names]; simpl; intros [= <-];
    [constructor|].
  apply Forall_fmap, list.Forall_forall. intros p Hp.
  apply list_elem_of_filter in Hp as [HQ Hp].
  unfold sorted in Hp. rewrite merge_sort_Permutation in Hp.
  apply list_elem_of_fmap in Hp as (n & -> & _). simpl.
  apply path_suffix_child in HQ as Hn. by rewrite path_name_supported.
Qed.

Lemma refresh_list_spec (lib : Lib) (env : Env) (s : App) :
  refresh_list lib env s
  = match fst (_scan env s) with
    | Done items =>
        (Done tt,
         logged (redraws lib)
           (set_folder_label ("Folder:" +:+ newline +:+ path_str (models_dir s))
              (set_entries (entries_of (models_dir s) items)
                 (set_list_items items s))))
    | Raised e => (Raised e, s)
    end.
Proof.
  unfold refresh_list. unfold and_then at 1.
  pose proof (scan_state env s) as Hs.
  destruct (_scan env s) as [[items|e] s']; simpl in *; subst s'; [|done].
  unfold and_then, modify, get, _folder_text, pure. simpl.
  by rewrite redraw_spec.
Qed.

Lemma entries_of_lookup (dir : Path) (items : list string) (name : string) :
  entries_of dir items !! name
  = if decide (name ∈ items) then Some (path_div dir name) else None.
Proof.
  unfold entries_of.
  assert (forall (d : gmap string Path),
            foldl (fun d name => <[name := path_div dir name]> d) d items !! name
            = if decide (name ∈ items) then Some (path_div dir name)
              else d !! name) as H.
  { induction items as [|n items IH]; intros d; simpl; [done|].
    rewrite IH. destruct (decide (name ∈ items)) as [Hin | Hout].
    - by rewrite decide_True by by apply list_elem_of_further.
    - destruct (decide (name = n)) as [-> | Hne].
      + rewrite decide_True by apply list_elem_of_here. apply lookup_insert_eq.
      + rewrite decide_False by (rewrite elem_of_cons; tauto).
        by apply lookup_insert_ne. }
  rewrite H. by destruct (decide (name ∈ items)).
Qed.

(** ** What a method leaves as it is *)

Section Preserves.
Context {T : Type} (f : App -> T).

Lemma preserves_pure {A} (a : A) : preserves f (pure a).
Proof. done. Qed.

Lemma preserves_raise {A} (e : error) : preserves f (@raise A e).
Proof. done. Qed.

Lemma preserves_eval {A} (r : completion A) : preserves f (eval r).
Proof. done. Qed.

Lemma preserves_get : preserves f get.
Proof. done. Qed.

Lemma preserves_getitem {V} (d : gmap string V) (k : string) :
  preserves f (getitem d k).
Proof. intros s. unfold getitem. by destruct (d !! k). Qed.

Lemma preserves_modify (g : App -> App) :
  (forall s, f (g s) = f s) -> preserves f (modify g).
Proof. intros H s. apply H. Qed.

Lemma preserves_and_then {A B} (m : G A) (k : A -> G B) :
  preserves f m -> (forall a, preserves f (k a)) -> preserves f (and_then m k).
Proof.
  intros Hm Hk s. unfold and_then. specialize (Hm s).
  destruct (m s) as [[a|e] s']; simpl in *; [|done].
  by rewrite Hk.
Qed.

Lemma preserves_try_except {A} (m : G A) (h : error -> G A) :
  preserves f m -> (forall e, preserves f (h e)) -> preserves f (try_except m h).
Proof.
  intros Hm Hh s. unfold try_except. specialize (Hm s).
  destruct (m s) as [[a|e] s']; simpl in *; [done|].
  by rewrite Hh.
Qed.

Lemma preserves_for_in {A} (l : list A) (body : A -> G unit) :
  (forall x, preserves f (body x)) -> preserves f (for_in l body).
Proof.
  intros H. induction l as [|x l IH]; simpl; [apply preserves_pure|].
  apply preserves_and_then; [apply H | intros _; apply IH].
Qed.

Lemma preserves_for_list {A B} (l : list A) (body : A -> G B) :
  (forall x, preserves f (body x)) -> preserves f (for_list l body).
Proof.
  intros H. induction l as [|x l IH]; simpl; [apply preserves_pure|].
  apply preserves_and_then; [apply H | intros y].
  apply preserves_and_then; [apply IH | intros ys; apply preserves_pure].
Qed.

End Preserves.

(** Proves [preserves f m] for a method [m] once its callees are
    unfolded: every assignment in it must leave [f] alone. *)
Ltac frame_step :=
  match goal with
  | |- preserves _ (pure _) => apply preserves_pure
  | |- preserves _ (raise _) => apply preserves_raise
  | |- preserves _ (eval _) => apply preserves_eval
  | |- preserves _ get => apply preserves_get
  | |- preserves _ (getitem _ _) => apply preserves_getitem
  | |- preserves _ (modify _) => apply preserves_modify; intros ?; reflexivity
  | |- preserves _ (and_then _ _) => apply preserves_and_then; [|intros ?]
  | |- preserves _ (try_except _ _) => apply preserves_try_except; [|intros ?]
  | |- preserves _ (for_in _ _) => apply preserves_for_in; intros ?
  | |- preserves _ (for_list _ _) => apply preserves_for_list; intros ?
  | |- preserves _ (if ?b then _ else _) => destruct b
  | |- preserves _ (match ?x with _ => _ end) => destruct x
  | |- preserves _ (let '(_, _) := ?x in _) => destruct x
  end.

Ltac frame :=
  unfold describe_scene, describe_model, virtual_ar_preview, _merge, _speak,
    _screenshot, remove_selected, add_selected, display_selected,
    _set_double_sided, _set_axes, _ok, _on_cancel, _choose_folder,
    _on_select, refresh_list, _scan, _load_mesh, _add_geom, _update_stats,
    _frame_scene, _frame_default, _folder_text, _material, _redraw, _toast,
    do;
  repeat frame_step.

Lemma describe_model_quiet (lib : Lib) : preserves panel_of (describe_model lib).
Proof. frame. Qed.

Lemma describe_scene_quiet (lib : Lib) : preserves panel_of (describe_scene lib).
Proof. frame. Qed.

Lemma preview_quiet : preserves panel_of virtual_ar_preview.
Proof. frame. Qed.

Lemma screenshot_quiet (env : Env) : preserves panel_of (_screenshot env).
Proof. frame. Qed.

(** ** The methods as functions of the state *)

Lemma load_mesh_loading (env : Env) (path : Path) (s : App) :
  _load_mesh env path s
  = match loading env path with
    | inl m => (Done (Some m), s)
    | inr msg => (Done None, logged [Toast msg] s)
    end.
Proof.
  unfold _load_mesh, loading, try_except, and_then, eval.
  destruct (read_triangle_mesh env (path_str path)) as [[m|]|e]; simpl; try done.
  unfold len. destruct (triangles m); simpl; done.
Qed.

Lemma placed_spec (lib : Lib) (name : string) (mesh : TriangleMesh)
    (said : string) (s : App) :
  (_add_geom lib name mesh ;; _frame_scene ;; _update_stats ;; _toast said)%gui s
  = (Done tt, placed lib name mesh said s).
Proof.
  unfold and_then. rewrite add_geom_spec. unfold _frame_scene, do, modify.
  rewrite update_stats_spec, toast_spec. unfold placed, logged, shown.
  simpl. by rewrite <- !app_assoc.
Qed.

Lemma display_selected_spec (lib : Lib) (env : Env) (s : App) :
  display_selected lib env s
  = (Done tt,
     if nothing_selected s then logged [Toast "Select a model first"] s
     else
       let s1 := set_scene_axes (show_axes s) (set_scene ∅ s) in
       match entries s !! the_selected s with
       | None => s1
       | Some p =>
           match loading env p with
           | inr msg => logged [Toast msg] s1
           | inl mesh =>
               placed lib (the_selected s) mesh ("Displayed " +:+ the_selected s)
                 (set_loaded {[ the_selected s := mesh ]} s1)
           end
       end).
Proof.
  unfold display_selected. unfold and_then at 1, get at 1.
  destruct (nothing_selected s); [apply toast_spec|].
  unfold and_then at 1. rewrite clear_scene.
  unfold and_then at 1, get at 1. unfold and_then at 1, modify at 1.
  change (entries (set_scene ∅ s)) with (entries s).
  change (the_selected (set_scene ∅ s)) with (the_selected s).
  change (show_axes (set_scene ∅ s)) with (show_axes s).
  destruct (entries s !! the_selected s) as [p|]; [|done].
  unfold and_then at 1. rewrite load_mesh_loading.
  destruct (loading env p) as [mesh|msg]; [|done].
  unfold and_then at 1, modify at 1. apply placed_spec.
Qed.

Lemma add_selected_spec (lib : Lib) (env : Env) (s : App) :
  add_selected lib env s
  = (Done tt,
     if nothing_selected s then logged [Toast "Select a model first"] s
     else
       match entries s !! the_selected s with
       | None => s
       | Some p =>
           match loaded s !! the_selected s with
           | Some mesh =>
               placed lib (the_selected s) mesh ("Added " +:+ the_selected s) s
           | None =>
               match loading env p with
               | inr msg => logged [Toast msg] s
               | inl mesh =>
                   placed lib (the_selected s) mesh ("Added " +:+ the_selected s)
                     (set_loaded (<[the_selected s := mesh]> (loaded s)) s)
               end
           end
       end).
Proof.
  unfold add_selected. unfold and_then at 1, get at 1.
  destruct (nothing_selected s); [apply toast_spec|].
  destruct (entries s !! the_selected s) as [p|]; [|done].
  destruct (loaded s !! the_selected s) as [mesh|]; [apply placed_spec|].
  unfold and_then at 1. rewrite load_mesh_loading.
  destruct (loading env p) as [mesh|msg]; [|done].
  unfold and_then at 1, modify at 1. apply placed_spec.
Qed.

Lemma remove_selected_spec (lib : Lib) (s : App) :
  remove_selected lib s
  = (Done tt,
     if nothing_selected s then s
     else
       let s1 := set_loaded (delete (the_selected s) (loaded s))
                   (set_scene (delete (the_selected s) (scene s)) s) in
       logged (redraws lib)
         (set_stats
            (stats_text (count_vertices (shown s1)) (count_triangles (shown s1)))
            s1)).
Proof.
  unfold remove_selected. unfold and_then at 1, get at 1.
  destruct (nothing_selected s); [done|].
  unfold and_then at 1.
  assert ((if bool_decide (the_selected s ∈ get_geometry_names s)
           then modify (remove_geometry (the_selected s)) else pure tt) s
          = (Done tt, set_scene (delete (the_selected s) (scene s)) s)) as ->.
  { destruct (bool_decide_reflect (the_selected s ∈ get_geometry_names s))
      as [Hin | Hout]; [done|].
    unfold pure. rewrite elem_of_names in Hout.
    apply eq_None_not_Some in Hout. rewrite delete_id by done.
    unfold set_scene. by rewrite state_eta. }
  unfold and_then at 1, modify at 1. unfold and_then at 1.
  rewrite update_stats_spec. rewrite redraw_spec. done.
Qed.

Lemma set_axes_spec (lib : Lib) (on : bool) (s : App) :
  _set_axes lib on s
  = (Done tt, logged (redraws lib) (set_scene_axes on (set_show_axes on s))).
Proof. unfold _set_axes, and_then, modify. by rewrite redraw_spec. Qed.

Lemma rematerial_loop (lib : Lib) (l : list string) (s : App) :
  for_in l (fun name =>
     s' <- get ;;
     if contains (loaded s') name then
       mat <- _material lib ;;
       modify (modify_geometry_material name mat)
     else pure tt)%gui s
  = (Done tt,
     set_scene
       (foldl (fun m name =>
                 if contains (loaded s) name
                 then alter (fun g => (g.1, material_for lib (double_sided s))) name m
                 else m) (scene s) l) s).
Proof.
  revert s. induction l as [|n l IH]; intros s; simpl.
  - unfold pure, set_scene. by rewrite state_eta.
  - unfold and_then at 1. unfold and_then at 1, get at 1.
    destruct (contains (loaded s) n) eqn:E.
    + unfold and_then at 1. rewrite material_spec. unfold modify.
      rewrite IH. reflexivity.
    + unfold pure. rewrite IH. reflexivity.
Qed.

Lemma rematerial_fold (lib : Lib) (on : bool) (ld : gmap string TriangleMesh)
    (l : list string) (m : gmap string (TriangleMesh * MaterialRecord))
    (k : string) :
  foldl (fun m name =>
           if contains ld name
           then alter (fun g => (g.1, material_for lib on)) name m
           else m) m l !! k
  = if decide (k ∈ l) then
      (if contains ld k then (fun g => (g.1, material_for lib on)) <$> m !! k
       else m !! k)
    else m !! k.
Proof.
  revert m. induction l as [|n l IH]; intros m; simpl; [done|].
  rewrite IH. destruct (decide (k = n)) as [-> | Hne].
  - rewrite (decide_True (P := n ∈ n :: l)) by apply list_elem_of_here.
    destruct (contains ld n); [|by destruct (decide (n ∈ l))].
    rewrite lookup_alter_eq. destruct (decide (n ∈ l)); [|done].
    by destruct (m !! n).
  - assert (forall m' : gmap string (TriangleMesh * MaterialRecord),
              (if contains ld n
               then alter (fun g => (g.1, material_for lib on)) n m' else m') !! k
              = m' !! k) as ->.
    { intros m'. destruct (contains ld n); [|done]. by apply lookup_alter_ne. }
    destruct (decide (k ∈ l)) as [Hin | Hout].
    + by rewrite decide_True by by apply list_elem_of_further.
    + by rewrite decide_False by (rewrite elem_of_cons; tauto).
Qed.

Lemma set_double_sided_spec (lib : Lib) (on : bool) (s : App) :
  _set_double_sided lib on s
  = (Done tt,
     logged (redraws lib)
       (set_scene (rematerial lib on (loaded s) (scene s))
          (set_double_sided on s))).
Proof.
  unfold _set_double_sided. unfold and_then at 1, modify at 1.
  unfold and_then at 1, get at 1. unfold and_then at 1.
  rewrite rematerial_loop. rewrite redraw_spec. do 3 f_equal.
  apply map_eq. intros k. simpl. rewrite rematerial_fold.
  unfold rematerial. rewrite map_lookup_imap.
  change (get_geometry_names (set_double_sided on s)) with (get_geometry_names s).
  destruct (decide (k ∈ get_geometry_names s)) as [Hin | Hout].
  - destruct (scene s !! k) as [g|]; simpl; [|by destruct (contains _ _)].
    by destruct (contains (loaded s) k).
  - rewrite elem_of_names in Hout. apply eq_None_not_Some in Hout.
    by rewrite Hout.
Qed.

Lemma on_select_spec (idx : Z) (s : App) :
  _on_select idx s
  = (Done tt,
     if (0 <=? idx) && (idx <? Z.of_nat (length (list_items s)))
     then set_selected (list_items s !! Z.to_nat idx) s else s).
Proof.
  unfold _on_select, and_then, get, len.
  destruct (Z.leb_spec 0 idx) as [H0|]; simpl; [|done].
  destruct (Z.ltb_spec idx (Z.of_nat (length (list_items s)))) as [Hlt|]; [|done].
  destruct (lookup_lt_is_Some_2 (list_items s) (Z.to_nat idx) ltac:(lia))
    as [item ->].
  done.
Qed.

Lemma ok_spec (lib : Lib) (env : Env) (path : Path) (s : App) :
  _ok lib env path s
  = refresh_list lib env
      (set_selected None (set_loaded ∅ (set_models_dir path
                                          (logged [CloseDialog] s)))).
Proof. reflexivity. Qed.

(** ** What holds in every state the panel reaches *)

Lemma Inv_panel (lib : Lib) (s s' : App) :
  panel_of s' = panel_of s -> Inv lib s -> Inv lib s'.
Proof.
  unfold panel_of.
  intros [= Em Ee El Es Ea Ed Et Eli Esc Esa Eca Ecd Est Ef]. unfold Inv.
  by rewrite Ee, El, Es, Ea, Ed, Eli, Esc, Esa, Eca, Ecd.
Qed.

Lemma loading_inl (env : Env) (p : Path) (mesh : TriangleMesh) :
  loading env p = inl mesh ->
  read_triangle_mesh env (path_str p) = Done (Some mesh) /\ triangles mesh <> [].
Proof.
  unfold loading. destruct (read_triangle_mesh env (path_str p)) as [[m|]|e];
    try done.
  destruct (triangles m) eqn:E; [done|]. intros [= <-]. by rewrite E.
Qed.

Lemma selected_name (s : App) :
  nothing_selected s = false ->
  selected s = Some (the_selected s) /\ the_selected s <> EmptyString.
Proof.
  unfold nothing_selected, the_selected. destruct (selected s) as [sel|]; [|done].
  simpl. intros H%String.eqb_neq. done.
Qed.

Lemma Inv_placed (lib : Lib) (name : string) (mesh : TriangleMesh)
    (said : string) (s : App) :
  Inv lib s -> triangles mesh <> [] -> is_Some (selected s) ->
  Inv lib (placed lib name mesh said
             (set_loaded (<[name := mesh]> (loaded s)) s)).
Proof.
  intros (H1 & H1b & H2 & H3 & H4 & H5 & H6) Hm Hsel.
  unfold Inv, placed, logged. simpl.
  split; [done|]. split; [done|]. split; [done|]. split; [|split; [|split]].
  - intros k m. destruct (decide (k = name)) as [-> | Hne].
    + rewrite lookup_insert_eq. by intros [= <-].
    + rewrite lookup_insert_ne by done. apply H3.
  - intros k g mat m. destruct (decide (k = name)) as [-> | Hne].
    + rewrite !lookup_insert_eq. by intros [= <- <-] [= <-].
    + rewrite !lookup_insert_ne by done. apply H4.
  - intros E. rewrite E in Hsel. by destruct Hsel.
  - done.
Qed.

Lemma Inv_display (lib : Lib) (env : Env) (s : App) :
  Inv lib s -> Inv lib (snd (display_selected lib env s)).
Proof.
  intros HI. rewrite display_selected_spec. simpl.
  destruct (nothing_selected s) eqn:Hsel; [exact HI|].
  apply selected_name in Hsel as [Hsel _].
  assert (Inv lib (set_scene_axes (show_axes s) (set_scene ∅ s))) as HI1.
  { destruct HI as (H1 & H1b & (Ha & Hb & Hc) & H3 & H4 & H5 & H6).
    unfold Inv. simpl.
    split; [done|]. split; [done|]. split; [done|]. split; [done|].
    split; [|done]. intros k g mat m Hk. by rewrite lookup_empty in Hk. }
  destruct (entries s !! the_selected s) as [p|]; [|exact HI1].
  destruct (loading env p) as [mesh|msg] eqn:El; [|exact HI1].
  apply loading_inl in El as [_ Hm].
  assert (Inv lib (set_loaded ∅ (set_scene_axes (show_axes s) (set_scene ∅ s))))
    as HI2.
  { destruct HI1 as (H1 & H1b & H2 & H3 & H4 & H5 & H6).
    unfold Inv. simpl in *.
    split; [done|]. split; [done|]. split; [done|]. split; [|done].
    intros k m Hk. by rewrite lookup_empty in Hk. }
  apply (Inv_placed lib (the_selected s) mesh
           ("Displayed " +:+ the_selected s) _ HI2 Hm).
  simpl. by rewrite Hsel.
Qed.

Lemma Inv_add (lib : Lib) (env : Env) (s : App) :
  Inv lib s -> Inv lib (snd (add_selected lib env s)).
Proof.
  intros HI. rewrite add_selected_spec. simpl.
  destruct (nothing_selected s) eqn:Hsel; [exact HI|].
  apply selected_name in Hsel as [Hsel _].
  destruct (entries s !! the_selected s) as [p|]; [|exact HI].
  destruct (loaded s !! the_selected s) as [mesh|] eqn:El.
  - pose proof (Inv_placed lib (the_selected s) mesh
                  ("Added " +:+ the_selected s) s HI) as HP.
    rewrite insert_id in HP by done.
    replace (set_loaded (loaded s) s) with s in HP
      by (unfold set_loaded; by rewrite state_eta).
    apply HP; [|by rewrite Hsel].
    destruct HI as (_ & _ & _ & H3 & _). by eapply H3.
  - destruct (loading env p) as [mesh|msg] eqn:Eload; [|exact HI].
    apply loading_inl in Eload as [_ Hm].
    apply Inv_placed; [done | done | by rewrite Hsel].
Qed.

Lemma Inv_remove (lib : Lib) (s : App) :
  Inv lib s -> Inv lib (snd (remove_selected lib s)).
Proof.
  intros HI. rewrite remove_selected_spec. simpl.
  destruct (nothing_selected s) eqn:Hsel; [exact HI|].
  apply selected_name in Hsel as [Hsel _].
  destruct HI as (H1 & H1b & H2 & H3 & H4 & H5 & H6).
  unfold Inv, logged. simpl.
  split; [done|]. split; [done|]. split; [done|]. split; [|split; [|split]].
  - intros k m [_ Hk]%lookup_delete_Some. by eapply H3.
  - intros k g mat m [_ Hg]%lookup_delete_Some [_ Hk]%lookup_delete_Some.
    by eapply H4.
  - by rewrite Hsel.
  - done.
Qed.

Lemma Inv_set_axes (lib : Lib) (s : App) :
  Inv lib s ->
  Inv lib (snd (_set_axes lib (negb (chk_axes s))
                  (set_chk_axes (negb (chk_axes s)) s))).
Proof.
  intros (H1 & H1b & (Ha & Hb & Hc) & H3 & H4 & H5 & H6).
  rewrite set_axes_spec. unfold Inv, logged. simpl. done.
Qed.

Lemma Inv_set_double_sided (lib : Lib) (s : App) :
  Inv lib s ->
  Inv lib (snd (_set_double_sided lib (negb (chk_ds s))
                  (set_chk_ds (negb (chk_ds s)) s))).
Proof.
  intros (H1 & H1b & (Ha & Hb & Hc) & H3 & H4 & H5 & H6).
  rewrite set_double_sided_spec. unfold Inv, logged. simpl.
  split; [done|]. split; [done|]. split; [done|]. split; [done|].
  split; [|done].
  intros k g mat m Hg Hk. unfold rematerial in Hg.
  rewrite map_lookup_imap in Hg.
  destruct (scene s !! k) as [[g0 mat0]|] eqn:E; [|done]. simpl in Hg.
  unfold contains in Hg. rewrite bool_decide_true in Hg by by rewrite Hk.
  injection Hg as <- <-. destruct (H4 k g0 mat0 m E Hk) as [-> _]. done.
Qed.

Lemma Inv_refresh (lib : Lib) (env : Env) (s : App) :
  Inv lib s -> Inv lib (snd (refresh_list lib env s)).
Proof.
  intros HI. rewrite refresh_list_spec.
  destruct (fst (_scan env s)) as [items|e] eqn:Es; [|exact HI].
  destruct HI as (H1 & H1b & H2 & H3 & H4 & H5 & H6).
  unfold Inv, logged. simpl.
  pose proof (scan_supported env s items Es) as Hsup.
  split; [|split; [done | done]]. split.
  - intros name. rewrite entries_of_lookup.
    destruct (decide (name ∈ items)); split; try done.
  - intros name p. rewrite entries_of_lookup.
    destruct (decide (name ∈ items)) as [Hin|]; [|done]. intros [= <-].
    apply path_name_supported. by eapply list.Forall_forall in Hsup.
Qed.

Lemma Inv_ok (lib : Lib) (env : Env) (path : Path) (s : App) :
  Inv lib s -> Inv lib (snd (_ok lib env path s)).
Proof.
  intros (H1 & H1b & H2 & H3 & H4 & H5 & H6). rewrite ok_spec.
  apply Inv_refresh. unfold Inv, logged. simpl.
  split; [done|]. split; [done|]. split; [done|]. split; [|split; [|done]].
  - intros k m Hk. by rewrite lookup_empty in Hk.
  - intros k g mat m _ Hk. by rewrite lookup_empty in Hk.
Qed.

Lemma Inv_select (lib : Lib) (idx : Z) (s : App) :
  Inv lib s -> Inv lib (snd (_on_select idx s)).
Proof.
  intros HI. rewrite on_select_spec. simpl.
  destruct (Z.leb_spec 0 idx) as [H0|]; simpl; [|done].
  destruct (Z.ltb_spec idx (Z.of_nat (length (list_items s)))) as [Hlt|]; [|done].
  destruct (lookup_lt_is_Some_2 (list_items s) (Z.to_nat idx) ltac:(lia))
    as [item Hitem].
  rewrite Hitem. destruct HI as (H1 & H1b & H2 & H3 & H4 & H5 & H6).
  unfold Inv. simpl.
  split; [done|]. split; [done|]. split; [done|]. split; [done|].
  split; [done|]. split; [done|].
  intros sel [= <-]. eapply list.Forall_forall in H1b; [done|].
  by eapply list_elem_of_lookup_2.
Qed.

Lemma Inv_quiet {A} (lib : Lib) (m : G A) (s : App) :
  preserves panel_of m -> Inv lib s -> Inv lib (snd (m s)).
Proof. intros Hm. apply Inv_panel, Hm. Qed.

Lemma Inv_key (lib : Lib) (env : Env) (ev : KeyEvent) (s : App) :
  Inv lib s -> Inv lib (snd (_on_key lib env ev s)).
Proof.
  intros HI. unfold _on_key. destruct (type ev); [|done].
  repeat match goal with
         | |- context [if bool_decide ?P then _ else _] =>
             destruct (bool_decide P)
         | |- context [if ?k =? ?d then _ else _] => destruct (k =? d)
         end.
  - unfold and_then at 1, modify at 1. unfold and_then at 1, get at 1.
    pose proof (Inv_set_double_sided lib s HI) as H.
    unfold and_then. simpl.
    destruct (_set_double_sided lib (negb (chk_ds s))
                (set_chk_ds (negb (chk_ds s)) s)) as [[[]|e] s']; done.
  - unfold and_then at 1, modify at 1. unfold and_then at 1, get at 1.
    pose proof (Inv_set_axes lib s HI) as H.
    unfold and_then. simpl.
    destruct (_set_axes lib (negb (chk_axes s))
                (set_chk_axes (negb (chk_axes s)) s)) as [[[]|e] s']; done.
  - done.
  - apply Inv_quiet; [|done]. apply preserves_and_then; [apply screenshot_quiet|].
    intros _. apply preserves_pure.
  - pose proof (Inv_remove lib s HI) as H. unfold and_then.
    destruct (remove_selected lib s) as [[[]|e] s']; done.
  - done.
Qed.

Lemma Inv_handle (lib : Lib) (env : Env) (ev : Event) (s : App) :
  Inv lib s -> Inv lib (snd (handle lib env ev s)).
Proof.
  intros HI. destruct ev; simpl.
  - done.
  - done.
  - by apply Inv_ok.
  - by apply Inv_refresh.
  - by apply Inv_select.
  - by apply Inv_display.
  - by apply Inv_add.
  - by apply Inv_remove.
  - by apply Inv_quiet; [apply preview_quiet|].
  - by apply Inv_quiet; [apply describe_model_quiet|].
  - by apply Inv_quiet; [apply describe_scene_quiet|].
  - by apply Inv_set_axes.
  - by apply Inv_set_double_sided.
  - pose proof (Inv_key lib env ev s HI) as H. unfold and_then.
    destruct (_on_key lib env ev s) as [[r|e] s']; done.
  - destruct HI as (H1 & H1b & H2 & H3 & H4 & H5 & H6). by unfold Inv.
Qed.

Lemma Inv_init (lib : Lib) (env : Env) :
  Inv lib (snd (__init__ lib env (fresh lib))).
Proof.
  unfold __init__. unfold and_then at 1, get at 1. unfold and_then at 1, modify at 1.
  unfold and_then at 1, _frame_default, do, modify.
  apply Inv_refresh. unfold Inv, fresh. simpl.
  split; [|split; [constructor|]].
  - split.
    + intros name. split; [by intros ?%elem_of_nil|].
      rewrite lookup_empty. by intros [? ?].
    + intros name p. by rewrite lookup_empty.
  - split; [done|]. split; [|split; [|done]].
    + intros k m Hk. by rewrite lookup_empty in Hk.
    + intros k g mat m Hk. by rewrite lookup_empty in Hk.
Qed.

Lemma reachable_Inv (lib : Lib) (s : App) : reachable lib s -> Inv lib s.
Proof.
  induction 1 as [env | env ev s _ IH]; [apply Inv_init | by apply Inv_handle].
Qed.

Lemma reachable_after (events : list Event) : reachable lib0 (after events).
Proof.
  unfold after. induction events as [|ev events IH] using rev_ind.
  - apply reachable_init.
  - rewrite foldl_app. simpl. by apply reachable_step.
Qed.

(** ** The states the panel reaches *)

(** X10: in every state the panel reaches, each switch agrees with what it
    switches: the box of the axes, the flag [show_axes] and the axes of
    the scene; and the box of the two-sided rendering and the flag
    [double_sided]. *)
Theorem switches_agree (lib : Lib) (s : App) :
  reachable lib s ->
  chk_axes s = show_axes s /\ scene_axes s = show_axes s /\
  chk_ds s = double_sided s.
Proof.
  intros Hr. destruct (reachable_Inv lib s Hr) as (_ & _ & (Ha & Hb & Hc) & _).
  done.
Qed.

Lemma switches_agree_witness :
  let s := after [Key (mkKeyEvent DOWN (ord "l")); ClickDoubleSided] in
  chk_axes s = show_axes s /\ scene_axes s = show_axes s /\
  chk_ds s = double_sided s.
Proof.
  apply (switches_agree lib0
           (after [Key (mkKeyEvent DOWN (ord "l")); ClickDoubleSided])).
  apply reachable_after.
Defined.

(** X11: in every state the panel reaches, every loaded mesh has at least
    one triangle, and a geometry of the scene whose name is loaded is the
    loaded mesh itself, with the material that [_material] makes for the
    current value of [double_sided]. *)
Theorem scene_shows_loaded (lib : Lib) (s : App) :
  reachable lib s ->
  (forall name m, loaded s !! name = Some m -> triangles m <> []) /\
  (forall name g mat m,
     scene s !! name = Some (g, mat) -> loaded s !! name = Some m ->
     g = m /\ mat = material_for lib (double_sided s)).
Proof.
  intros Hr. destruct (reachable_Inv lib s Hr) as (_ & _ & _ & H3 & H4 & _).
  done.
Qed.

Lemma scene_shows_loaded_witness :
  let s := after [Select 0; AddToScene; ClickDoubleSided] in
  (forall name m, loaded s !! name = Some m -> triangles m <> []) /\
  (forall name g mat m,
     scene s !! name = Some (g, mat) -> loaded s !! name = Some m ->
     g = m /\ mat = material_for lib0 (double_sided s)).
Proof.
  apply (scene_shows_loaded lib0 (after [Select 0; AddToScene; ClickDoubleSided])).
  apply reachable_after.
Defined.

(** X12: in every state the panel reaches, the list shows exactly the
    names that [entries] has a path for, each a supported file name and
    the last part of its path; what is selected is a supported file
    name, so never the empty one, though it need not be listed any more;
    and while nothing is selected nothing is loaded. *)
Theorem listed_and_selected (lib : Lib) (s : App) :
  reachable lib s ->
  (forall name, name ∈ list_items s <-> is_Some (entries s !! name)) /\
  (forall name p, entries s !! name = Some p -> path_name p = name) /\
  Forall supported (list_items s) /\
  (forall sel, selected s = Some sel ->
     supported sel /\ nothing_selected s = false) /\
  (selected s = None -> loaded s = ∅).
Proof.
  intros Hr.
  destruct (reachable_Inv lib s Hr) as ((H1 & H1c) & H1b & _ & _ & _ & H5 & H6).
  repeat (split; [done|]). split; [|done].
  intros sel Hsel. split; [by apply H6|].
  unfold nothing_selected. rewrite Hsel. apply String.eqb_neq.
  intros ->. apply H6, supported_stem in Hsel. simpl in Hsel. lia.
Qed.

Lemma listed_and_selected_witness :
  let s := after [Select 1; DisplayModel; RefreshList] in
  (forall name, name ∈ list_items s <-> is_Some (entries s !! name)) /\
  (forall name p, entries s !! name = Some p -> path_name p = name) /\
  Forall supported (list_items s) /\
  (forall sel, selected s = Some sel ->
     supported sel /\ nothing_selected s = false) /\
  (selected s = None -> loaded s = ∅).
Proof.
  apply (listed_and_selected lib0 (after [Select 1; DisplayModel; RefreshList])).
  apply reachable_after.
Defined.

(** ** Loading and showing models *)

(** X13: [_load_mesh] never raises. Whatever the reader does with the file,
    it returns a mesh only if the reader returned that mesh and it has a
    triangle, and then changes nothing; otherwise it returns nothing
    after one toast, which names the file. *)
Theorem load_mesh_never_raises (env : Env) (path : Path) (s : App) :
  (exists m,
     _load_mesh env path s = (Done (Some m), s) /\
     read_triangle_mesh env (path_str path) = Done (Some m) /\
     triangles m <> []) \/
  (exists why,
     _load_mesh env path s
     = (Done None,
        logged [Toast ("Failed to load: " +:+ path_name path +:+ newline +:+ why)]
          s) /\
     forall m, read_triangle_mesh env (path_str path) = Done (Some m) ->
               triangles m = []).
Proof.
  rewrite load_mesh_loading. unfold loading.
  destruct (read_triangle_mesh env (path_str path)) as [[m|]|e].
  - destruct (triangles m) eqn:E.
    + right. eexists. split; [reflexivity|]. by intros m' [= <-].
    + left. exists m. split; [done|]. split; [done|]. by rewrite E.
  - right. eexists. split; [reflexivity | done].
  - right. eexists. split; [reflexivity | done].
Qed.

Lemma loading_read (env : Env) (p : Path) (mesh : TriangleMesh) :
  read_triangle_mesh env (path_str p) = Done (Some mesh) ->
  triangles mesh <> [] -> loading env p = inl mesh.
Proof.
  unfold loading. intros -> Hm. by destruct (triangles mesh).
Qed.

Lemma loading_inr (env : Env) (p : Path) (msg : string) :
  loading env p = inr msg ->
  forall mesh, read_triangle_mesh env (path_str p) = Done (Some mesh) ->
               triangles mesh = [].
Proof.
  unfold loading. destruct (read_triangle_mesh env (path_str p)) as [[m|]|e];
    try done.
  destruct (triangles m) eqn:E; [|done]. by intros _ mesh [= <-].
Qed.

(** X14: [display_selected] with a name selected never raises and keeps
    the selection. If the name has an entry whose file is read as a mesh
    with a triangle, the scene then holds that mesh alone, under the
    name and with the current material, it is the only loaded mesh, and
    the statistics show its counts. If the name has no entry, or its
    file is not read as such a mesh, the scene is left empty, while the
    loaded meshes and the statistics stay as they were. *)
Theorem display_selected_outcome (lib : Lib) (env : Env) (s : App)
    (sel : string) :
  selected s = Some sel -> sel <> EmptyString ->
  let s' := snd (display_selected lib env s) in
  fst (display_selected lib env s) = Done tt /\
  selected s' = Some sel /\
  (forall p mesh,
     entries s !! sel = Some p ->
     read_triangle_mesh env (path_str p) = Done (Some mesh) ->
     triangles mesh <> [] ->
     scene s' = {[ sel := (mesh, material_for lib (double_sided s)) ]} /\
     loaded s' = {[ sel := mesh ]} /\
     stats s' = stats_text (Z.of_nat (length (vertices mesh)))
                           (Z.of_nat (length (triangles mesh)))) /\
  (entries s !! sel = None \/
   (exists p, entries s !! sel = Some p /\
      forall mesh, read_triangle_mesh env (path_str p) = Done (Some mesh) ->
                   triangles mesh = []) ->
   scene s' = ∅ /\ loaded s' = loaded s /\ stats s' = stats s).
Proof.
  intros Hsel Hne s'. subst s'. rewrite display_selected_spec. simpl.
  assert (nothing_selected s = false) as ->.
  { unfold nothing_selected. rewrite Hsel. by apply String.eqb_neq. }
  assert (the_selected s = sel) as -> by (unfold the_selected; by rewrite Hsel).
  split; [done|]. split; [|split].
  - destruct (entries s !! sel) as [p|]; [|done].
    by destruct (loading env p).
  - intros p mesh -> Hread Hm. rewrite (loading_read env p mesh Hread Hm).
    unfold placed, logged. simpl. split; [by rewrite insert_empty|].
    split; [done|].
    unfold shown, get_geometry_names. simpl.
    rewrite insert_empty, map_to_list_singleton. simpl.
    rewrite lookup_singleton_eq. simpl.
    unfold count_vertices, count_triangles. csimpl. by rewrite !app_nil_r.
  - intros [-> | (p & -> & Hbad)]; [done|].
    destruct (loading env p) as [mesh|msg] eqn:El; [|done].
    apply loading_inl in El as [Hread Hm]. by apply Hbad in Hread.
Qed.

Lemma display_selected_outcome_witness :
  let s := after [Select 0] in
  let s' := snd (display_selected lib0 env0 s) in
  fst (display_selected lib0 env0 s) = Done tt /\
  selected s' = Some "a.OBJ" /\
  (forall p mesh,
     entries s !! "a.OBJ" = Some p ->
     read_triangle_mesh env0 (path_str p) = Done (Some mesh) ->
     triangles mesh <> [] ->
     scene s' = {[ "a.OBJ" := (mesh, material_for lib0 (double_sided s)) ]} /\
     loaded s' = {[ "a.OBJ" := mesh ]} /\
     stats s' = stats_text (Z.of_nat (length (vertices mesh)))
                           (Z.of_nat (length (triangles mesh)))) /\
  (entries s !! "a.OBJ" = None \/
   (exists p, entries s !! "a.OBJ" = Some p /\
      forall mesh, read_triangle_mesh env0 (path_str p) = Done (Some mesh) ->
                   triangles mesh = []) ->
   scene s' = ∅ /\ loaded s' = loaded s /\ stats s' = stats s).
Proof.
  apply (display_selected_outcome lib0 env0 (after [Select 0]) "a.OBJ").
  - vm_compute. reflexivity.
  - discriminate.
Defined.

(** X15: [add_selected] reads no file for a model that is already loaded:
    whatever is in the folder by then and whatever the reader would do,
    the loaded mesh is put in the scene under its name, in place of a
    geometry of that name, and the loaded meshes stay as they are. *)
Theorem add_selected_uses_loaded (lib : Lib) (env env' : Env) (s : App)
    (sel : string) (mesh : TriangleMesh) :
  selected s = Some sel -> sel <> EmptyString ->
  loaded s !! sel = Some mesh ->
  add_selected lib env s = add_selected lib env' s /\
  loaded (snd (add_selected lib env s)) = loaded s /\
  (is_Some (entries s !! sel) ->
   scene (snd (add_selected lib env s))
   = <[sel := (mesh, material_for lib (double_sided s))]> (scene s)).
Proof.
  intros Hsel Hne Hl. rewrite !add_selected_spec. simpl.
  assert (nothing_selected s = false) as ->.
  { unfold nothing_selected. rewrite Hsel. by apply String.eqb_neq. }
  assert (the_selected s = sel) as -> by (unfold the_selected; by rewrite Hsel).
  rewrite Hl. destruct (entries s !! sel) as [p|].
  - split; [done|]. split; [done|]. done.
  - split; [done|]. split; [done|]. by intros [? ?].
Qed.

Lemma add_selected_uses_loaded_witness :
  let s := after [Select 0; AddToScene] in
  add_selected lib0 env0 s
  = add_selected lib0 (mkEnv (fun _ => Missing)
                         (fun _ => Raised (Error "OSError" "gone"))
                         (fun _ => Done tt) false 0%float) s /\
  loaded (snd (add_selected lib0 env0 s)) = loaded s /\
  (is_Some (entries s !! "a.OBJ") ->
   scene (snd (add_selected lib0 env0 s))
   = <["a.OBJ" := (square, material_for lib0 (double_sided s))]> (scene s)).
Proof.
  apply (add_selected_uses_loaded lib0 env0 _ (after [Select 0; AddToScene])
           "a.OBJ" square).
  - vm_compute. reflexivity.
  - discriminate.
  - vm_compute. reflexivity.
Defined.

(** X16: [remove_selected] with a name selected never raises; afterwards
    the name is neither in the scene nor loaded, every other geometry
    and loaded mesh is as before, the name stays selected, and the
    statistics show the counts of what is left. *)
Theorem remove_selected_outcome (lib : Lib) (s : App) (sel : string) :
  selected s = Some sel -> sel <> EmptyString ->
  let s' := snd (remove_selected lib s) in
  fst (remove_selected lib s) = Done tt /\
  scene s' = delete sel (scene s) /\ loaded s' = delete sel (loaded s) /\
  scene s' !! sel = None /\ loaded s' !! sel = None /\
  selected s' = Some sel /\
  stats s' = stats_text (count_vertices (shown s')) (count_triangles (shown s')).
Proof.
  intros Hsel Hne s'. subst s'. rewrite remove_selected_spec. simpl.
  assert (nothing_selected s = false) as ->.
  { unfold nothing_selected. rewrite Hsel. by apply String.eqb_neq. }
  assert (the_selected s = sel) as -> by (unfold the_selected; by rewrite Hsel).
  unfold logged. simpl. rewrite !lookup_delete_eq. done.
Qed.

Lemma remove_selected_outcome_witness :
  let s := after [Select 0; AddToScene] in
  let s' := snd (remove_selected lib0 s) in
  fst (remove_selected lib0 s) = Done tt /\
  scene s' = delete "a.OBJ" (scene s) /\ loaded s' = delete "a.OBJ" (loaded s) /\
  scene s' !! "a.OBJ" = None /\ loaded s' !! "a.OBJ" = None /\
  selected s' = Some "a.OBJ" /\
  stats s' = stats_text (count_vertices (shown s')) (count_triangles (shown s')).
Proof.
  apply (remove_selected_outcome lib0 (after [Select 0; AddToScene]) "a.OBJ").
  - vm_compute. reflexivity.
  - discriminate.
Defined.

(** X17: adding the selected model and removing it again brings the scene
    and the loaded meshes back to what they were, provided the name was
    neither in the scene nor loaded before: whether the file could be
    read or not, only the log has grown and the statistics are written
    anew, for what the scene shows. *)
Theorem add_then_remove (lib : Lib) (env : Env) (s : App) (sel : string) :
  selected s = Some sel -> sel <> EmptyString ->
  scene s !! sel = None -> loaded s !! sel = None ->
  let s' := snd (remove_selected lib (snd (add_selected lib env s))) in
  scene s' = scene s /\ loaded s' = loaded s /\
  selected s' = Some sel /\ entries s' = entries s /\
  stats s' = stats_text (count_vertices (shown s)) (count_triangles (shown s)).
Proof.
  intros Hsel Hne Hscene Hloaded.
  assert (nothing_selected s = false) as Hns.
  { unfold nothing_selected. rewrite Hsel. by apply String.eqb_neq. }
  assert (the_selected s = sel) as Hthe.
  { unfold the_selected. by rewrite Hsel. }
  rewrite add_selected_spec, Hns, Hthe, Hloaded. cbn [snd].
  set (s1 := match entries s !! sel with
             | Some p => _
             | None => s
             end).
  assert (selected s1 = Some sel /\ entries s1 = entries s /\
          delete sel (scene s1) = scene s /\
          delete sel (loaded s1) = loaded s) as (Hsel1 & Hent1 & Hsc1 & Hld1).
  { subst s1. destruct (entries s !! sel) as [p|].
    - destruct (loading env p) as [mesh|msg]; simpl.
      + by rewrite !delete_insert_id.
      + by rewrite !delete_id.
    - by rewrite !delete_id. }
  assert (nothing_selected s1 = false) as Hns1.
  { unfold nothing_selected. rewrite Hsel1. by apply String.eqb_neq. }
  assert (the_selected s1 = sel) as Hthe1.
  { unfold the_selected. by rewrite Hsel1. }
  rewrite remove_selected_spec, Hns1, Hthe1. cbn [snd]. simpl.
  split; [exact Hsc1|]. split; [exact Hld1|]. split; [exact Hsel1|].
  split; [exact Hent1|].
  unfold shown, get_geometry_names. simpl. by rewrite Hsc1, Hld1.
Qed.

Lemma add_then_remove_witness :
  let s := after [Select 0] in
  let s' := snd (remove_selected lib0 (snd (add_selected lib0 env0 s))) in
  scene s' = scene s /\ loaded s' = loaded s /\
  selected s' = Some "a.OBJ" /\ entries s' = entries s /\
  stats s' = stats_text (count_vertices (shown s)) (count_triangles (shown s)).
Proof.
  apply (add_then_remove lib0 env0 (after [Select 0]) "a.OBJ").
  - vm_compute. reflexivity.
  - discriminate.
  - vm_compute. reflexivity.
  - vm_compute. reflexivity.
Defined.

(** ** The mesh of the preview *)

Lemma merge_meshes (ld : gmap string TriangleMesh) (names : list string)
    (s : App) :
  for_list (filter (fun n => contains ld n = true) names) (fun n => getitem ld n) s
  = (Done (omap (fun n => ld !! n) names), s).
Proof.
  induction names as [|n names IH]; [done|].
  rewrite filter_cons.
  destruct (decide (contains ld n = true)) as [Hc | Hc].
  - apply bool_decide_eq_true in Hc as [m E].
    simpl. unfold and_then at 1, getitem at 1. rewrite E. unfold pure at 1.
    unfold and_then at 1. rewrite IH. unfold pure. done.
  - rewrite IH. simpl. destruct (ld !! n) as [m|] eqn:E; [|done].
    exfalso. apply Hc. apply bool_decide_eq_true. by rewrite E.
Qed.

Lemma merge_spec (s : App) :
  _merge s
  = (Done (match shown s with
           | [] => None
           | _ => Some (foldl mesh_add (mkMesh [] []) (shown s))
           end), s).
Proof.
  unfold _merge. unfold and_then at 1, get at 1. unfold and_then at 1.
  rewrite merge_meshes. fold (shown s). by destruct (shown s).
Qed.

Lemma mesh_add_vertices (out m : TriangleMesh) :
  vertices (mesh_add out m) = vertices out ++ vertices m.
Proof.
  unfold mesh_add. destruct (vertices m) eqn:E; simpl; [|done].
  by rewrite app_nil_r.
Qed.

Lemma well_indexed_no_vertices (m : TriangleMesh) :
  well_indexed m -> vertices m = [] -> triangles m = [].
Proof.
  unfold well_indexed. intros H E. rewrite E in H. simpl in H.
  destruct (triangles m) as [|[[a b] c] l]; [done|].
  apply Forall_cons in H as [H _]. lia.
Qed.

Lemma mesh_add_well_indexed (out m : TriangleMesh) :
  well_indexed out -> well_indexed m ->
  well_indexed (mesh_add out m) /\
  length (triangles (mesh_add out m))
  = (length (triangles out) + length (triangles m))%nat.
Proof.
  intros Hout Hm. unfold mesh_add.
  destruct (vertices m) as [|v vs] eqn:E.
  - rewrite (well_indexed_no_vertices m Hm E). simpl. split; [done | lia].
  - rewrite <- E. unfold well_indexed in *. simpl. split.
    + apply Forall_app. split.
      * eapply Forall_impl; [exact Hout|]. intros [[a b] c].
        rewrite length_app. lia.
      * apply Forall_fmap. eapply Forall_impl; [exact Hm|].
        intros [[a b] c]. simpl. unfold len. rewrite length_app. lia.
    + by rewrite length_app, length_fmap.
Qed.

Lemma merged (meshes : list TriangleMesh) (out : TriangleMesh) :
  well_indexed out -> Forall well_indexed meshes ->
  let all := foldl mesh_add out meshes in
  vertices all = vertices out ++ (meshes ≫= vertices) /\
  length (triangles all)
  = (length (triangles out) + length (meshes ≫= triangles))%nat /\
  well_indexed all.
Proof.
  intros Hout Hall. revert out Hout.
  induction Hall as [|m meshes Hm _ IH]; intros out Hout; cbn [foldl].
  - simpl. rewrite app_nil_r. split; [done|]. split; [lia | done].
  - destruct (mesh_add_well_indexed out m Hout Hm) as [Hwi Hlen].
    destruct (IH (mesh_add out m) Hwi) as (Hv & Ht & Hw).
    rewrite Hv, Ht, Hlen, mesh_add_vertices, !bind_cons.
    rewrite <- app_assoc. split; [done|]. split; [|done].
    rewrite length_app. lia.
Qed.

(** X18: [_merge] never raises, although it subscripts [loaded], and
    changes nothing. It returns nothing exactly when no geometry of the
    scene is loaded. Otherwise, when the triangles of every loaded mesh
    index its own vertices, the mesh it returns has the vertices of the
    loaded meshes of the scene one after the other, as many triangles as
    they have together, all indexing its own vertices; these are the
    counts that [_update_stats] writes in the statistics. *)
Theorem merge_is_what_stats_count (s : App) :
  (forall name m, loaded s !! name = Some m -> well_indexed m) ->
  exists r,
    _merge s = (Done r, s) /\
    stats (snd (_update_stats s))
    = stats_text (count_vertices (shown s)) (count_triangles (shown s)) /\
    match r with
    | None => shown s = []
    | Some out =>
        shown s <> [] /\
        vertices out = shown s ≫= vertices /\
        Z.of_nat (length (vertices out)) = count_vertices (shown s) /\
        Z.of_nat (length (triangles out)) = count_triangles (shown s) /\
        well_indexed out
    end.
Proof.
  intros Hwi. eexists. split; [apply merge_spec|].
  split; [by rewrite update_stats_spec|].
  destruct (shown s) as [|m ms] eqn:E; [done|]. rewrite <- E.
  assert (Forall well_indexed (shown s)) as Hall.
  { apply list.Forall_forall. intros x Hx. unfold shown in Hx.
    apply list_elem_of_omap in Hx as (n & _ & Hn). by eapply Hwi. }
  destruct (merged (shown s) (mkMesh [] []) ltac:(by constructor) Hall)
    as (Hv & Ht & Hw).
  simpl in Hv, Ht. split; [by rewrite E|]. split; [done|].
  unfold count_vertices, count_triangles. rewrite Hv, Ht. done.
Qed.

Lemma merge_is_what_stats_count_witness :
  let s := after [Select 0; AddToScene] in
  exists r,
    _merge s = (Done r, s) /\
    stats (snd (_update_stats s))
    = stats_text (count_vertices (shown s)) (count_triangles (shown s)) /\
    match r with
    | None => shown s = []
    | Some out =>
        shown s <> [] /\
        vertices out = shown s ≫= vertices /\
        Z.of_nat (length (vertices out)) = count_vertices (shown s) /\
        Z.of_nat (length (triangles out)) = count_triangles (shown s) /\
        well_indexed out
    end.
Proof.
  apply (merge_is_what_stats_count (after [Select 0; AddToScene])).
  intros name m Hm. apply elem_of_map_to_list in Hm.
  assert (map_to_list (loaded (after [Select 0; AddToScene])) = [("a.OBJ", square)])
    as E by (vm_compute; reflexivity).
  rewrite E in Hm. apply list_elem_of_singleton in Hm as [= _ ->].
  unfold well_indexed. simpl. repeat constructor; lia.
Defined.

(** ** Keys *)

Lemma on_key_double_sided (lib : Lib) (env : Env) (k : Z) (s : App) :
  k ∈ [ord "B"; ord "b"] ->
  _on_key lib env (mkKeyEvent DOWN k) s
  = (Done HANDLED,
     logged (redraws lib)
       (set_scene (rematerial lib (negb (chk_ds s)) (loaded s) (scene s))
          (set_double_sided (negb (chk_ds s))
             (set_chk_ds (negb (chk_ds s)) s)))).
Proof.
  intros Hk. unfold _on_key. simpl. rewrite bool_decide_true by done.
  unfold and_then at 1, modify at 1. unfold and_then at 1, get at 1. unfold and_then at 1.
  by rewrite set_double_sided_spec.
Qed.

Lemma on_key_axes (lib : Lib) (env : Env) (k : Z) (s : App) :
  k ∈ [ord "L"; ord "l"] ->
  _on_key lib env (mkKeyEvent DOWN k) s
  = (Done HANDLED,
     logged (redraws lib)
       (set_scene_axes (negb (chk_axes s))
          (set_show_axes (negb (chk_axes s))
             (set_chk_axes (negb (chk_axes s)) s)))).
Proof.
  intros Hk. unfold _on_key. simpl.
  rewrite bool_decide_false.
  2:{ intros Hb. repeat (apply elem_of_cons in Hk as [-> | Hk]);
        try (by apply elem_of_nil in Hk);
        repeat (apply elem_of_cons in Hb as [Hb | Hb]; [discriminate Hb|]);
        by apply elem_of_nil in Hb. }
  rewrite bool_decide_true by done.
  unfold and_then at 1, modify at 1. unfold and_then at 1, get at 1. unfold and_then at 1.
  by rewrite set_axes_spec.
Qed.

Lemma rematerial_twice (lib : Lib) (s : App) :
  Inv lib s ->
  rematerial lib (negb (negb (chk_ds s))) (loaded s)
    (rematerial lib (negb (chk_ds s)) (loaded s) (scene s))
  = scene s.
Proof.
  intros (_ & _ & (_ & _ & Hc) & _ & H4 & _).
  apply map_eq. intros k. unfold rematerial. rewrite !map_lookup_imap.
  destruct (scene s !! k) as [[g mat]|] eqn:E; [|done]. simpl.
  unfold contains. destruct (loaded s !! k) as [m|] eqn:El.
  - rewrite !bool_decide_true by done. simpl.
    destruct (H4 k g mat m E El) as [_ ->].
    by rewrite negb_involutive, Hc.
  - rewrite !bool_decide_false by (by intros [? ?]). done.
Qed.

(** X19: in a state the panel reaches, pressing the key B (or b) twice, or
    the key L (or l) twice, brings the panel back to where it was: the
    flags, the boxes, the axes and every material of the scene are as
    before the first press; only the log has grown, by the redraws. Each
    press is reported as handled. *)
Theorem toggle_twice (lib : Lib) (env env' : Env) (s : App) (k k' : Z) :
  reachable lib s ->
  (k ∈ [ord "B"; ord "b"] /\ k' ∈ [ord "B"; ord "b"]) \/
  (k ∈ [ord "L"; ord "l"] /\ k' ∈ [ord "L"; ord "l"]) ->
  let once := _on_key lib env (mkKeyEvent DOWN k) s in
  let twice := _on_key lib env' (mkKeyEvent DOWN k') (snd once) in
  fst once = Done HANDLED /\ fst twice = Done HANDLED /\
  panel_of (snd twice) = panel_of s /\
  tts_thread (snd twice) = tts_thread s /\
  log (snd twice) = log s ++ redraws lib ++ redraws lib.
Proof.
  intros Hr%reachable_Inv [[Hk Hk'] | [Hk Hk']] once twice; subst once twice.
  - rewrite (on_key_double_sided lib env k s Hk). simpl.
    rewrite (on_key_double_sided lib env' k' _ Hk'). simpl.
    split; [done|]. split; [done|].
    unfold panel_of, logged. simpl. rewrite rematerial_twice by done.
    destruct Hr as (_ & _ & (_ & _ & Hc) & _).
    rewrite negb_involutive, Hc. by rewrite <- app_assoc.
  - rewrite (on_key_axes lib env k s Hk). simpl.
    rewrite (on_key_axes lib env' k' _ Hk'). simpl.
    split; [done|]. split; [done|].
    unfold panel_of, logged. simpl.
    destruct Hr as (_ & _ & (Ha & Hb & _) & _).
    rewrite negb_involutive, Hb, Ha. by rewrite <- app_assoc.
Qed.

Lemma toggle_twice_witness :
  let s := after [Select 0; AddToScene] in
  let once := _on_key lib0 env0 (mkKeyEvent DOWN (ord "B")) s in
  let twice := _on_key lib0 env0 (mkKeyEvent DOWN (ord "b")) (snd once) in
  fst once = Done HANDLED /\ fst twice = Done HANDLED /\
  panel_of (snd twice) = panel_of s /\
  tts_thread (snd twice) = tts_thread s /\
  log (snd twice) = log s ++ redraws lib0 ++ redraws lib0.
Proof.
  apply (toggle_twice lib0 env0 env0 (after [Select 0; AddToScene])
           (ord "B") (ord "b")).
  - apply reachable_after.
  - left. split; [apply list_elem_of_here |].
    apply list_elem_of_further, list_elem_of_here.
Defined.

(** ** Describing and previewing *)

Lemma speak_spec (text : string) (s : App) :
  _speak text s
  = (Done tt,
     if negb (tts_engine s) then logged [Toast "TTS not available"] s
     else if match tts_thread s with Some alive => alive | None => false end
     then logged [Toast "Voice-over already playing..."] s
     else logged [Say text] (set_tts_thread (Some true) s)).
Proof.
  unfold _speak, and_then, get. destruct (tts_engine s); simpl; [|done].
  by destruct (tts_thread s) as [[|]|].
Qed.

Lemma speak_reports (text : string) (pre : list effect) (s : App) :
  Forall (fun e => is_say e = false) pre ->
  reports (fun s0 => _speak text (logged pre s0)) s.
Proof.
  intros Hpre. unfold reports. rewrite speak_spec. simpl.
  destruct (tts_engine s); simpl.
  - destruct (tts_thread s) as [[|]|]; unfold logged; simpl; eexists;
      rewrite <- app_assoc; (split; [done|]); try done.
    intros _. apply Forall_app. split; [done|]. by repeat constructor.
  - unfold logged. simpl. eexists. rewrite <- app_assoc.
    split; [done|]. intros _. apply Forall_app. split; [done|].
    by repeat constructor.
Qed.

Lemma toast_reports (msg : string) (s : App) : reports (_toast msg) s.
Proof.
  exists [Toast msg]. split; [done|]. intros _. by repeat constructor.
Qed.

Lemma for_list_done {A B} (l : list A) (f : A -> G B) (s : App) :
  (forall x, x ∈ l -> exists y, f x s = (Done y, s)) ->
  exists ys, for_list l f s = (Done ys, s).
Proof.
  induction l as [|x l IH]; intros H; [by eexists|].
  destruct (H x ltac:(apply list_elem_of_here)) as [y Hy].
  destruct IH as [ys Hys].
  { intros z Hz. apply H. by apply list_elem_of_further. }
  simpl. unfold and_then at 1. rewrite Hy. unfold and_then at 1. rewrite Hys.
  by eexists.
Qed.

Section Describing.
Variable lib : Lib.
Hypothesis volume_of_watertight :
  forall m, is_watertight (o3d lib) m = true ->
            exists v, get_volume (o3d lib) m = Done v.

Lemma describe_model_reports (s : App) : reports (describe_model lib) s.
Proof.
  unfold reports, describe_model. unfold and_then at 1, get at 1.
  destruct (nothing_selected s); [apply toast_reports|].
  unfold contains. destruct (loaded s !! the_selected s) as [mesh|] eqn:El.
  2:{ rewrite bool_decide_false by (by intros [? ?]). apply toast_reports. }
  rewrite bool_decide_true by done. simpl.
  unfold and_then at 1, getitem. rewrite El. unfold pure at 1.
  destruct (analyze_model_done (o3d lib) mesh (the_selected s)
              volume_of_watertight) as (a & Ea & Hf & _).
  destruct (generate_description_done a Hf) as (text & Et).
  unfold and_then at 1, eval at 1. rewrite Ea.
  unfold and_then at 1, eval at 1. rewrite Et.
  unfold and_then at 1. rewrite toast_spec.
  apply (speak_reports text [Toast _] s). by repeat constructor.
Qed.

Lemma describe_each (ld : gmap string TriangleMesh) (n : string) (s : App) :
  is_Some (ld !! n) ->
  exists text,
    (mesh <- getitem ld n ;;
     analysis <- eval (analyze_model (o3d lib) mesh n) ;;
     let dims := Analysis.dimensions analysis in
     let desc := n +:+ " has "
                 +:+ format_comma (Analysis.vertices analysis)
                 +:+ " vertices, " in
     let desc := desc +:+ format_comma (Analysis.triangles analysis)
                 +:+ " faces, " in
     let desc := desc +:+ "and dimensions of "
                 +:+ format_2f (width dims) +:+ " by " in
     let desc := desc +:+ format_2f (height dims) +:+ " by "
                 +:+ format_2f (depth dims) +:+ " units. " in
     pure desc)%gui s
    = (Done text, s).
Proof.
  intros [mesh Hn].
  destruct (analyze_model_done (o3d lib) mesh n volume_of_watertight)
    as (a & Ea & _).
  unfold and_then, getitem, eval. rewrite Hn. unfold pure at 1. rewrite Ea.
  by eexists.
Qed.

Lemma describe_scene_reports (s : App) : reports (describe_scene lib) s.
Proof.
  unfold reports, describe_scene. unfold and_then at 1, get at 1.
  set (names := filter (fun n => contains (loaded s) n = true)
                  (get_geometry_names s)).
  assert (Forall (fun n => is_Some (loaded s !! n)) names) as Hall.
  { apply list.Forall_forall. intros n Hn.
    apply list_elem_of_filter in Hn as [Hn _].
    by apply bool_decide_eq_true in Hn. }
  destruct names as [|n1 [|n2 rest]] eqn:E.
  - apply toast_reports.
  - apply describe_model_reports.
  - rewrite <- E in *. clear E.
    match goal with
    | |- context [for_list names ?f] =>
        destruct (for_list_done names f s) as [texts Et]
    end.
    { intros n Hn. apply (describe_each (loaded s) n s).
      by eapply list.Forall_forall in Hall. }
    unfold and_then at 1. rewrite Et. unfold and_then at 1. rewrite toast_spec.
    apply (speak_reports _ [Toast _] s). by repeat constructor.
Qed.

End Describing.

Lemma preview_reports (s : App) : reports virtual_ar_preview s.
Proof.
  unfold reports, virtual_ar_preview. unfold and_then at 1. rewrite merge_spec.
  destruct (shown s) as [|m ms]; [apply toast_reports|].
  unfold and_then, do, modify. rewrite toast_spec. unfold logged. simpl.
  eexists. rewrite <- app_assoc. split; [done|].
  intros _. by repeat constructor.
Qed.

(** X20: describing and previewing only report. Whatever the state, and
    provided the library gives the volume of the meshes it calls
    watertight, [describe_model], [describe_scene] and
    [virtual_ar_preview] return without an exception (a [KeyError] from
    [loaded] included), change nothing of the panel but its log and the
    thread of the voice, only add to the log, and add no spoken text to
    it while a voice is still alive. *)
Theorem describing_only_reports (lib : Lib) (s : App) (m : G unit) :
  (forall mesh, is_watertight (o3d lib) mesh = true ->
                exists v, get_volume (o3d lib) mesh = Done v) ->
  m ∈ [describe_model lib; describe_scene lib; virtual_ar_preview] ->
  fst (m s) = Done tt /\
  panel_of (snd (m s)) = panel_of s /\
  log (snd (m s)) = log s ++ new_log m s /\
  (tts_thread s = Some true ->
   Forall (fun e => is_say e = false) (new_log m s)).
Proof.
  intros Hvol Hm.
  assert (reports m s /\ preserves panel_of m) as [Hrep Hp].
  { repeat (apply elem_of_cons in Hm as [-> | Hm]).
    - split; [by apply describe_model_reports | apply describe_model_quiet].
    - split; [by apply describe_scene_reports | apply describe_scene_quiet].
    - split; [apply preview_reports | apply preview_quiet].
    - by apply elem_of_nil in Hm. }
  split; [|split; [apply Hp|]]; unfold reports, new_log in *;
    destruct (m s) as [[[]|e] s']; try done;
    destruct Hrep as (evs & Hl & Hs); simpl.
  rewrite Hl, drop_app_length. done.
Qed.

Lemma describing_only_reports_witness :
  let s := after [Select 0; AddToScene; DescribeModel] in
  let m := describe_scene lib1 in
  fst (m s) = Done tt /\
  panel_of (snd (m s)) = panel_of s /\
  log (snd (m s)) = log s ++ new_log m s /\
  (tts_thread s = Some true ->
   Forall (fun e => is_say e = false) (new_log m s)).
Proof.
  apply (describing_only_reports lib1
           (after [Select 0; AddToScene; DescribeModel]) (describe_scene lib1)).
  - intros mesh Hm. simpl in *. rewrite Hm. by eexists.
  - apply list_elem_of_further, list_elem_of_here.
Defined.

(** ** A change of folder, and the scene of one model *)

Lemma shown_none (s : App) : loaded s = ∅ -> shown s = [].
Proof.
  intros E. unfold shown. rewrite E.
  induction (get_geometry_names s) as [|n l IH]; [done|].
  simpl. by rewrite lookup_empty.
Qed.

(** X21: choosing a folder forgets the models without removing them: after
    [_ok], whether the new folder can be listed or not, nothing is
    selected and nothing is loaded, while the scene and the statistics
    are as before; so [_merge] returns nothing and the preview only
    reports that there are no models, whatever the scene shows. *)
Theorem folder_change_forgets (lib : Lib) (env : Env) (path : Path)
    (s : App) :
  let s' := snd (_ok lib env path s) in
  models_dir s' = path /\ selected s' = None /\ loaded s' = ∅ /\
  scene s' = scene s /\ stats s' = stats s /\
  _merge s' = (Done None, s') /\
  virtual_ar_preview s' = (Done tt, logged [Toast "No models to preview"] s').
Proof.
  intros s'.
  assert (models_dir s' = path /\ selected s' = None /\ loaded s' = ∅ /\
          scene s' = scene s /\ stats s' = stats s) as (Hm & Hsel & Hl & Hsc & Hst).
  { subst s'. rewrite ok_spec, refresh_list_spec.
    by destruct (fst (_scan env _)). }
  repeat (split; [done|]).
  assert (_merge s' = (Done None, s')) as E
    by (rewrite merge_spec; by rewrite (shown_none s' Hl)).
  split; [exact E|]. unfold virtual_ar_preview, and_then. rewrite E. apply toast_spec.
Qed.

(** X22: with exactly one loaded model in the scene, [describe_scene]
    describes the selected model, not that one: when the name selected
    is not loaded, it only reports that the model is not loaded yet, and
    nothing is said of the model in the scene. *)
Theorem describe_scene_of_one (lib : Lib) (s : App) (shown_name sel : string) :
  filter (fun n => contains (loaded s) n = true) (get_geometry_names s)
  = [shown_name] ->
  selected s = Some sel -> sel <> EmptyString -> loaded s !! sel = None ->
  describe_scene lib s = describe_model lib s /\
  describe_scene lib s = (Done tt, logged [Toast "Model not loaded yet"] s).
Proof.
  intros Hone Hsel Hne Hl.
  assert (describe_scene lib s = describe_model lib s) as E.
  { unfold describe_scene at 1. unfold and_then at 1, get at 1. by rewrite Hone. }
  split; [exact E|]. rewrite E. unfold describe_model, and_then, get.
  assert (nothing_selected s = false) as ->.
  { unfold nothing_selected. rewrite Hsel. by apply String.eqb_neq. }
  assert (the_selected s = sel) as -> by (unfold the_selected; by rewrite Hsel).
  unfold contains. rewrite Hl, bool_decide_false by (by intros [? ?]).
  apply toast_spec.
Qed.

Lemma describe_scene_of_one_witness :
  let s := after [Select 0; AddToScene; Select 1] in
  describe_scene lib0 s = describe_model lib0 s /\
  describe_scene lib0 s = (Done tt, logged [Toast "Model not loaded yet"] s).
Proof.
  apply (describe_scene_of_one lib0 (after [Select 0; AddToScene; Select 1])
           "a.OBJ" "b.stl").
  - vm_compute. reflexivity.
  - vm_compute. reflexivity.
  - discriminate.
  - vm_compute. reflexivity.
Defined.

(** X23: [refresh_list] either changes nothing or relists everything. If
    what is at [models_dir] is not a directory it raises
    [NotADirectoryError] and leaves the state as it was. Otherwise it
    returns; the list shows what [_scan] returns, [entries] maps exactly
    these names, each to its path in the folder, and the label shows the
    folder; the selection, the loaded meshes and the scene are not
    touched, so that a name can stay selected that is no longer
    listed. *)
Theorem refresh_list_outcome (lib : Lib) (env : Env) (s : App) :
  match fs env (models_dir s) with
  | File =>
      exists msg,
        refresh_list lib env s = (Raised (Error "NotADirectoryError" msg), s)
  | _ =>
      exists items,
        fst (_scan env s) = Done items /\
        fst (refresh_list lib env s) = Done tt /\
        let s' := snd (refresh_list lib env s) in
        list_items s' = items /\
        (forall name,
           entries s' !! name
           = if decide (name ∈ items)
             then Some (path_div (models_dir s) name) else None) /\
        folder_label s' = "Folder:" +:+ newline +:+ path_str (models_dir s) /\
        selected s' = selected s /\ loaded s' = loaded s /\ scene s' = scene s
  end.
Proof.
  rewrite refresh_list_spec. unfold _scan, and_then, get. simpl.
  destruct (fs env (models_dir s)) as [| |names]; simpl.
  - exists []. split; [done|]. split; [done|]. split; [done|].
    split; [|done]. intros name. apply entries_of_lookup.
  - by eexists.
  - eexists. split; [reflexivity|]. split; [done|]. split; [done|].
    split; [|done]. intros name. apply entries_of_lookup.
Qed.
